(** * Supergraph-to-subgraph schema transform (src/main.ts)

    A shallow embedding of the schema rewriting pipeline of [main.ts] and
    the properties of its stages.

    The program works on graphql-js schema objects.  Two things of the
    JavaScript object model are kept explicit:

    - AST nodes ([type.astNode], [valueConfig.astNode], [schema.astNode])
      are objects with identity.  They live in a store, and a type refers
      to its AST node by location, so that an assignment
      [type.astNode.directives = ...] is an update of the store at an
      existing location while [astNode: { ...type.astNode, ... }] is the
      allocation of a new one.
    - thrown values: a computation either returns or throws.

    Type objects are identified by their name, as the type map of a
    graphql-js schema and the schema printer do. *)

From stdpp Require Import base strings list option gmap.

Open Scope string_scope.

(** ** AST nodes *)

(** Literal nodes of directive arguments; the program copies them and
    never looks inside. *)
Inductive ValueNode :=
| StringValue (value : string)
| BooleanValue (value : bool)
| EnumValue (value : string)
| IntValue (value : Z).

(** [ConstArgumentNode]: [{ kind: ARGUMENT, name: { value }, value }]. *)
Record ArgumentNode := {
  arg_name : string;
  arg_value : ValueNode
}.

(** [ConstDirectiveNode].  [dir_arguments] is the optional [arguments]
    property.  An element of the array is [None] where the JavaScript
    array holds [undefined]: [generateFederationDirective] stores the
    result of [Map.prototype.get] without testing it. *)
Record DirectiveNode := {
  dir_name : string;
  dir_arguments : option (list (option ArgumentNode))
}.

(** The definition node of a type, of an enum value or of the schema.
    Only [directives] is read and written by the program; [node_kind] and
    [node_description] stand for the properties that an object spread
    [{ ...node, directives: ds }] copies. *)
Record AstNode := {
  node_kind : option string;
  node_description : option string;
  node_directives : option (list DirectiveNode)
}.

Definition loc := positive.

(** The store of AST node objects. *)
Abbreviation Store := (gmap loc AstNode).

(** ** Schema objects *)

(** A reference to a type from a field or an argument: the named type
    under the [GraphQLList] and [GraphQLNonNull] wrappers. *)
Inductive TypeRef :=
| NamedRef (name : string)
| GraphQLList (ofType : TypeRef)
| GraphQLNonNull (ofType : TypeRef).

(** An argument of a field or of a directive definition, or a field of
    an input object type. *)
Record GraphQLArgument := {
  a_name : string;
  a_type : TypeRef;
  a_description : option string;
  a_defaultValue : option ValueNode;
  a_astNode : option loc;
  a_deprecationReason : option string
}.

(** A field of an object or interface type. *)
Record GraphQLField := {
  f_name : string;
  f_type : TypeRef;
  f_args : list GraphQLArgument;
  f_description : option string;
  f_astNode : option loc;
  f_deprecationReason : option string
}.

Record GraphQLEnumValueConfig := {
  ev_name : string;
  ev_astNode : option loc
}.

Record GraphQLObjectType := {
  ot_name : string;
  ot_astNode : option loc;
  ot_fields : list GraphQLField
}.

Record GraphQLInterfaceType := {
  if_name : string;
  if_astNode : option loc;
  if_fields : list GraphQLField
}.

(** The members of a union are the type objects that [types] held when
    the union was built; a member is kept by its name, and is [None]
    where the array held [undefined]. *)
Record GraphQLUnionType := {
  ut_name : string;
  ut_astNode : option loc;
  ut_types : list (option string)
}.

Record GraphQLEnumType := {
  et_name : string;
  et_astNode : option loc;
  et_values : list GraphQLEnumValueConfig
}.

Record GraphQLScalarType := {
  st_name : string;
  st_astNode : option loc
}.

Record GraphQLInputObjectType := {
  io_name : string;
  io_astNode : option loc;
  io_fields : list GraphQLArgument
}.

Inductive GraphQLNamedType :=
| ObjectT (t : GraphQLObjectType)
| InterfaceT (t : GraphQLInterfaceType)
| UnionT (t : GraphQLUnionType)
| EnumT (t : GraphQLEnumType)
| ScalarT (t : GraphQLScalarType)
| InputObjectT (t : GraphQLInputObjectType).

Definition type_name (t : GraphQLNamedType) : string :=
  match t with
  | ObjectT t => ot_name t
  | InterfaceT t => if_name t
  | UnionT t => ut_name t
  | EnumT t => et_name t
  | ScalarT t => st_name t
  | InputObjectT t => io_name t
  end.

Definition isObjectType (t : GraphQLNamedType) : bool :=
  match t with ObjectT _ => true | _ => false end.

(** [isLeafType]: scalar and enum types. *)
Definition isLeafType (t : GraphQLNamedType) : bool :=
  match t with EnumT _ | ScalarT _ => true | _ => false end.

Definition isEnumType (t : GraphQLNamedType) : bool :=
  match t with EnumT _ => true | _ => false end.

Module DirectiveLocation.
Inductive t :=
| QUERY | MUTATION | SUBSCRIPTION | FIELD | FRAGMENT_DEFINITION
| FRAGMENT_SPREAD | INLINE_FRAGMENT | VARIABLE_DEFINITION
| SCHEMA | SCALAR | OBJECT | FIELD_DEFINITION | ARGUMENT_DEFINITION
| INTERFACE | UNION | ENUM | ENUM_VALUE | INPUT_OBJECT
| INPUT_FIELD_DEFINITION.
End DirectiveLocation.

Record GraphQLDirective := {
  gd_name : string;
  gd_isRepeatable : bool;
  gd_locations : list DirectiveLocation.t;
  gd_args : list GraphQLArgument
}.

(** A schema.  [typeMap] lists the values of the type map in the order of
    its keys (insertion order); the key of an entry is the name of its
    type, which graphql-js maintains when it builds a schema.  The
    introspection types, whose names start with two underscores and which
    [mapSchema] leaves aside, are not listed.  The root operation types
    are given by the names of the root objects. *)
Record GraphQLSchema := {
  schema_astNode : option loc;
  queryType : option string;
  mutationType : option string;
  subscriptionType : option string;
  directives : list GraphQLDirective;
  typeMap : list GraphQLNamedType
}.

(** [schema.getType(name)], that is [typeMap[name]]. *)
Definition lookupType (tm : list GraphQLNamedType) (name : string)
  : option GraphQLNamedType :=
  List.find (λ t, bool_decide (type_name t = name)) tm.

Definition getType (schema : GraphQLSchema) (name : string)
  : option GraphQLNamedType :=
  lookupType (typeMap schema) name.

(** [obj[k] = x] on an object whose properties are listed in insertion
    order, [key] giving the property under which an entry is stored: an
    existing property keeps its place, a new one goes last. *)
Fixpoint assign {A : Type} (key : A → string) (k : string) (x : A)
    (l : list A) : list A :=
  match l with
  | [] => [x]
  | y :: l' =>
      if bool_decide (key y = k) then x :: l' else y :: assign key k x l'
  end.

(** [String.prototype.startsWith] *)
Definition startsWith (s searchString : string) : bool :=
  String.prefix searchString s.

(** ** Objects that have an [astNode] property *)

Class HasAstNode (A : Type) := astNode : A → option loc.

#[global] Instance type_HasAstNode : HasAstNode GraphQLNamedType := λ t,
  match t with
  | ObjectT t => ot_astNode t
  | InterfaceT t => if_astNode t
  | UnionT t => ut_astNode t
  | EnumT t => et_astNode t
  | ScalarT t => st_astNode t
  | InputObjectT t => io_astNode t
  end.

#[global] Instance object_HasAstNode : HasAstNode GraphQLObjectType := ot_astNode.

#[global] Instance value_HasAstNode : HasAstNode GraphQLEnumValueConfig :=
  ev_astNode.

#[global] Instance field_HasAstNode : HasAstNode GraphQLField := f_astNode.

#[global] Instance argument_HasAstNode : HasAstNode GraphQLArgument :=
  a_astNode.

#[global] Instance schema_HasAstNode : HasAstNode GraphQLSchema :=
  schema_astNode.

(** [x.astNode] as an object; a location outside the store reads as
    [undefined]. *)
Definition getNode (h : Store) (p : option loc) : option AstNode :=
  l ← p; h !! l.

(** [x.astNode?.directives] *)
Definition directivesOf `{HasAstNode A} (h : Store) (x : A)
  : option (list DirectiveNode) :=
  getNode h (astNode x) ≫= node_directives.

(** ** Computations: a state and thrown values *)

(** What a [throw] carries: an [Error] object with its message, or a value
    that is not an instance of [Error]. *)
Inductive Thrown :=
| ErrorObject (message : string)
| NonError.

(** The [TypeError] of a property read on [undefined]. *)
Definition TypeError_undefined (property : string) : Thrown :=
  ErrorObject
    ("Cannot read properties of undefined (reading '" +:+ property +:+ "')").

Definition M (S A : Type) : Type := S → Thrown + A * S.

#[global] Instance M_ret {S} : MRet (M S) := λ A a s, inr (a, s).

#[global] Instance M_bind {S} : MBind (M S) := λ A B f m s,
  match m s with
  | inl e => inl e
  | inr (a, s') => f a s'
  end.

Definition throw {S A} (e : Thrown) : M S A := λ _, inl e.
Definition get {S} : M S S := λ s, inr (s, s).

(** A computation on a component of the state. *)
Definition onStore {S A} (rd : S → Store) (wr : Store → S → S)
    (m : M Store A) : M S A := λ s,
  match m (rd s) with
  | inl e => inl e
  | inr (a, h) => inr (a, wr h s)
  end.

(** Allocation of a new AST node object. *)
Definition alloc (node : AstNode) : M Store loc := λ h,
  let l := fresh (dom h) in inr (l, <[l := node]> h).

(** ** The library function [mapSchema] of [@graphql-tools/utils]

    [mapSchema(schema, mapper)] builds a new schema from [schema].  Every
    type of the type map is handed to the most specific mapper function
    that [mapper] defines for it; the function answers [undefined] (the
    type is kept), [null] (the type is deleted) or a type (which replaces
    it).  Leaf types are mapped first, then enum values, then the other
    types, then the directive definitions.  Of the mapper kinds only the
    ones that [main.ts] uses are modelled.

    [mapSchema] is not code of the repository: the definitions below
    follow its contract.  A type that is kept keeps its AST node, and the
    AST nodes of fields and arguments are carried along unread.  The
    rewiring that the library does at the end, dropping the fields and
    arguments whose type was deleted, is left out: fields refer to their
    types by name.  The properties that cross a stage which deletes types
    therefore compare names and directive usages, or fields whose type is
    kept. *)

Inductive Mapped (A : Type) :=
| Undefined
| Null
| Returned (a : A).
Arguments Undefined {A}.
Arguments Null {A}.
Arguments Returned {A} a.

Record SchemaMapper (S : Type) := {
  TYPE : option (GraphQLNamedType → M S (Mapped GraphQLNamedType));
  OBJECT_TYPE : option (GraphQLObjectType → M S (Mapped GraphQLNamedType));
  ROOT_OBJECT : option (GraphQLObjectType → M S (Mapped GraphQLNamedType));
  ENUM_TYPE : option (GraphQLEnumType → M S (Mapped GraphQLNamedType));
  SCALAR_TYPE : option (GraphQLScalarType → M S (Mapped GraphQLNamedType));
  ENUM_VALUE :
    option (GraphQLEnumValueConfig → M S (Mapped GraphQLEnumValueConfig));
  DIRECTIVE : option (GraphQLDirective → M S (Mapped GraphQLDirective))
}.
Arguments TYPE {S} _.
Arguments OBJECT_TYPE {S} _.
Arguments ROOT_OBJECT {S} _.
Arguments ENUM_TYPE {S} _.
Arguments SCALAR_TYPE {S} _.
Arguments ENUM_VALUE {S} _.
Arguments DIRECTIVE {S} _.

(** [typeName] is the name of the query, mutation or subscription root. *)
Definition isRootName (schema : GraphQLSchema) (typeName : string) : bool :=
  bool_decide (queryType schema = Some typeName)
  || bool_decide (mutationType schema = Some typeName)
  || bool_decide (subscriptionType schema = Some typeName).

(** [getTypeMapper]: the call of the most specific mapper function defined
    for the type, if there is one.  The specifiers of an object type are
    TYPE, OBJECT_TYPE and, for a root, ROOT_OBJECT; those of an enum are
    TYPE and ENUM_TYPE; those of a scalar TYPE and SCALAR_TYPE; the other
    types have TYPE only. *)
Definition getTypeMapper {S} (schema : GraphQLSchema) (mapper : SchemaMapper S)
    (type : GraphQLNamedType) : option (M S (Mapped GraphQLNamedType)) :=
  let general := (λ f, f type) <$> TYPE mapper in
  match type with
  | ObjectT o =>
      let root :=
        if isRootName schema (ot_name o)
        then (λ f, f o) <$> ROOT_OBJECT mapper else None in
      root ∪ ((λ f, f o) <$> OBJECT_TYPE mapper) ∪ general
  | EnumT e => ((λ f, f e) <$> ENUM_TYPE mapper) ∪ general
  | ScalarT s => ((λ f, f s) <$> SCALAR_TYPE mapper) ∪ general
  | _ => general
  end.

(** The loop shared by [mapTypes], the enum value loop of [mapEnumValues]
    and [mapDirectives]: each entry is kept, dropped or replaced. *)
Fixpoint mapEntries {S A} (f : A → M S (Mapped A)) (l : list A)
  : M S (list A) :=
  match l with
  | [] => mret []
  | x :: l' =>
      r ← f x;
      l'' ← mapEntries f l';
      mret (match r with
            | Undefined => x :: l''
            | Null => l''
            | Returned x' => x' :: l''
            end)
  end.

(** [mapTypes]: only the types that pass [testFn] are mapped. *)
Definition mapTypes {S} (originalTypeMap : list GraphQLNamedType)
    (schema : GraphQLSchema) (schemaMapper : SchemaMapper S)
    (testFn : GraphQLNamedType → bool) : M S (list GraphQLNamedType) :=
  mapEntries
    (λ originalType,
       if testFn originalType then
         match getTypeMapper schema schemaMapper originalType with
         | None => mret Undefined
         | Some call => call
         end
       else mret Undefined)
    originalTypeMap.

(** [mapEnumValues]: with an ENUM_VALUE mapper, every enum type is rebuilt
    from its mapped values.  The library gives the rebuilt type a copy of
    its AST node; the copy is not modelled, the rebuilt type keeps the
    location of the node, whose content is the same. *)
Definition mapEnumValues {S} (originalTypeMap : list GraphQLNamedType)
    (schema : GraphQLSchema) (schemaMapper : SchemaMapper S)
  : M S (list GraphQLNamedType) :=
  match ENUM_VALUE schemaMapper with
  | None => mret originalTypeMap
  | Some enumValueMapper =>
      mapTypes originalTypeMap schema
        {| TYPE := None; OBJECT_TYPE := None; ROOT_OBJECT := None;
           ENUM_TYPE := Some (λ type,
             values ← mapEntries enumValueMapper (et_values type);
             mret (Returned (EnumT {| et_name := et_name type;
                                      et_astNode := et_astNode type;
                                      et_values := values |})));
           SCALAR_TYPE := None; ENUM_VALUE := None; DIRECTIVE := None |}
        isEnumType
  end.

Definition mapDirectives {S} (originalDirectives : list GraphQLDirective)
    (schemaMapper : SchemaMapper S) : M S (list GraphQLDirective) :=
  match DIRECTIVE schemaMapper with
  | None => mret originalDirectives
  | Some directiveMapper => mapEntries directiveMapper originalDirectives
  end.

(** [getObjectTypeFromTypeMap]: a root of the old schema is the root of
    the new one if the new type map has an object type under its name. *)
Definition getObjectTypeFromTypeMap (tm : list GraphQLNamedType)
    (root : option string) : option string :=
  name ← root;
  match lookupType tm name with
  | Some (ObjectT _) => Some name
  | _ => None
  end.

Definition mapSchema {S} (schema : GraphQLSchema) (schemaMapper : SchemaMapper S)
  : M S GraphQLSchema :=
  leaves ← mapTypes (typeMap schema) schema schemaMapper isLeafType;
  enums ← mapEnumValues leaves schema schemaMapper;
  newTypeMap ← mapTypes enums schema schemaMapper (λ t, negb (isLeafType t));
  newDirectives ← mapDirectives (directives schema) schemaMapper;
  mret {| schema_astNode := schema_astNode schema;
          queryType := getObjectTypeFromTypeMap newTypeMap (queryType schema);
          mutationType :=
            getObjectTypeFromTypeMap newTypeMap (mutationType schema);
          subscriptionType :=
            getObjectTypeFromTypeMap newTypeMap (subscriptionType schema);
          directives := newDirectives;
          typeMap := newTypeMap |}.

(** ** The functions of [main.ts] *)

(** [{ ...node, directives: ds }]; the spread of [undefined] copies
    nothing. *)
Definition spreadNode (node : option AstNode)
    (ds : option (list DirectiveNode)) : AstNode :=
  {| node_kind := node ≫= node_kind;
     node_description := node ≫= node_description;
     node_directives := ds |}.

(** [findJoinDirective] (lines 275-281), reading the store. *)
Definition findJoinDirective (h : Store) (type : GraphQLObjectType)
  : option DirectiveNode :=
  match directivesOf h type with
  | None => None
  | Some directives =>
      List.find (λ directive, bool_decide (dir_name directive = "join__type"))
        directives
  end.

(** [list.map(arg => [arg.name.value, arg])]: the read of [arg.name]
    throws on an [undefined] element. *)
Fixpoint argumentEntries (args : list (option ArgumentNode))
  : Thrown + list (string * ArgumentNode) :=
  match args with
  | [] => inr []
  | None :: _ => inl (TypeError_undefined "name")
  | Some arg :: args' =>
      match argumentEntries args' with
      | inl e => inl e
      | inr entries => inr ((arg_name arg, arg) :: entries)
      end
  end.

(** [new Map(entries)]: the entries are set from first to last, so the
    last entry of a key is the one the map holds. *)
Definition newMap (entries : list (string * ArgumentNode))
  : gmap string ArgumentNode :=
  foldl (λ m e, <[e.1 := e.2]> m) ∅ entries.

(** [generateFederationDirective] (lines 248-267). *)
Definition generateFederationDirective
    (joinTypeArguments : gmap string ArgumentNode) : DirectiveNode :=
  if bool_decide (is_Some (joinTypeArguments !! "key")) then
    {| dir_name := "key";
       dir_arguments :=
         Some [joinTypeArguments !! "key"; joinTypeArguments !! "resolvable"] |}
  else
    {| dir_name := "shareable"; dir_arguments := None |}.

(** [removeJoinDirectives] (lines 337-344): the new array is assigned to
    the [directives] property of the node that [type.astNode] is. *)
Definition removeJoinDirectives `{HasAstNode A} (type : A) : M Store unit :=
  λ h,
  match astNode type with
  | None => inr (tt, h)
  | Some l =>
      match h !! l with
      | None => inr (tt, h)
      | Some node =>
          match node_directives node with
          | None => inr (tt, h)
          | Some directives =>
              let newDirectives :=
                List.filter
                  (λ directive,
                     negb (startsWith (dir_name directive) "join__"))
                  directives in
              inr (tt, <[l := {| node_kind := node_kind node;
                                 node_description := node_description node;
                                 node_directives := Some newDirectives |}]> h)
          end
      end
  end.

(** [removeJoinDirectivesUsages] (lines 289-300). *)
Definition removeJoinDirectivesUsages (schema : GraphQLSchema)
  : M Store GraphQLSchema :=
  mapSchema schema
    {| TYPE := Some (λ type, removeJoinDirectives type;; mret Undefined);
       OBJECT_TYPE := None; ROOT_OBJECT := None; ENUM_TYPE := None;
       SCALAR_TYPE := None;
       ENUM_VALUE :=
         Some (λ valueConfig, removeJoinDirectives valueConfig;; mret Undefined);
       DIRECTIVE := None |}.

(** [removeJoinTypes] (lines 308-329). *)
Definition removeJoinTypes (schema : GraphQLSchema) : M Store GraphQLSchema :=
  mapSchema schema
    {| TYPE := None; OBJECT_TYPE := None; ROOT_OBJECT := None;
       ENUM_TYPE := Some (λ type,
         if startsWith (et_name type) "join__" then mret Null
         else mret Undefined);
       SCALAR_TYPE := Some (λ type,
         if startsWith (st_name type) "join__" then mret Null
         else mret Undefined);
       ENUM_VALUE := None;
       DIRECTIVE := Some (λ directive,
         if startsWith (gd_name directive) "join__" then mret Null
         else mret (Returned directive)) |}.

(** [removeFederationDirectivesFromRootObjects] (lines 225-237): the root
    is rebuilt around a new AST node with an empty [directives] array. *)
Definition rootMapper : SchemaMapper Store :=
  {| TYPE := None; OBJECT_TYPE := None;
     ROOT_OBJECT := Some (λ type,
       h ← get;
       l ← alloc (spreadNode (getNode h (astNode type)) (Some []));
       mret (Returned (ObjectT {| ot_name := ot_name type;
                                  ot_astNode := Some l;
                                  ot_fields := ot_fields type |})));
     ENUM_TYPE := None; SCALAR_TYPE := None; ENUM_VALUE := None;
     DIRECTIVE := None |}.

Definition removeFederationDirectivesFromRootObjects (schema : GraphQLSchema)
  : M Store GraphQLSchema :=
  mapSchema schema rootMapper.

(** The state of the callback of [addFederationDirectives]: the store and
    the array [entityNames] that the callback closes over. *)
Definition onNodes {A} (m : M Store A) : M (Store * list string) A :=
  onStore fst (λ h s, (h, s.2)) m.

(** [entityNames.push(name)] *)
Definition pushName (name : string) : M (Store * list string) unit :=
  λ s, inr (tt, (s.1, (s.2 ++ [name])%list)).

(** The OBJECT_TYPE callback of [addFederationDirectives] (lines 197-214).
    Past the test of [joinTypeDirective], [type.astNode.directives] is an
    array. *)
Definition addFederationDirective (type : GraphQLObjectType)
  : M (Store * list string) (Mapped GraphQLNamedType) :=
  s ← get;
  match findJoinDirective s.1 type with
  | None => mret Undefined
  | Some joinTypeDirective =>
      match argumentEntries (default [] (dir_arguments joinTypeDirective)) with
      | inl e => throw e
      | inr entries =>
          let joinTypeArguments := newMap entries in
          let federationDirective :=
            generateFederationDirective joinTypeArguments in
          (if bool_decide (dir_name federationDirective = "key")
           then pushName (ot_name type) else mret tt);;
          l ← onNodes
                (alloc (spreadNode (getNode s.1 (astNode type))
                          (Some (default [] (directivesOf s.1 type)
                                 ++ [federationDirective])%list)));
          mret (Returned (ObjectT {| ot_name := ot_name type;
                                     ot_astNode := Some l;
                                     ot_fields := ot_fields type |}))
      end
  end.

(** [addFederationDirectives] (lines 194-217): [entityNames] starts
    empty and is returned with the new schema. *)
Definition classifierMapper : SchemaMapper (Store * list string) :=
  {| TYPE := None; OBJECT_TYPE := Some addFederationDirective;
     ROOT_OBJECT := None; ENUM_TYPE := None; SCALAR_TYPE := None;
     ENUM_VALUE := None; DIRECTIVE := None |}.

Definition addFederationDirectives (schema : GraphQLSchema)
  : M Store (GraphQLSchema * list string) := λ h,
  match mapSchema schema classifierMapper (h, []) with
  | inl e => inl e
  | inr (transformedSchema, (h', entityNames)) =>
      inr ((transformedSchema, entityNames), h')
  end.

(** The [@link] usage that [setFederationSchemaDirective] builds. *)
Definition linkDirective : DirectiveNode :=
  {| dir_name := "link";
     dir_arguments :=
       Some [Some {| arg_name := "url";
                     arg_value :=
                       StringValue "https://specs.apollo.dev/federation/v2.5" |}] |}.

(** [setFederationSchemaDirective] (lines 138-164): [schema.astNode] is
    assigned a new node; the schema with the new property is returned. *)
Definition setFederationSchemaDirective (schema : GraphQLSchema)
  : M Store GraphQLSchema :=
  h ← get;
  l ← alloc (spreadNode (getNode h (astNode schema)) (Some [linkDirective]));
  mret {| schema_astNode := Some l;
          queryType := queryType schema;
          mutationType := mutationType schema;
          subscriptionType := subscriptionType schema;
          directives := directives schema;
          typeMap := typeMap schema |}.

Definition setTypeMap (schema : GraphQLSchema) (tm : list GraphQLNamedType)
  : GraphQLSchema :=
  {| schema_astNode := schema_astNode schema;
     queryType := queryType schema;
     mutationType := mutationType schema;
     subscriptionType := subscriptionType schema;
     directives := directives schema;
     typeMap := tm |}.

(** [schema.getQueryType()] as an entry of the type map. *)
Definition getQueryType (schema : GraphQLSchema) : option GraphQLObjectType :=
  name ← queryType schema;
  match getType schema name with
  | Some (ObjectT o) => Some o
  | _ => None
  end.

(** The field object that [addEntitiesQueryToSchema] builds. *)
Definition entitiesField (entityUnion : GraphQLUnionType)
    (anyScalar : GraphQLScalarType) : GraphQLField :=
  {| f_name := "_entities";
     f_type := GraphQLNonNull (GraphQLList (NamedRef (ut_name entityUnion)));
     f_args :=
       [ {| a_name := "representations";
            a_type :=
              GraphQLNonNull
                (GraphQLList (GraphQLNonNull (NamedRef (st_name anyScalar))));
            a_description := None;
            a_defaultValue := None;
            a_astNode := None;
            a_deprecationReason := None |} ];
     f_description := None;
     f_astNode := None;
     f_deprecationReason := None |}.

(** The assignment [root.getFields()[k] = field] as seen in the type map.
    The root object is the entry of the type map under its name as long
    as that entry is an object type; an entry that was overwritten by
    another type leaves the root object outside the type map. *)
Fixpoint assignField (rootName : string) (field : GraphQLField)
    (tm : list GraphQLNamedType) : list GraphQLNamedType :=
  match tm with
  | [] => []
  | t :: tm' =>
      if bool_decide (type_name t = rootName) then
        match t with
        | ObjectT o =>
            ObjectT {| ot_name := ot_name o;
                       ot_astNode := ot_astNode o;
                       ot_fields :=
                         assign f_name (f_name field) field (ot_fields o) |}
            :: tm'
        | _ => t :: tm'
        end
      else t :: assignField rootName field tm'
  end.

(** [addEntitiesQueryToSchema] (lines 73-97).  Without a query root,
    [resultSchema.getQueryType()] is [undefined] and the call of
    [getFields] throws. *)
Definition addEntitiesQueryToSchema {S} (resultSchema : GraphQLSchema)
    (entityUnion : GraphQLUnionType) (anyScalar : GraphQLScalarType)
  : M S GraphQLSchema :=
  match queryType resultSchema with
  | None => throw (TypeError_undefined "getFields")
  | Some rootName =>
      mret (setTypeMap resultSchema
              (assignField rootName (entitiesField entityUnion anyScalar)
                 (typeMap resultSchema)))
  end.

Definition keyDirective (fieldSetScalar : GraphQLScalarType)
  : GraphQLDirective :=
  {| gd_name := "key";
     gd_isRepeatable := true;
     gd_locations := [DirectiveLocation.OBJECT; DirectiveLocation.INTERFACE];
     gd_args :=
       [ {| a_name := "fields";
            a_type := GraphQLNonNull (NamedRef (st_name fieldSetScalar));
            a_description := None;
            a_defaultValue := None;
            a_astNode := None;
            a_deprecationReason := None |};
         {| a_name := "resolvable";
            a_type := NamedRef "Boolean";
            a_description := None;
            a_defaultValue := Some (BooleanValue true);
            a_astNode := None;
            a_deprecationReason := None |} ] |}.

Definition shareableDirective : GraphQLDirective :=
  {| gd_name := "shareable";
     gd_isRepeatable := true;
     gd_locations :=
       [DirectiveLocation.OBJECT; DirectiveLocation.FIELD_DEFINITION];
     gd_args := [] |}.

(** [addFederationDirectivesToSchema] (lines 105-131): two definitions
    are pushed on the array of directive definitions. *)
Definition addFederationDirectivesToSchema (resultSchema : GraphQLSchema)
    (fieldSetScalar : GraphQLScalarType) : GraphQLSchema :=
  {| schema_astNode := schema_astNode resultSchema;
     queryType := queryType resultSchema;
     mutationType := mutationType resultSchema;
     subscriptionType := subscriptionType resultSchema;
     directives :=
       (directives resultSchema
        ++ [keyDirective fieldSetScalar; shareableDirective])%list;
     typeMap := typeMap resultSchema |}.

Definition anyScalar : GraphQLScalarType :=
  {| st_name := "_Any"; st_astNode := None |}.

Definition fieldSetScalar : GraphQLScalarType :=
  {| st_name := "FieldSet"; st_astNode := None |}.

(** The union built at lines 54-57: every recorded name is resolved with
    [resultSchema.getType]. *)
Definition entityUnion (resultSchema : GraphQLSchema)
    (entityNames : list string) : GraphQLUnionType :=
  {| ut_name := "_Entity";
     ut_astNode := None;
     ut_types :=
       map (λ name, type_name <$> getType resultSchema name) entityNames |}.

(** The three assignments into [resultSchema.getTypeMap()] (lines
    58-60). *)
Definition assignFederationTypes (tm : list GraphQLNamedType)
    (union : GraphQLUnionType) : list GraphQLNamedType :=
  assign type_name "_Entity" (UnionT union)
    (assign type_name "FieldSet" (ScalarT fieldSetScalar)
       (assign type_name "_Any" (ScalarT anyScalar) tm)).

(** [normalizeSchema] (lines 46-64). *)
Definition normalizeSchema (schema : GraphQLSchema) : M Store GraphQLSchema :=
  schema ← setFederationSchemaDirective schema;
  '(schemaWithFederationDirectives, entityNames) ←
    addFederationDirectives schema;
  schemaWithoutJoinDirectives ←
    removeJoinDirectivesUsages schemaWithFederationDirectives;
  schemaWithoutRootFedDirectives ←
    removeFederationDirectivesFromRootObjects schemaWithoutJoinDirectives;
  resultSchema ← removeJoinTypes schemaWithoutRootFedDirectives;
  let entityUnion := entityUnion resultSchema entityNames in
  let resultSchema :=
    setTypeMap resultSchema
      (assignFederationTypes (typeMap resultSchema) entityUnion) in
  resultSchema ← addEntitiesQueryToSchema resultSchema entityUnion anyScalar;
  mret (addFederationDirectivesToSchema resultSchema fieldSetScalar).

(** * The action: [run] and [loadSchema] *)

Record GraphQLError := { error_message : string }.

(** The result of [composeServices]: [errors] is an array exactly when
    the composition failed. *)
Inductive CompositionResult (Supergraph : Type) :=
| CompositionFailure (errors : list GraphQLError)
| CompositionSuccess (schema : Supergraph).
Arguments CompositionFailure {Supergraph} errors.
Arguments CompositionSuccess {Supergraph} schema.

(** What a run does to its environment. *)
Inductive Effect :=
| WriteFile (file data : string)
| SetFailed (message : string).

#[global] Instance Thrown_ret : MRet (sum Thrown) := λ A a, inr a.

#[global] Instance Thrown_bind : MBind (sum Thrown) := λ A B f m,
  match m with
  | inl e => inl e
  | inr a => f a
  end.

(** The line feed of ["\n"]. *)
Definition newline : string := String (Ascii.ascii_of_nat 10) EmptyString.

Section action.
(** The collaborators: the inputs of the action, the file system, the
    parser, the composition and the printer.  Each call returns or
    throws. *)
Context {DocumentNode Supergraph : Type}.
Variable getInput : string → string.
Variable readFileSync : string → Thrown + string.
Variable parse : string → Thrown + DocumentNode.
Variable composeServices :
  DocumentNode → Thrown + CompositionResult Supergraph.
Variable toGraphQLJSSchema : Supergraph → Thrown + GraphQLSchema * Store.
Variable printSchemaWithDirectives :
  GraphQLSchema → Store → Thrown + string.
Variable writeFileSync : string → string → Thrown + unit.

(** [loadSchema] (lines 173-186). *)
Definition loadSchema (schemaFile : string) : Thrown + GraphQLSchema * Store :=
  text ← readFileSync schemaFile;
  schema ← parse text;
  compositionResult ← composeServices schema;
  match compositionResult with
  | CompositionFailure errors =>
      inl (ErrorObject
             (String.concat newline (error_message <$> errors)))
  | CompositionSuccess supergraph => toGraphQLJSSchema supergraph
  end.

(** The [try] block of [run] (lines 26-32). *)
Definition tryBlock : Thrown + list Effect :=
  let schemaFile := getInput "schema" in
  let outputFile := getInput "target" in
  '(schema, h) ← loadSchema schemaFile;
  '(resultSchema, h') ← normalizeSchema schema h;
  text ← printSchemaWithDirectives resultSchema h';
  writeFileSync outputFile text;;
  mret [WriteFile outputFile text].

(** [run] (lines 24-38): the [catch] clause reports a thrown value that
    is an instance of [Error] and does nothing for another value. *)
Definition run : list Effect :=
  match tryBlock with
  | inr effects => effects
  | inl (ErrorObject message) => [SetFailed message]
  | inl NonError => []
  end.
End action.

(** * The vocabulary of the properties *)

(** The entries that a run of [mapEntries] leaves, given the answer for
    each entry. *)
Definition collect {A} (r : A → Mapped A) (l : list A) : list A :=
  omap (λ x, match r x with
             | Undefined => Some x
             | Null => None
             | Returned x' => Some x'
             end) l.

Definition withoutJoin (ds : list DirectiveNode) : list DirectiveNode :=
  List.filter (λ directive, negb (startsWith (dir_name directive) "join__")) ds.

(** What [removeJoinDirectives] leaves of a node. *)
Definition stripNode (n : AstNode) : AstNode :=
  {| node_kind := node_kind n;
     node_description := node_description n;
     node_directives := withoutJoin <$> node_directives n |}.

Definition stripAt (p : option loc) (h : Store) : Store :=
  match p with
  | Some l => alter stripNode l h
  | None => h
  end.

Definition stripAll (ps : list (option loc)) (h : Store) : Store :=
  foldl (λ h p, stripAt p h) h ps.

(** The AST nodes that [removeJoinDirectivesUsages] hands to
    [removeJoinDirectives], in the order of the three passes. *)
Definition leafNode (t : GraphQLNamedType) : option loc :=
  if isLeafType t then astNode t else None.

Definition enumValueNodes (t : GraphQLNamedType) : list (option loc) :=
  match t with
  | EnumT e => astNode <$> et_values e
  | _ => []
  end.

Definition compositeNode (t : GraphQLNamedType) : option loc :=
  if negb (isLeafType t) then astNode t else None.

Definition visitedNodes (tm : list GraphQLNamedType) : list (option loc) :=
  ((leafNode <$> tm) ++ (tm ≫= enumValueNodes) ++ (compositeNode <$> tm))%list.

(** The re-resolution of the roots that [mapSchema] does. *)
Definition rewireRoots (schema : GraphQLSchema) (tm : list GraphQLNamedType)
    (ds : list GraphQLDirective) : GraphQLSchema :=
  {| schema_astNode := schema_astNode schema;
     queryType := getObjectTypeFromTypeMap tm (queryType schema);
     mutationType := getObjectTypeFromTypeMap tm (mutationType schema);
     subscriptionType := getObjectTypeFromTypeMap tm (subscriptionType schema);
     directives := ds;
     typeMap := tm |}.

(** The enum type that [mapEnumValues] rebuilds from unchanged values. *)
Definition rebuiltEnum (t : GraphQLNamedType) : Mapped GraphQLNamedType :=
  match t with
  | EnumT e => Returned (EnumT {| et_name := et_name e;
                                  et_astNode := et_astNode e;
                                  et_values := et_values e |})
  | _ => Undefined
  end.

Definition isJoinLeaf (t : GraphQLNamedType) : bool :=
  match t with
  | EnumT e => startsWith (et_name e) "join__"
  | ScalarT s => startsWith (st_name s) "join__"
  | _ => false
  end.

Definition withoutJoinTypes (tm : list GraphQLNamedType)
  : list GraphQLNamedType :=
  List.filter (λ t, negb (isJoinLeaf t)) tm.

Definition withoutJoinDefinitions (ds : list GraphQLDirective)
  : list GraphQLDirective :=
  List.filter (λ d, negb (startsWith (gd_name d) "join__")) ds.

(** [removeJoinDirectivesUsages] followed by [removeJoinTypes]. *)
Definition pruneJoin (schema : GraphQLSchema) : M Store GraphQLSchema :=
  schemaWithoutJoinDirectives ← removeJoinDirectivesUsages schema;
  removeJoinTypes schemaWithoutJoinDirectives.

Definition isRootObject (schema : GraphQLSchema) (t : GraphQLNamedType)
  : bool :=
  match t with
  | ObjectT o => isRootName schema (ot_name o)
  | _ => false
  end.

(** How [removeFederationDirectivesFromRootObjects] relates a type to the
    type at its place in the new type map, [h'] being the store at the
    end. *)
Definition sanitized (schema : GraphQLSchema) (h' : Store)
    (t t' : GraphQLNamedType) : Prop :=
  if isRootObject schema t then
    ∃ o' n, t' = ObjectT o'
            ∧ type_name t = ot_name o'
            ∧ (∀ o, t = ObjectT o → ot_fields o' = ot_fields o)
            ∧ getNode h' (astNode o') = Some n
            ∧ node_directives n = Some []
  else t' = t.

(** The directive has an argument with this name. *)
Definition hasArgument (name : string) (d : DirectiveNode) : Prop :=
  ∃ a, Some a ∈ default [] (dir_arguments d) ∧ arg_name a = name.

(** Every AST node that a type of the schema refers to is in the store. *)
Definition nodeInStore (h : Store) (p : option loc) : bool :=
  match p with
  | Some l => bool_decide (is_Some (h !! l))
  | None => true
  end.

Definition closedTypes (h : Store) (tm : list GraphQLNamedType) : bool :=
  forallb (λ t : GraphQLNamedType, nodeInStore h (astNode t)) tm.

Definition closed (h : Store) (schema : GraphQLSchema) : bool :=
  closedTypes h (typeMap schema).

(** The arrays of arguments that [addFederationDirectives] reads have no
    [undefined] element. *)
Definition joinArgumentsDefined (h : Store) (t : GraphQLNamedType) : bool :=
  match t with
  | ObjectT o =>
      match findJoinDirective h o with
      | Some joinTypeDirective =>
          forallb (λ a : option ArgumentNode, bool_decide (is_Some a))
            (default [] (dir_arguments joinTypeDirective))
      | None => true
      end
  | _ => true
  end.

Definition argumentsDefined (h : Store) (tm : list GraphQLNamedType) : bool :=
  forallb (joinArgumentsDefined h) tm.

(** The object type is recorded as an entity. *)
Definition isEntity (h : Store) (o : GraphQLObjectType) : bool :=
  match findJoinDirective h o with
  | Some joinTypeDirective =>
      match argumentEntries (default [] (dir_arguments joinTypeDirective)) with
      | inr entries => bool_decide (is_Some (newMap entries !! "key"))
      | inl _ => false
      end
  | None => false
  end.

Definition entityName (h : Store) (t : GraphQLNamedType) : option string :=
  match t with
  | ObjectT o => if isEntity h o then Some (ot_name o) else None
  | _ => None
  end.

Definition entityNamesOf (h : Store) (tm : list GraphQLNamedType)
  : list string :=
  omap (entityName h) tm.

(** How [addFederationDirectives] relates a type to the type at its place
    in the new type map: [h] is the store at the start, [h'] at the end. *)
Definition classified (h h' : Store) (t t' : GraphQLNamedType) : Prop :=
  match t with
  | ObjectT o =>
      match findJoinDirective h o with
      | None => t' = t
      | Some joinTypeDirective =>
          ∃ entries l,
            argumentEntries (default [] (dir_arguments joinTypeDirective))
            = inr entries
            ∧ t' = ObjectT {| ot_name := ot_name o;
                              ot_astNode := Some l;
                              ot_fields := ot_fields o |}
            ∧ h !! l = None
            ∧ h' !! l =
                Some (spreadNode (getNode h (astNode o))
                        (Some (default [] (directivesOf h o)
                               ++ [generateFederationDirective
                                     (newMap entries)])%list))
      end
  | _ => t' = t
  end.

(** The first [join__type] directive of the object type has an argument
    named [key]. *)
Definition keyFound (h : Store) (o : GraphQLObjectType) : Prop :=
  ∃ joinTypeDirective,
    findJoinDirective h o = Some joinTypeDirective
    ∧ hasArgument "key" joinTypeDirective.

(** The type map has an object type of this name. *)
Definition hasObject (tm : list GraphQLNamedType) (name : string) : Prop :=
  ∃ o, ObjectT o ∈ tm ∧ ot_name o = name.

(** The type map has an object type under this name. *)
Definition objectUnder (tm : list GraphQLNamedType) (name : string) : Prop :=
  ∃ o, lookupType tm name = Some (ObjectT o).

(** The named type under the wrappers of a reference. *)
Fixpoint namedType (r : TypeRef) : string :=
  match r with
  | NamedRef name => name
  | GraphQLList ofType => namedType ofType
  | GraphQLNonNull ofType => namedType ofType
  end.

(** The values of an enum type. *)
Definition valuesOf (t : GraphQLNamedType) : list GraphQLEnumValueConfig :=
  match t with
  | EnumT e => et_values e
  | _ => []
  end.

(** Two types, each read in its store, have the same name and carry the
    same directive usages, and so do their enum values, one by one.  The
    relation does not compare the fields and does not say that the AST
    nodes are the same objects. *)
Definition sameUsages (h h' : Store) (t t' : GraphQLNamedType) : Prop :=
  type_name t' = type_name t
  ∧ directivesOf h' t' = directivesOf h t
  ∧ Forall2 (λ v v' : GraphQLEnumValueConfig,
               ev_name v' = ev_name v ∧ directivesOf h' v' = directivesOf h v)
      (valuesOf t) (valuesOf t').


(** * A composed document: the supergraph of one service with an entity
    [Product], a value type [Money] and the query root, as the composition
    builds it.  Every object type carries a [join__type] usage, and the
    composition adds the [join__Graph] enum, the [join__FieldSet] scalar
    and the [join__] directive definitions. *)

Module Example.

Definition graphArgument : ArgumentNode :=
  {| arg_name := "graph"; arg_value := EnumValue "SERVICE" |}.

Definition keyArgument : ArgumentNode :=
  {| arg_name := "key"; arg_value := StringValue "id" |}.

Definition joinType (args : list ArgumentNode) : DirectiveNode :=
  {| dir_name := "join__type"; dir_arguments := Some (Some <$> args) |}.

Definition joinGraph : DirectiveNode :=
  {| dir_name := "join__graph";
     dir_arguments :=
       Some [Some {| arg_name := "name"; arg_value := StringValue "service" |};
             Some {| arg_name := "url"; arg_value := StringValue "http://service" |}] |}.

Definition joinField : DirectiveNode :=
  {| dir_name := "join__field";
     dir_arguments :=
       Some [Some graphArgument;
             Some {| arg_name := "provides";
                     arg_value := StringValue "amount" |}] |}.

Definition tag : DirectiveNode :=
  {| dir_name := "tag";
     dir_arguments :=
       Some [Some {| arg_name := "name";
                     arg_value := StringValue "public" |}] |}.

Definition definition (kind : string) (ds : list DirectiveNode) : AstNode :=
  {| node_kind := Some kind;
     node_description := None;
     node_directives := Some ds |}.

Definition store : Store :=
  <[1%positive := definition "ObjectTypeDefinition" [joinType [graphArgument]]]>
  (<[2%positive := definition "ObjectTypeDefinition"
                     [joinType [graphArgument; keyArgument]; tag]]>
  (<[3%positive := definition "ObjectTypeDefinition"
                     [joinType [graphArgument]]]>
  (<[4%positive := definition "EnumTypeDefinition" []]>
  (<[5%positive := definition "EnumValueDefinition" [joinGraph]]>
  (<[6%positive := definition "FieldDefinition" [joinField]]> ∅))))).

Definition field (name type : string) (node : option loc) : GraphQLField :=
  {| f_name := name; f_type := NamedRef type; f_args := [];
     f_description := None; f_astNode := node; f_deprecationReason := None |}.

(** The field [price] of [Product], which carries a [join__field]
    usage. *)
Definition price : GraphQLField := field "price" "Money" (Some 6%positive).

Definition Query : GraphQLObjectType :=
  {| ot_name := "Query"; ot_astNode := Some 1%positive;
     ot_fields := [field "product" "Product" None] |}.

Definition Product : GraphQLObjectType :=
  {| ot_name := "Product"; ot_astNode := Some 2%positive;
     ot_fields := [field "id" "ID" None; price] |}.

Definition Money : GraphQLObjectType :=
  {| ot_name := "Money"; ot_astNode := Some 3%positive;
     ot_fields := [field "amount" "Int" None] |}.

Definition definitionOf (name : string) : GraphQLDirective :=
  {| gd_name := name; gd_isRepeatable := true; gd_locations := [];
     gd_args := [] |}.

Definition schema : GraphQLSchema :=
  {| schema_astNode := None;
     queryType := Some "Query";
     mutationType := None;
     subscriptionType := None;
     directives :=
       [definitionOf "join__type"; definitionOf "join__field";
        definitionOf "join__graph"; definitionOf "tag"];
     typeMap :=
       [ObjectT Query; ObjectT Product; ObjectT Money;
        EnumT {| et_name := "join__Graph"; et_astNode := Some 4%positive;
                 et_values := [ {| ev_name := "SERVICE";
                                   ev_astNode := Some 5%positive |} ] |};
        ScalarT {| st_name := "join__FieldSet"; st_astNode := None |};
        ScalarT {| st_name := "ID"; st_astNode := None |};
        ScalarT {| st_name := "Int"; st_astNode := None |}] |}.

(** The result of a computation that returns. *)
Definition returned {S A} (x : Thrown + A * S) (fallback : A * S) : A * S :=
  match x with
  | inr r => r
  | inl _ => fallback
  end.

Definition normalized : GraphQLSchema * Store :=
  returned (normalizeSchema schema store) (schema, store).

Definition classifiedSchema : (GraphQLSchema * list string) * Store :=
  returned (addFederationDirectives schema store) ((schema, []), store).

Definition strippedSchema : GraphQLSchema * Store :=
  returned (removeJoinDirectivesUsages schema store) (schema, store).

Definition prunedSchema : GraphQLSchema * Store :=
  returned (pruneJoin schema store) (schema, store).

Definition sanitizedSchema : GraphQLSchema * Store :=
  returned (removeFederationDirectivesFromRootObjects schema store)
    (schema, store).

End Example.

(** A run on a schema file that does not compose: the composition reports
    two errors. *)
Module FailedComposition.
Definition getInput (name : string) : string :=
  if bool_decide (name = "schema") then "supergraph.graphql"
  else "subgraph.graphql".
Definition readFileSync (file : string) : Thrown + string :=
  inr "type Product { id: ID @unknown }".
Definition parse (text : string) : Thrown + string := inr text.
Definition composeServices (document : string)
  : Thrown + CompositionResult unit :=
  inr (CompositionFailure
         [ {| error_message := "Unknown directive @unknown." |};
           {| error_message := "No queries found in any subgraph" |} ]).
Definition toGraphQLJSSchema (supergraph : unit)
  : Thrown + GraphQLSchema * Store :=
  inr (Example.schema, Example.store).
Definition printSchemaWithDirectives (schema : GraphQLSchema) (h : Store)
  : Thrown + string := inr "type Query".
Definition writeFileSync (file data : string) : Thrown + unit := inr tt.
End FailedComposition.

(** The example document with an interface type: [Node] carries a
    [join__type] usage with a [key] argument, as the composition writes
    it for an entity interface. *)
Module WithInterface.
Definition Node : GraphQLInterfaceType :=
  {| if_name := "Node"; if_astNode := Some 7%positive;
     if_fields := [Example.field "id" "ID" None] |}.

Definition store : Store :=
  <[7%positive := Example.definition "InterfaceTypeDefinition"
                    [Example.joinType
                       [Example.graphArgument; Example.keyArgument];
                     Example.tag]]> Example.store.

Definition schema : GraphQLSchema :=
  {| schema_astNode := None;
     queryType := Some "Query";
     mutationType := None;
     subscriptionType := None;
     directives := directives Example.schema;
     typeMap := (typeMap Example.schema ++ [InterfaceT Node])%list |}.
End WithInterface.

(** The example document without its query root. *)
Module NoQuery.
Definition schema : GraphQLSchema :=
  {| schema_astNode := None;
     queryType := None;
     mutationType := None;
     subscriptionType := None;
     directives := directives Example.schema;
     typeMap := typeMap Example.schema |}.
End NoQuery.

(** The example document with types that have the names of the
    federation types: an object type [_Entity] at the head of the type
    map, an enum type [FieldSet] and a scalar type [_Any]. *)
Module Taken.
Definition Entity : GraphQLObjectType :=
  {| ot_name := "_Entity"; ot_astNode := None;
     ot_fields := [Example.field "id" "ID" None] |}.

Definition schema : GraphQLSchema :=
  {| schema_astNode := None;
     queryType := Some "Query";
     mutationType := None;
     subscriptionType := None;
     directives := directives Example.schema;
     typeMap :=
       (ObjectT Entity :: typeMap Example.schema
        ++ [EnumT {| et_name := "FieldSet"; et_astNode := None;
                     et_values := [] |};
            ScalarT {| st_name := "_Any"; st_astNode := None |}])%list
  |}.
End Taken.

(** A run on a schema file that composes: the composition returns the
    example document, and the printer lists the names of the types. *)
Module Composed.
Definition getInput (name : string) : string :=
  if bool_decide (name = "schema") then "supergraph.graphql"
  else "subgraph.graphql".
Definition readFileSync (file : string) : Thrown + string :=
  inr "type Query { product: Product }".
Definition parse (text : string) : Thrown + string := inr text.
Definition composeServices (document : string)
  : Thrown + CompositionResult unit :=
  inr (CompositionSuccess tt).
Definition toGraphQLJSSchema (supergraph : unit)
  : Thrown + GraphQLSchema * Store :=
  inr (Example.schema, Example.store).
Definition printSchemaWithDirectives (schema : GraphQLSchema) (h : Store)
  : Thrown + string :=
  inr (String.concat newline (type_name <$> typeMap schema)).
Definition writeFileSync (file data : string) : Thrown + unit := inr tt.
End Composed.

(** * Properties *)

(** ** Computations that do not throw and do not read the state *)

Ltac unfold_M :=
  unfold mbind, M_bind, mret, M_ret, throw, get, onStore in *.

Lemma mapEntries_fold {S A} (f : A → M S (Mapped A)) (r : A → Mapped A)
    (g : A → S → S) (l : list A) :
  (∀ x s, x ∈ l → f x s = inr (r x, g x s)) →
  ∀ s, mapEntries f l s = inr (collect r l, foldl (λ s x, g x s) s l).
Proof.
  induction l as [|x l IH]; intros Hf s; [done|].
  cbn [mapEntries foldl]. unfold_M.
  rewrite Hf by left.
  rewrite IH by (intros; apply Hf; by right).
  unfold collect. cbn. by destruct (r x).
Qed.

Lemma collect_undefined {A} (l : list A) : collect (λ _, Undefined) l = l.
Proof. induction l as [|x l IH]; [done|]. unfold collect in *. cbn. by rewrite IH. Qed.

Lemma foldl_id {S A} (l : list A) (s : S) : foldl (λ s _, s) s l = s.
Proof. by induction l. Qed.

Lemma mapEntries_keep {S A} (f : A → M S (Mapped A)) (l : list A) :
  (∀ x s, x ∈ l → f x s = inr (Undefined, s)) →
  ∀ s, mapEntries f l s = inr (l, s).
Proof.
  intros Hf s.
  rewrite (mapEntries_fold f (λ _, Undefined) (λ _ s, s)) by done.
  by rewrite collect_undefined, foldl_id.
Qed.

(** A pass of [mapTypes] over types for which no mapper is defined. *)
Lemma mapTypes_no_mapper {S} (tm : list GraphQLNamedType) schema
    (mapper : SchemaMapper S) testFn :
  (∀ t, t ∈ tm → testFn t = true → getTypeMapper schema mapper t = None) →
  ∀ s, mapTypes tm schema mapper testFn s = inr (tm, s).
Proof.
  intros Hnone. apply mapEntries_keep. intros t s Ht.
  destruct (testFn t) eqn:Htest; [|done].
  by rewrite Hnone.
Qed.

(** ** Removal of the [join__] directive usages *)

Lemma withoutJoin_idemp ds : withoutJoin (withoutJoin ds) = withoutJoin ds.
Proof.
  unfold withoutJoin. induction ds as [|d ds IH]; [done|].
  cbn. destruct (negb _) eqn:Hd; cbn; rewrite ?Hd; by rewrite IH.
Qed.

Lemma withoutJoin_Forall ds :
  Forall (λ d, startsWith (dir_name d) "join__" = false) (withoutJoin ds).
Proof.
  apply Forall_forall. intros d Hd.
  apply list_elem_of_In, filter_In in Hd as [_ Hd].
  by destruct (startsWith _ _).
Qed.

Lemma stripNode_idemp n : stripNode (stripNode n) = stripNode n.
Proof.
  unfold stripNode. cbn. f_equal.
  destruct (node_directives n); [|done]. cbn. by rewrite withoutJoin_idemp.
Qed.

Lemma removeJoinDirectives_eq `{HasAstNode A} (x : A) (h : Store) :
  removeJoinDirectives x h = inr (tt, stripAt (astNode x) h).
Proof.
  unfold removeJoinDirectives, stripAt.
  destruct (astNode x) as [l|]; [|done].
  destruct (h !! l) as [n|] eqn:Hl.
  - destruct (node_directives n) as [ds|] eqn:Hds.
    + rewrite (alter_alt_Some _ _ _ _ Hl). unfold stripNode. by rewrite Hds.
    + rewrite alter_id; [done|]. intros n' Hn'.
      assert (n' = n) as -> by congruence.
      destruct n; unfold stripNode; cbn in *. by subst.
  - rewrite alter_id; [done|]. intros n' Hn'. congruence.
Qed.

Lemma lookup_stripAt p h l :
  stripAt p h !! l =
    if bool_decide (p = Some l) then stripNode <$> h !! l else h !! l.
Proof.
  destruct p as [l'|]; cbn; [|done].
  rewrite lookup_alter. case_decide; case_bool_decide; simplify_eq; done.
Qed.

Lemma lookup_stripAll ps h l :
  stripAll ps h !! l =
    if bool_decide (Some l ∈ ps) then stripNode <$> h !! l else h !! l.
Proof.
  revert h. induction ps as [|p ps IH]; intros h.
  - cbn. rewrite bool_decide_eq_false_2; [done|]. by intros ?%elem_of_nil.
  - cbn [stripAll foldl]. fold (stripAll ps (stripAt p h)).
    rewrite IH, lookup_stripAt.
    destruct (decide (p = Some l)) as [->|Hp].
    + rewrite (bool_decide_eq_true_2 (Some l = Some l)) by done.
      rewrite (bool_decide_eq_true_2 (Some l ∈ Some l :: ps)) by left.
      case_bool_decide; [|done].
      destruct (h !! l); [|done]. cbn. by rewrite stripNode_idemp.
    + rewrite (bool_decide_eq_false_2 (p = Some l)) by done.
      case_bool_decide as Hin.
      * rewrite bool_decide_eq_true_2; [done|]. by right.
      * rewrite bool_decide_eq_false_2; [done|].
        intros [?|?]%elem_of_cons; congruence.
Qed.

Lemma stripAll_app ps qs h : stripAll (ps ++ qs) h = stripAll qs (stripAll ps h).
Proof. unfold stripAll. by rewrite foldl_app. Qed.

(** Stripping again the nodes that were stripped changes nothing. *)
Lemma stripAll_absorb ps qs h :
  qs ⊆ ps → stripAll qs (stripAll ps h) = stripAll ps h.
Proof.
  intros Hsub. apply map_eq. intros l.
  rewrite (lookup_stripAll qs).
  case_bool_decide as Hq; [|done].
  rewrite lookup_stripAll.
  rewrite bool_decide_eq_true_2 by by apply Hsub.
  destruct (h !! l); [|done]. cbn. by rewrite stripNode_idemp.
Qed.

Lemma stripAll_bind {A} (f : A → list (option loc)) (l : list A) h :
  foldl (λ h x, stripAll (f x) h) h l = stripAll (l ≫= f) h.
Proof.
  revert h. induction l as [|x l IH]; intros h; [done|].
  cbn [foldl]. by rewrite IH, bind_cons, stripAll_app.
Qed.

Lemma collect_same {A} (r : A → Mapped A) (l : list A) :
  (∀ x, x ∈ l → r x = Undefined ∨ r x = Returned x) → collect r l = l.
Proof.
  induction l as [|x l IH]; intros Hr; [done|].
  unfold collect in *. cbn.
  rewrite IH by (intros; apply Hr; by right).
  by destruct (Hr x) as [-> | ->]; [left| |].
Qed.

Lemma collect_rebuiltEnum tm : collect rebuiltEnum tm = tm.
Proof.
  apply collect_same. intros t _.
  destruct t as [| | |e| |]; try by left. right. by destruct e.
Qed.

Lemma removeJoinDirectivesUsages_eq schema h :
  removeJoinDirectivesUsages schema h =
    inr (rewireRoots schema (typeMap schema) (directives schema),
         stripAll (visitedNodes (typeMap schema)) h).
Proof.
  unfold removeJoinDirectivesUsages, mapSchema.
  set (mapper := {| TYPE := _ |}).
  unfold mbind at 1, M_bind at 1. unfold mapTypes at 1.
  rewrite (mapEntries_fold _ (λ _, Undefined)
             (λ t h, stripAt (leafNode t) h)); cycle 1.
  { intros t s _. unfold leafNode.
    destruct (isLeafType t) eqn:Hleaf; [|done].
    assert (getTypeMapper schema mapper t
            = Some (removeJoinDirectives t;; mret Undefined)) as ->.
    { by destruct t. }
    unfold_M. by rewrite removeJoinDirectives_eq. }
  rewrite collect_undefined.
  unfold mbind at 1, M_bind at 1. unfold mapEnumValues. cbn [ENUM_VALUE mapper].
  unfold mapTypes at 1.
  rewrite (mapEntries_fold _ rebuiltEnum
             (λ t h, stripAll (enumValueNodes t) h)); cycle 1.
  { intros t s _. destruct t as [| | |e| |]; try done. cbn.
    unfold mbind at 1, M_bind at 1.
    rewrite (mapEntries_fold _ (λ _, Undefined)
               (λ v h, stripAt (astNode v) h)); cycle 1.
    { intros v s' _. unfold_M. by rewrite removeJoinDirectives_eq. }
    rewrite collect_undefined. unfold_M.
    unfold stripAll. by rewrite foldl_fmap. }
  rewrite collect_rebuiltEnum.
  unfold mbind at 1, M_bind at 1. unfold mapTypes at 1.
  rewrite (mapEntries_fold _ (λ _, Undefined)
             (λ t h, stripAt (compositeNode t) h)); cycle 1.
  { intros t s _. unfold compositeNode.
    destruct (negb (isLeafType t)) eqn:Hleaf; [|done].
    assert (getTypeMapper schema mapper t
            = Some (removeJoinDirectives t;; mret Undefined)) as ->.
    { destruct t as [o| | | | |]; try done.
      cbn. by destruct (isRootName schema (ot_name o)). }
    unfold_M. by rewrite removeJoinDirectives_eq. }
  rewrite collect_undefined.
  unfold_M. cbn. unfold rewireRoots. do 2 f_equal.
  unfold visitedNodes. rewrite !stripAll_app.
  rewrite <- stripAll_bind.
  unfold stripAll. by rewrite !foldl_fmap.
Qed.

Lemma visitedNodes_type tm (t : GraphQLNamedType) :
  t ∈ tm → astNode t ∈ visitedNodes tm ∨ astNode t = None.
Proof.
  intros Ht. destruct (astNode t) as [l|] eqn:Hl; [left|by right].
  unfold visitedNodes. rewrite !elem_of_app.
  destruct (isLeafType t) eqn:Hleaf.
  - left. apply list_elem_of_fmap. exists t. unfold leafNode.
    by rewrite Hleaf.
  - right; right. apply list_elem_of_fmap. exists t. unfold compositeNode.
    by rewrite Hleaf.
Qed.

Lemma visitedNodes_value tm e (v : GraphQLEnumValueConfig) :
  EnumT e ∈ tm → v ∈ et_values e → astNode v ∈ visitedNodes tm.
Proof.
  intros He Hv. unfold visitedNodes. rewrite !elem_of_app.
  right; left. apply list_elem_of_bind. exists (EnumT e). split; [|done].
  cbn. apply list_elem_of_fmap. by exists v.
Qed.

Lemma directives_stripAll ps h (p : option loc) :
  p ∈ ps ∨ p = None →
  getNode (stripAll ps h) p ≫= node_directives
  = withoutJoin <$> (getNode h p ≫= node_directives).
Proof.
  intros Hp. destruct p as [l|]; [|done]. cbn.
  rewrite lookup_stripAll.
  rewrite bool_decide_eq_true_2 by by destruct Hp.
  by destruct (h !! l).
Qed.

(** C4: after [removeJoinDirectivesUsages], the directive usages of every
    type and of every enum value of the returned schema are the usages
    they had before whose name does not start with [join__], unchanged and
    in the same order; none of them has a name that starts with
    [join__]. *)
Theorem removeJoinDirectivesUsages_usages (schema : GraphQLSchema) (h : Store) :
  ∃ schema' h',
    removeJoinDirectivesUsages schema h = inr (schema', h')
    ∧ typeMap schema' = typeMap schema
    ∧ (∀ t : GraphQLNamedType, t ∈ typeMap schema' →
         directivesOf h' t = withoutJoin <$> directivesOf h t
         ∧ ∀ ds, directivesOf h' t = Some ds →
             Forall (λ d, startsWith (dir_name d) "join__" = false) ds)
    ∧ (∀ e (v : GraphQLEnumValueConfig),
         EnumT e ∈ typeMap schema' → v ∈ et_values e →
         directivesOf h' v = withoutJoin <$> directivesOf h v
         ∧ ∀ ds, directivesOf h' v = Some ds →
             Forall (λ d, startsWith (dir_name d) "join__" = false) ds).
Proof.
  eexists _, _. split; [apply removeJoinDirectivesUsages_eq|].
  split; [done|]. cbn [typeMap rewireRoots].
  assert (∀ p : option loc,
            p ∈ visitedNodes (typeMap schema) ∨ p = None →
            getNode (stripAll (visitedNodes (typeMap schema)) h) p
              ≫= node_directives
            = withoutJoin <$> (getNode h p ≫= node_directives)
            ∧ ∀ ds,
                getNode (stripAll (visitedNodes (typeMap schema)) h) p
                  ≫= node_directives = Some ds →
                Forall (λ d, startsWith (dir_name d) "join__" = false) ds)
    as Hnode.
  { intros p Hp. rewrite directives_stripAll by done. split; [done|].
    intros ds Hds. destruct (getNode h p ≫= node_directives); [|done].
    injection Hds as <-. apply withoutJoin_Forall. }
  split.
  - intros t Ht. apply Hnode. by apply visitedNodes_type.
  - intros e v He Hv. apply Hnode. left. by eapply visitedNodes_value.
Qed.

(** ** Removal of the [join__] enums, scalars and directive definitions *)

Lemma collect_filter {A} (p : A → bool) (r : A → Mapped A) (l : list A) :
  (∀ x, x ∈ l →
     r x = (if p x then Null else Undefined)
     ∨ r x = (if p x then Null else Returned x)) →
  collect r l = List.filter (λ x, negb (p x)) l.
Proof.
  induction l as [|x l IH]; intros Hr; [done|].
  unfold collect in *. cbn.
  rewrite IH by (intros; apply Hr; by right).
  destruct (Hr x) as [-> | ->]; [left| |]; by destruct (p x).
Qed.

Lemma removeJoinTypes_eq schema h :
  removeJoinTypes schema h =
    inr (rewireRoots schema (withoutJoinTypes (typeMap schema))
           (withoutJoinDefinitions (directives schema)), h).
Proof.
  unfold removeJoinTypes, mapSchema.
  set (mapper := {| TYPE := _ |}).
  unfold mbind at 1, M_bind at 1. unfold mapTypes at 1.
  rewrite (mapEntries_fold _
             (λ t, if isJoinLeaf t then Null else Undefined) (λ _ h, h));
    cycle 1.
  { intros t s _. destruct t as [| | |e|sc|]; try done; cbn.
    - by destruct (startsWith (et_name e) "join__").
    - by destruct (startsWith (st_name sc) "join__"). }
  rewrite foldl_id, (collect_filter isJoinLeaf) by (intros; by left).
  fold (withoutJoinTypes (typeMap schema)).
  unfold mbind at 1, M_bind at 1. unfold mapEnumValues. cbn [ENUM_VALUE mapper].
  unfold mret at 1, M_ret at 1.
  unfold mbind at 1, M_bind at 1.
  rewrite mapTypes_no_mapper; cycle 1.
  { intros t _ Hleaf. destruct t as [o| | | | |]; try done.
    cbn. by destruct (isRootName schema (ot_name o)). }
  unfold mbind at 1, M_bind at 1. unfold mapDirectives. cbn [DIRECTIVE mapper].
  rewrite (mapEntries_fold _
             (λ d, if startsWith (gd_name d) "join__" then Null
                   else Returned d) (λ _ h, h)); cycle 1.
  { intros d s _. by destruct (startsWith (gd_name d) "join__"). }
  rewrite foldl_id.
  rewrite (collect_filter (λ d, startsWith (gd_name d) "join__"))
    by (intros; by right).
  done.
Qed.

Lemma filter_idemp {A} (p : A → bool) (l : list A) :
  List.filter p (List.filter p l) = List.filter p l.
Proof.
  induction l as [|x l IH]; [done|].
  cbn. destruct (p x) eqn:Hx; cbn; rewrite ?Hx; by rewrite IH.
Qed.

(** ** Pruning twice *)

Lemma elem_of_filter_list {A} (p : A → bool) (l : list A) (x : A) :
  x ∈ List.filter p l ↔ x ∈ l ∧ p x = true.
Proof. rewrite !list_elem_of_In. apply filter_In. Qed.

Lemma visitedNodes_filter p tm :
  visitedNodes (List.filter p tm) ⊆ visitedNodes tm.
Proof.
  intros x. unfold visitedNodes. rewrite !elem_of_app.
  rewrite !list_elem_of_fmap, !list_elem_of_bind.
  intros [(t & -> & Ht)|[(t & Hx & Ht)|(t & -> & Ht)]];
    apply elem_of_filter_list in Ht as [Ht _]; eauto.
Qed.

Lemma getObjectTypeFromTypeMap_idemp tm root :
  getObjectTypeFromTypeMap tm (getObjectTypeFromTypeMap tm root)
  = getObjectTypeFromTypeMap tm root.
Proof.
  destruct root as [name|]; [|done]. cbn.
  destruct (lookupType tm name) as [[]|] eqn:Hname; cbn; by rewrite ?Hname.
Qed.

Lemma pruneJoin_eq schema h :
  pruneJoin schema h =
    inr (rewireRoots
           (rewireRoots schema (typeMap schema) (directives schema))
           (withoutJoinTypes (typeMap schema))
           (withoutJoinDefinitions (directives schema)),
         stripAll (visitedNodes (typeMap schema)) h).
Proof.
  unfold pruneJoin. unfold_M.
  by rewrite removeJoinDirectivesUsages_eq, removeJoinTypes_eq.
Qed.

Lemma sameUsages_refl h (tm : list GraphQLNamedType) :
  Forall2 (sameUsages h h) tm tm.
Proof.
  apply Forall2_same_length_lookup. split; [done|].
  intros i t t' Hi Hi'. assert (t' = t) as -> by congruence.
  split_and!; try done.
  apply Forall2_same_length_lookup. split; [done|].
  intros j v v' Hj Hj'. by assert (v' = v) as -> by congruence.
Qed.

Lemma fmap_filter_name {A} (name : A → string) (p : string → bool)
    (l : list A) :
  name <$> List.filter (λ x, p (name x)) l = List.filter p (name <$> l).
Proof.
  induction l as [|x l IH]; [done|]. cbn.
  destruct (p (name x)); cbn; by rewrite IH.
Qed.

(** X15, the idempotence of pruning, the relation that C6 states:
    [removeJoinDirectivesUsages] followed by [removeJoinTypes] returns for
    every document, and a second run on its result returns a schema with
    the same content: the same types by name and in the same order, each
    with the directive usages it had, the same enum values with the
    usages they had, and the same directive definitions by name.  After
    the first run no type and no enum value carries a usage whose name
    starts with [join__], and no enum type, scalar type or directive
    definition has such a name.  The statement compares content: it does
    not say that the second run returns the same objects, and the usages
    that fields carry are not in it, since no stage visits them. *)
Theorem pruneJoin_idempotent (schema : GraphQLSchema) (h : Store) :
  ∃ schema' h' schema'' h'',
    pruneJoin schema h = inr (schema', h')
    ∧ pruneJoin schema' h' = inr (schema'', h'')
    ∧ Forall2 (sameUsages h' h'') (typeMap schema') (typeMap schema'')
    ∧ gd_name <$> directives schema'' = gd_name <$> directives schema'
    ∧ (∀ (t : GraphQLNamedType) ds, t ∈ typeMap schema' →
         directivesOf h' t = Some ds →
         Forall (λ d, startsWith (dir_name d) "join__" = false) ds)
    ∧ (∀ e (v : GraphQLEnumValueConfig) ds,
         EnumT e ∈ typeMap schema' → v ∈ et_values e →
         directivesOf h' v = Some ds →
         Forall (λ d, startsWith (dir_name d) "join__" = false) ds)
    ∧ (∀ e, EnumT e ∈ typeMap schema' →
         startsWith (et_name e) "join__" = false)
    ∧ (∀ s, ScalarT s ∈ typeMap schema' →
         startsWith (st_name s) "join__" = false)
    ∧ (∀ d, d ∈ directives schema' →
         startsWith (gd_name d) "join__" = false).
Proof.
  eexists _, _, _, _. split; [apply pruneJoin_eq|].
  split; [apply pruneJoin_eq|].
  cbn [typeMap directives rewireRoots].
  split.
  { unfold withoutJoinTypes. rewrite filter_idemp.
    rewrite stripAll_absorb by apply visitedNodes_filter.
    apply sameUsages_refl. }
  split.
  { unfold withoutJoinDefinitions. by rewrite filter_idemp. }
  assert (∀ (p : option loc) ds,
            p ∈ visitedNodes (typeMap schema) ∨ p = None →
            getNode (stripAll (visitedNodes (typeMap schema)) h) p
              ≫= node_directives = Some ds →
            Forall (λ d, startsWith (dir_name d) "join__" = false) ds)
    as Hnode.
  { intros p ds Hp. rewrite directives_stripAll by done.
    destruct (getNode h p ≫= node_directives); [|done].
    intros [= <-]. apply withoutJoin_Forall. }
  repeat split.
  - intros t ds [Ht _]%elem_of_filter_list. apply Hnode.
    by apply visitedNodes_type.
  - intros e v ds [He _]%elem_of_filter_list Hv. apply Hnode. left.
    by eapply visitedNodes_value.
  - intros e [_ He]%elem_of_filter_list. cbn in He.
    by destruct (startsWith (et_name e) "join__").
  - intros s [_ Hs]%elem_of_filter_list. cbn in Hs.
    by destruct (startsWith (st_name s) "join__").
  - intros d [_ Hd]%elem_of_filter_list.
    by destruct (startsWith (gd_name d) "join__").
Qed.

(** ** Assignment into the type map and into the fields of the root *)

Section assign.
Context {A : Type} (key : A → string).

Lemma assign_lookup_ne k x l i y :
  l !! i = Some y → key y ≠ k → assign key k x l !! i = Some y.
Proof.
  revert i. induction l as [|z l IH]; intros i Hi Hne; [done|].
  cbn. case_bool_decide as Hz.
  - destruct i as [|i]; cbn in *; [congruence|done].
  - destruct i as [|i]; cbn in *; [done|]. by apply IH.
Qed.

Lemma assign_lookup_key k x l i y :
  key x = k → l !! i = Some y →
  ∃ y', assign key k x l !! i = Some y' ∧ key y' = key y.
Proof.
  intros Hx. revert i. induction l as [|z l IH]; intros i Hi; [done|].
  cbn. case_bool_decide as Hz.
  - destruct i as [|i]; cbn in *; [|eauto].
    exists x. split; [done|]. congruence.
  - destruct i as [|i]; cbn in *; [eauto|]. by apply IH.
Qed.

Lemma find_assign k x l :
  key x = k →
  List.find (λ y, bool_decide (key y = k)) (assign key k x l) = Some x.
Proof.
  intros Hx. induction l as [|z l IH]; cbn.
  - by rewrite bool_decide_eq_true_2.
  - case_bool_decide as Hz; cbn.
    + by rewrite bool_decide_eq_true_2.
    + by rewrite bool_decide_eq_false_2.
Qed.

Lemma find_assign_ne k k' x l :
  key x = k → k' ≠ k →
  List.find (λ y, bool_decide (key y = k')) (assign key k x l)
  = List.find (λ y, bool_decide (key y = k')) l.
Proof.
  intros Hx Hne. induction l as [|z l IH]; cbn.
  - rewrite bool_decide_eq_false_2; [done|congruence].
  - case_bool_decide as Hz; cbn.
    + rewrite !bool_decide_eq_false_2; [done|congruence..].
    + by rewrite IH.
Qed.

End assign.

Lemma lookupType_assignFederationTypes tm union :
  ut_name union = "_Entity" →
  lookupType (assignFederationTypes tm union) "_Any"
  = Some (ScalarT anyScalar)
  ∧ lookupType (assignFederationTypes tm union) "FieldSet"
    = Some (ScalarT fieldSetScalar)
  ∧ lookupType (assignFederationTypes tm union) "_Entity"
    = Some (UnionT union)
  ∧ (∀ name, name ≠ "_Any" → name ≠ "FieldSet" → name ≠ "_Entity" →
       lookupType (assignFederationTypes tm union) name = lookupType tm name).
Proof.
  intros Hunion. unfold assignFederationTypes, lookupType. split_and!.
  - rewrite !find_assign_ne by done. by apply find_assign.
  - rewrite find_assign_ne by done. by apply find_assign.
  - by apply find_assign.
  - intros name H1 H2 H3. by rewrite !find_assign_ne.
Qed.

(** The three assignments as a function of the type map: after them the
    entries under [_Any], [FieldSet] and [_Entity] are the two new scalars
    and the new union, whatever the type map held under these names; every
    entry stays where it was under the name it had, and an entry under
    another name is unchanged. *)
Theorem assignFederationTypes_entries (resultSchema : GraphQLSchema)
    (entityNames : list string) :
  let union := entityUnion resultSchema entityNames in
  let tm := typeMap resultSchema in
  let tm' := assignFederationTypes tm union in
  lookupType tm' "_Any" = Some (ScalarT anyScalar)
  ∧ lookupType tm' "FieldSet" = Some (ScalarT fieldSetScalar)
  ∧ lookupType tm' "_Entity" = Some (UnionT union)
  ∧ (∀ name, name ≠ "_Any" → name ≠ "FieldSet" → name ≠ "_Entity" →
       lookupType tm' name = lookupType tm name)
  ∧ (∀ i t, tm !! i = Some t →
       ∃ t', tm' !! i = Some t' ∧ type_name t' = type_name t
             ∧ (type_name t ≠ "_Any" → type_name t ≠ "FieldSet" →
                type_name t ≠ "_Entity" → t' = t)).
Proof.
  intros union tm tm'. subst tm'.
  destruct (lookupType_assignFederationTypes tm union eq_refl)
    as (Hany & HfieldSet & Hentity & Hother).
  split_and!; try done.
  intros i t Hi. unfold assignFederationTypes.
  destruct (assign_lookup_key type_name "_Any" (ScalarT anyScalar)
              tm i t eq_refl Hi) as (t1 & Ht1 & Hn1).
  destruct (assign_lookup_key type_name "FieldSet"
              (ScalarT fieldSetScalar) _ i t1 eq_refl Ht1)
    as (t2 & Ht2 & Hn2).
  destruct (assign_lookup_key type_name "_Entity" (UnionT union)
              _ i t2 eq_refl Ht2) as (t3 & Ht3 & Hn3).
  exists t3. split; [done|]. split; [congruence|].
  intros H1 H2 H3.
  pose proof (assign_lookup_ne type_name "_Any" (ScalarT anyScalar)
                tm i t Hi H1) as Hk1.
  pose proof (assign_lookup_ne type_name "FieldSet"
                (ScalarT fieldSetScalar) _ i t Hk1 H2) as Hk2.
  pose proof (assign_lookup_ne type_name "_Entity" (UnionT union)
                _ i t Hk2 H3) as Hk3.
  congruence.
Qed.

(** ** The [_entities] field *)

Lemma lookupType_assignField_object rootName field tm q :
  lookupType (assignField rootName field tm) rootName = Some (ObjectT q) →
  List.find (λ f, bool_decide (f_name f = f_name field)) (ot_fields q)
  = Some field.
Proof.
  unfold lookupType. induction tm as [|t tm IH]; [done|].
  cbn. case_bool_decide as Ht.
  - destruct t as [o| | | | |]; cbn; rewrite bool_decide_eq_true_2 by done;
      intros [= <-]. cbn. by apply find_assign.
  - cbn. by rewrite bool_decide_eq_false_2.
Qed.

Lemma lookupType_assignField_other rootName field tm name t :
  isObjectType t = false →
  lookupType tm name = Some t →
  lookupType (assignField rootName field tm) name = Some t.
Proof.
  unfold lookupType. intros Hobj. induction tm as [|t' tm IH]; [done|].
  cbn [List.find assignField].
  destruct (bool_decide (type_name t' = name)) eqn:Hn.
  - intros [= ->].
    destruct t; try done;
      destruct (bool_decide (_ = rootName)); cbn [List.find]; by rewrite Hn.
  - intros Hfind. destruct (bool_decide (type_name t' = rootName)).
    + destruct t'; cbn [List.find]; cbn in Hn |- *; by rewrite Hn.
    + cbn [List.find]. rewrite Hn. by apply IH.
Qed.

(** ** Allocation *)

Lemma alloc_fresh (node : AstNode) (h : Store) :
  ∃ l, alloc node h = inr (l, <[l := node]> h) ∧ h !! l = None.
Proof.
  exists (fresh (dom h)). split; [done|].
  apply not_elem_of_dom, is_fresh.
Qed.

(** ** Root types *)

Lemma sanitized_weaken schema h h' t t' :
  h ⊆ h' → sanitized schema h t t' → sanitized schema h' t t'.
Proof.
  unfold sanitized. intros Hsub.
  destruct (isRootObject schema t); [|done].
  intros (o' & n & -> & Hname & Hfields & Hn & Hds).
  exists o', n. split_and!; try done.
  destruct (astNode o') as [l|]; [|done]. cbn in *.
  by eapply lookup_weaken.
Qed.

Lemma rootMapper_pass schema tm :
  ∀ h, ∃ tm' h',
    mapTypes tm schema rootMapper (λ t, negb (isLeafType t)) h = inr (tm', h')
    ∧ h ⊆ h'
    ∧ Forall2 (sanitized schema h') tm tm'.
Proof.
  unfold mapTypes.
  induction tm as [|t tm IH]; intros h.
  { exists [], h. by split_and!. }
  cbn [mapEntries]. unfold mbind at 1, M_bind at 1.
  destruct (isRootObject schema t) eqn:Hroot.
  - destruct t as [o| | | | |]; try done. cbn in Hroot.
    cbn [isLeafType negb getTypeMapper]. rewrite Hroot. cbn.
    unfold_M.
    destruct (alloc_fresh (spreadNode (getNode h (astNode o)) (Some [])) h)
      as (l & -> & Hl).
    destruct (IH (<[l := spreadNode (getNode h (astNode o)) (Some [])]> h))
      as (tm' & h' & -> & Hsub & Hall).
    eexists _, h'. split; [done|].
    split; [etrans; [by apply insert_subseteq|done]|].
    constructor; [|done].
    unfold sanitized. cbn. rewrite Hroot.
    eexists _, _. split_and!; try done.
    { by intros ? [= <-]. }
    { cbn. eapply lookup_weaken; [|done]. by rewrite lookup_insert_eq. }
    done.
  - assert ((if negb (isLeafType t)
             then match getTypeMapper schema rootMapper t with
                  | Some call => call
                  | None => mret Undefined
                  end
             else mret Undefined) h = inr (Undefined, h)) as ->.
    { destruct t as [o| | | | |]; try done. cbn in Hroot |- *.
      by rewrite Hroot. }
    destruct (IH h) as (tm' & h' & Htm & Hsub & Hall).
    unfold mbind at 1, M_bind at 1. rewrite Htm.
    eexists _, h'. split; [done|]. split; [done|].
    constructor; [|done]. unfold sanitized. by rewrite Hroot.
Qed.

Lemma removeFederationDirectivesFromRootObjects_spec schema h :
  ∃ tm' h',
    removeFederationDirectivesFromRootObjects schema h
    = inr (rewireRoots schema tm' (directives schema), h')
    ∧ h ⊆ h'
    ∧ Forall2 (sanitized schema h') (typeMap schema) tm'.
Proof.
  unfold removeFederationDirectivesFromRootObjects.
  unfold mapSchema.
  unfold mbind at 1, M_bind at 1.
  rewrite mapTypes_no_mapper by (intros t _ Hleaf; by destruct t).
  unfold mbind at 1, M_bind at 1. unfold mapEnumValues.
  cbn [ENUM_VALUE rootMapper].
  unfold mret at 1, M_ret at 1.
  destruct (rootMapper_pass schema (typeMap schema) h)
    as (tm' & h' & Htm & Hsub & Hall).
  unfold mbind at 1, M_bind at 1. rewrite Htm.
  exists tm', h'. by split_and!.
Qed.

Lemma getObjectTypeFromTypeMap_Some tm root name :
  getObjectTypeFromTypeMap tm root = Some name → root = Some name.
Proof.
  destruct root as [r|]; [|done]. cbn.
  destruct (lookupType tm r) as [[]|]; done.
Qed.

Lemma isRootName_rewireRoots schema tm ds name :
  isRootName (rewireRoots schema tm ds) name = true →
  isRootName schema name = true.
Proof.
  unfold isRootName. cbn.
  rewrite !orb_true_iff, !bool_decide_eq_true.
  intros [[H|H]|H]; apply getObjectTypeFromTypeMap_Some in H; auto.
Qed.

(** C5: [removeFederationDirectivesFromRootObjects] returns for every
    document.  Every object type that is the query, mutation or
    subscription root is replaced, at its place, by an object type of the
    same name and fields that carries no directive usage, whatever it
    carried before; every other type is the type it was, and the AST
    nodes that existed are unchanged. *)
Theorem root_types_sanitized (schema : GraphQLSchema) (h : Store) :
  ∃ schema' h',
    removeFederationDirectivesFromRootObjects schema h = inr (schema', h')
    ∧ h ⊆ h'
    ∧ length (typeMap schema') = length (typeMap schema)
    ∧ (∀ i (t : GraphQLNamedType), typeMap schema !! i = Some t →
         ∃ t' : GraphQLNamedType,
           typeMap schema' !! i = Some t'
           ∧ type_name t' = type_name t
           ∧ if isRootObject schema t
             then directivesOf h' t' = Some []
             else t' = t)
    ∧ (∀ o' : GraphQLObjectType, ObjectT o' ∈ typeMap schema' →
         isRootName schema' (ot_name o') = true →
         directivesOf h' o' = Some []).
Proof.
  destruct (removeFederationDirectivesFromRootObjects_spec schema h)
    as (tm' & h' & Hrun & Hsub & Hall).
  eexists _, h'. split; [exact Hrun|]. split; [done|].
  cbn [typeMap rewireRoots].
  split; [symmetry; by eapply Forall2_length|].
  split.
  - intros i t Hi.
    destruct (Forall2_lookup_l _ _ _ _ _ Hall Hi) as (t' & Hi' & Hs).
    exists t'. split; [done|]. unfold sanitized in Hs.
    destruct (isRootObject schema t).
    + destruct Hs as (o' & n & -> & Hname & _ & Hn & Hds).
      split; [done|]. unfold directivesOf.
      change (astNode (ObjectT o')) with (astNode o'). by rewrite Hn.
    + by subst.
  - intros o' [i Hi']%list_elem_of_lookup Hroot.
    apply isRootName_rewireRoots in Hroot.
    destruct (Forall2_lookup_r _ _ _ _ _ Hall Hi') as (t & Hi & Hs).
    unfold sanitized in Hs.
    destruct (isRootObject schema t) eqn:Ht.
    + destruct Hs as (o'' & n & [= <-] & _ & _ & Hn & Hds).
      unfold directivesOf. by rewrite Hn.
    + subst t. cbn in Ht. congruence.
Qed.

(** ** The arguments of the [join__type] directive *)

Lemma argumentEntries_inr args es :
  argumentEntries args = inr es →
  args = (λ e, Some e.2) <$> es ∧ Forall (λ e, e.1 = arg_name e.2) es.
Proof.
  revert es. induction args as [|[a|] args IH]; intros es; cbn.
  - by intros [= <-].
  - destruct (argumentEntries args) as [|es']; [done|]. intros [= <-].
    destruct (IH es' eq_refl) as [-> Hes]. split; [done|]. by constructor.
  - done.
Qed.

Lemma argumentEntries_defined args :
  Forall is_Some args ↔ ∃ es, argumentEntries args = inr es.
Proof.
  split.
  - induction 1 as [|a args [a' ->] _ [es IH]]; cbn; [by eexists|].
    rewrite IH. by eexists.
  - intros [es [-> _]%argumentEntries_inr].
    apply Forall_fmap, Forall_forall. by eexists.
Qed.

Lemma newMap_lookup_Some es k a :
  newMap es !! k = Some a → (k, a) ∈ es.
Proof.
  unfold newMap.
  assert (∀ m : gmap string ArgumentNode,
            foldl (λ m e, <[e.1 := e.2]> m) m es !! k = Some a →
            (k, a) ∈ es ∨ m !! k = Some a) as Hgen.
  { induction es as [|[k' a'] es IH]; intros m; cbn; [by right|].
    intros [Hin|Hm]%IH; [left; by right|].
    rewrite lookup_insert in Hm. case_decide; [|by right].
    simplify_eq. left. by left. }
  intros [?|Hempty]%Hgen; [done|]. by rewrite lookup_empty in Hempty.
Qed.

Lemma newMap_lookup_is_Some es k :
  is_Some (newMap es !! k) ↔ k ∈ es.*1.
Proof.
  unfold newMap.
  assert (∀ m : gmap string ArgumentNode,
            is_Some (foldl (λ m e, <[e.1 := e.2]> m) m es !! k) ↔
            k ∈ es.*1 ∨ is_Some (m !! k)) as Hgen.
  { induction es as [|[k' a'] es IH]; intros m; cbn.
    - rewrite elem_of_nil. tauto.
    - rewrite IH, elem_of_cons, lookup_insert.
      case_decide; simplify_eq.
      + split; [intros [?|?]; auto|]. intros _. right. by eexists.
      + split; [intros [?|?]; auto|]. intros [[?|?]|?]; auto. done. }
  rewrite Hgen, lookup_empty. split; [|by left].
  intros [?|[? ?]]; done.
Qed.

Lemma newMap_hasArgument d es name :
  argumentEntries (default [] (dir_arguments d)) = inr es →
  is_Some (newMap es !! name) ↔ hasArgument name d.
Proof.
  intros [Hargs Hes]%argumentEntries_inr.
  rewrite newMap_lookup_is_Some. unfold hasArgument. rewrite Hargs.
  rewrite Forall_forall in Hes.
  split.
  - intros [[k a] [-> He]]%list_elem_of_fmap.
    exists a. split; [|symmetry; by apply (Hes _ He)].
    apply list_elem_of_fmap. by exists (k, a).
  - intros (a & [[k a'] [[= ->] He]]%list_elem_of_fmap & <-).
    apply list_elem_of_fmap. exists (k, a'). split; [|done].
    symmetry. by apply (Hes _ He).
Qed.

Lemma newMap_slot d es name :
  argumentEntries (default [] (dir_arguments d)) = inr es →
  match newMap es !! name with
  | Some a => Some a ∈ default [] (dir_arguments d) ∧ arg_name a = name
  | None => ¬ hasArgument name d
  end.
Proof.
  intros Hes. destruct (newMap es !! name) as [a|] eqn:Hname.
  - apply newMap_lookup_Some in Hname.
    apply argumentEntries_inr in Hes as [-> Hall].
    rewrite Forall_forall in Hall. split.
    + apply list_elem_of_fmap. by exists (name, a).
    + symmetry. by apply (Hall _ Hname).
  - rewrite <- (newMap_hasArgument d es name Hes), Hname.
    by intros [? ?].
Qed.

(** ** Classification of the object types *)

Lemma classified_weaken h h1 h2 t t' :
  h1 ⊆ h2 → classified h h1 t t' → classified h h2 t t'.
Proof.
  intros Hsub. unfold classified.
  destruct t as [o| | | | |]; try done.
  destruct (findJoinDirective h o); [|done].
  intros (es & l & Hes & -> & Hl & Hl').
  exists es, l. split_and!; try done. by eapply lookup_weaken.
Qed.

Lemma getNode_weaken h hi p :
  h ⊆ hi → nodeInStore h p = true → getNode hi p = getNode h p.
Proof.
  intros Hsub. destruct p as [l|]; [|done]. cbn.
  intros [n Hn]%bool_decide_eq_true. rewrite Hn. by eapply lookup_weaken.
Qed.

Lemma directivesOf_weaken `{HasAstNode A} h hi (x : A) :
  h ⊆ hi → nodeInStore h (astNode x) = true →
  directivesOf hi x = directivesOf h x.
Proof. intros. unfold directivesOf. by rewrite (getNode_weaken h hi). Qed.

Lemma findJoinDirective_weaken h hi o :
  h ⊆ hi → nodeInStore h (astNode o) = true →
  findJoinDirective hi o = findJoinDirective h o.
Proof.
  intros. unfold findJoinDirective. by rewrite (directivesOf_weaken h hi).
Qed.

Lemma generateFederationDirective_key m :
  bool_decide (dir_name (generateFederationDirective m) = "key")
  = bool_decide (is_Some (m !! "key")).
Proof.
  unfold generateFederationDirective.
  by destruct (bool_decide (is_Some (m !! "key"))).
Qed.

(** The callback on an object type, the store having grown from [h] to
    [hi]. *)
Lemma addFederationDirective_run h hi names (o : GraphQLObjectType) :
  h ⊆ hi → nodeInStore h (astNode o) = true →
  match addFederationDirective o (hi, names) with
  | inl _ => joinArgumentsDefined h (ObjectT o) = false
  | inr (r, (hi', names')) =>
      joinArgumentsDefined h (ObjectT o) = true
      ∧ names' = (names ++ option_list (entityName h (ObjectT o)))%list
      ∧ hi ⊆ hi'
      ∧ ∃ t', (r = Undefined ∧ t' = ObjectT o ∨ r = Returned t')
              ∧ classified h hi' (ObjectT o) t'
  end.
Proof.
  intros Hsub Hin.
  unfold addFederationDirective, classified, joinArgumentsDefined, entityName,
    isEntity.
  unfold_M. cbn [fst snd].
  rewrite (findJoinDirective_weaken h hi), (getNode_weaken h hi),
    (directivesOf_weaken h hi) by done.
  destruct (findJoinDirective h o) as [jd|].
  2:{ split; [done|]. split; [by rewrite app_nil_r|]. split; [done|].
      exists (ObjectT o). split; [by left|done]. }
  destruct (argumentEntries (default [] (dir_arguments jd))) as [e|es] eqn:Hes.
  { apply not_true_is_false. intros Hall.
    assert (Forall is_Some (default [] (dir_arguments jd))) as Hdef.
    { apply Forall_forall. intros a Ha.
      rewrite forallb_forall in Hall.
      apply list_elem_of_In, Hall in Ha. by apply bool_decide_eq_true in Ha. }
    apply argumentEntries_defined in Hdef as [es' Hes']. congruence. }
  rewrite generateFederationDirective_key.
  set (node := spreadNode _ _).
  assert (∀ names1 : list string,
            match onNodes (alloc node) (hi, names1) with
            | inl _ => False
            | inr (l, (hi', names')) =>
                names' = names1 ∧ hi ⊆ hi' ∧ hi !! l = None
                ∧ hi' !! l = Some node
            end) as Halloc.
  { intros names1. unfold onNodes, onStore. cbn [fst snd].
    destruct (alloc_fresh node hi) as (l & -> & Hl).
    split_and!; [done|by apply insert_subseteq|done|].
    by rewrite lookup_insert_eq. }
  assert (forallb (λ a : option ArgumentNode, bool_decide (is_Some a))
            (default [] (dir_arguments jd)) = true) as Hdefined.
  { apply forallb_forall. intros a Ha%list_elem_of_In.
    apply bool_decide_eq_true.
    assert (Forall is_Some (default [] (dir_arguments jd))) as Hall
      by (apply argumentEntries_defined; by eexists).
    rewrite Forall_forall in Hall. by apply Hall. }
  case_bool_decide as Hkey; unfold pushName; cbn [fst snd].
  - specialize (Halloc (names ++ [ot_name o])%list).
    destruct (onNodes (alloc node) _) as [|[l [hi' names']]]; [done|].
    destruct Halloc as (-> & Hsub' & Hl & Hl').
    split_and!; try done.
    eexists. split; [by right|]. exists es, l. split_and!; try done.
    destruct (h !! l) eqn:Hhl; [|done].
    by rewrite (lookup_weaken _ _ _ _ Hhl Hsub) in Hl.
  - specialize (Halloc names).
    destruct (onNodes (alloc node) _) as [|[l [hi' names']]]; [done|].
    destruct Halloc as (-> & Hsub' & Hl & Hl').
    split_and!; try done; [by rewrite app_nil_r|].
    eexists. split; [by right|]. exists es, l. split_and!; try done.
    destruct (h !! l) eqn:Hhl; [|done].
    by rewrite (lookup_weaken _ _ _ _ Hhl Hsub) in Hl.
Qed.

Lemma classifier_pass schema h tm :
  closedTypes h tm = true →
  ∀ hi names, h ⊆ hi →
    match mapTypes tm schema classifierMapper (λ t, negb (isLeafType t))
            (hi, names) with
    | inl _ => argumentsDefined h tm = false
    | inr (tm', (h', names')) =>
        argumentsDefined h tm = true
        ∧ names' = (names ++ entityNamesOf h tm)%list
        ∧ hi ⊆ h'
        ∧ Forall2 (classified h h') tm tm'
    end.
Proof.
  unfold mapTypes, closedTypes, argumentsDefined, entityNamesOf.
  induction tm as [|t tm IH]; intros Hclosed hi names Hsub.
  { cbn. by rewrite app_nil_r. }
  cbn [forallb] in Hclosed. apply andb_true_iff in Hclosed as [Ht Htm].
  cbn [mapEntries forallb omap list_omap].
  unfold mbind at 1, M_bind at 1.
  destruct (decide (isObjectType t = true)) as [Hobj|Hobj].
  - destruct t as [o| | | | |]; try done.
    assert (getTypeMapper schema classifierMapper (ObjectT o)
            = Some (addFederationDirective o)) as ->.
    { cbn. by destruct (isRootName schema (ot_name o)). }
    cbn [isLeafType negb].
    pose proof (addFederationDirective_run h hi names o Hsub Ht) as Hrun.
    destruct (addFederationDirective o (hi, names))
      as [e|[r [hi1 names1]]]; [by rewrite Hrun|].
    destruct Hrun as (-> & -> & Hsub1 & t' & Hr & Hcl).
    specialize (IH Htm hi1
                  (names ++ option_list (entityName h (ObjectT o)))%list
                  (transitivity Hsub Hsub1)).
    unfold mbind at 1, M_bind at 1.
    destruct (mapEntries _ tm _) as [e|[tm' [h' names']]]; [done|].
    destruct IH as (-> & -> & Hsub' & Hall).
    unfold_M. split; [done|].
    split.
    { destruct (entityName h (ObjectT o)); cbn; by rewrite <- app_assoc. }
    split; [by transitivity hi1|].
    destruct Hr as [[-> ->]| ->]; (constructor; [|done]);
      by eapply classified_weaken.
  - assert ((if negb (isLeafType t)
             then match getTypeMapper schema classifierMapper t with
                  | Some call => call
                  | None => mret Undefined
                  end
             else mret Undefined) (hi, names) = inr (Undefined, (hi, names)))
      as ->.
    { by destruct t. }
    specialize (IH Htm hi names Hsub).
    unfold mbind at 1, M_bind at 1.
    destruct (mapEntries _ tm _) as [e|[tm' [h' names']]].
    { destruct t; try done; by rewrite IH. }
    destruct IH as (-> & -> & Hsub' & Hall).
    unfold_M.
    assert (joinArgumentsDefined h t = true) as -> by by destruct t.
    assert (entityName h t = None) as -> by by destruct t.
    split_and!; try done.
    constructor; [|done]. by destruct t.
Qed.

Lemma addFederationDirectives_spec schema h :
  closed h schema = true →
  match addFederationDirectives schema h with
  | inl _ => argumentsDefined h (typeMap schema) = false
  | inr ((schema', entityNames), h') =>
      argumentsDefined h (typeMap schema) = true
      ∧ entityNames = entityNamesOf h (typeMap schema)
      ∧ h ⊆ h'
      ∧ ∃ tm', schema' = rewireRoots schema tm' (directives schema)
               ∧ Forall2 (classified h h') (typeMap schema) tm'
  end.
Proof.
  intros Hclosed.
  unfold addFederationDirectives, mapSchema.
  unfold mbind at 1, M_bind at 1.
  rewrite mapTypes_no_mapper by (intros t _ Hleaf; by destruct t).
  unfold mbind at 1, M_bind at 1. unfold mapEnumValues.
  cbn [ENUM_VALUE classifierMapper].
  unfold mret at 1, M_ret at 1.
  pose proof (classifier_pass schema h (typeMap schema) Hclosed h []
                (reflexivity h)) as Hpass.
  unfold mbind at 1, M_bind at 1.
  destruct (mapTypes (typeMap schema) schema classifierMapper _ _)
    as [e|[tm' [h' names']]]; [done|].
  destruct Hpass as (Hdef & -> & Hsub & Hall).
  unfold_M. cbn. split_and!; try done. by exists tm'.
Qed.

(** What the classification does to an object type with a [join__type]
    directive. *)
Lemma addFederationDirectives_object schema h i o joinTypeDirective :
  closed h schema = true →
  argumentsDefined h (typeMap schema) = true →
  typeMap schema !! i = Some (ObjectT o) →
  findJoinDirective h o = Some joinTypeDirective →
  ∃ schema' h' entries o',
    addFederationDirectives schema h
    = inr ((schema', entityNamesOf h (typeMap schema)), h')
    ∧ argumentEntries (default [] (dir_arguments joinTypeDirective))
      = inr entries
    ∧ typeMap schema' !! i = Some (ObjectT o')
    ∧ ot_name o' = ot_name o
    ∧ ot_fields o' = ot_fields o
    ∧ directivesOf h' o' =
        Some (default [] (directivesOf h o)
              ++ [generateFederationDirective (newMap entries)])%list.
Proof.
  intros Hclosed Hdef Hi Hjoin.
  pose proof (addFederationDirectives_spec schema h Hclosed) as Hspec.
  destruct (addFederationDirectives schema h)
    as [e|[[schema' names] h']]; [congruence|].
  destruct Hspec as (_ & -> & Hsub & tm' & -> & Hall).
  destruct (Forall2_lookup_l _ _ _ _ _ Hall Hi) as (t' & Hi' & Hcl).
  unfold classified in Hcl. rewrite Hjoin in Hcl.
  destruct Hcl as (es & l & Hes & -> & _ & Hl).
  eexists _, h', es, _. split_and!; try done.
  unfold directivesOf. cbn. by rewrite Hl.
Qed.

Lemma findJoinDirective_first h o ds joinTypeDirective :
  directivesOf h o = Some ds →
  List.find (λ d, bool_decide (dir_name d = "join__type")) ds
  = Some joinTypeDirective →
  findJoinDirective h o = Some joinTypeDirective.
Proof. unfold findJoinDirective. by intros ->. Qed.

(** The usage that [addFederationDirectives] appends for an object type
    whose first [join__type] directive has an argument named [key]: one
    usage named [key].  Its array of arguments always has two elements:
    an argument of the [join__type] directive named [key], and then an
    argument of that directive named [resolvable] or, when the directive
    has none, [undefined], which is no argument node.  The name of the
    type is among the recorded entity names. *)
Theorem key_directive_emitted (schema : GraphQLSchema) (h : Store) (i : nat)
    (o : GraphQLObjectType) (ds : list DirectiveNode)
    (joinTypeDirective : DirectiveNode) :
  closed h schema = true →
  argumentsDefined h (typeMap schema) = true →
  typeMap schema !! i = Some (ObjectT o) →
  directivesOf h o = Some ds →
  List.find (λ d, bool_decide (dir_name d = "join__type")) ds
  = Some joinTypeDirective →
  hasArgument "key" joinTypeDirective →
  ∃ schema' entityNames h' o' keyArgument resolvable,
    addFederationDirectives schema h = inr ((schema', entityNames), h')
    ∧ typeMap schema' !! i = Some (ObjectT o')
    ∧ ot_name o' = ot_name o
    ∧ ot_fields o' = ot_fields o
    ∧ directivesOf h' o' =
        Some (ds ++ [ {| dir_name := "key";
                         dir_arguments :=
                           Some [Some keyArgument; resolvable] |} ])%list
    ∧ Some keyArgument ∈ default [] (dir_arguments joinTypeDirective)
    ∧ arg_name keyArgument = "key"
    ∧ match resolvable with
      | Some a =>
          Some a ∈ default [] (dir_arguments joinTypeDirective)
          ∧ arg_name a = "resolvable"
      | None => ¬ hasArgument "resolvable" joinTypeDirective
      end
    ∧ ot_name o ∈ entityNames.
Proof.
  intros Hclosed Hdef Hi Hds Hfind Hkey.
  pose proof (findJoinDirective_first h o ds _ Hds Hfind) as Hjoin.
  destruct (addFederationDirectives_object schema h i o _
              Hclosed Hdef Hi Hjoin)
    as (schema' & h' & es & o' & Hrun & Hes & Hi' & Hname & Hfields & Hds').
  apply (newMap_hasArgument _ es "key" Hes) in Hkey as Hmap.
  destruct Hmap as [k Hk].
  pose proof (newMap_slot _ es "key" Hes) as Hslot. rewrite Hk in Hslot.
  destruct Hslot as [Hkin Hkname].
  exists schema', (entityNamesOf h (typeMap schema)), h', o', k,
    (newMap es !! "resolvable").
  split_and!; try done.
  - rewrite Hds', Hds. cbn. do 3 f_equal.
    unfold generateFederationDirective.
    rewrite bool_decide_eq_true_2 by by eexists. by rewrite Hk.
  - apply (newMap_slot _ es "resolvable" Hes).
  - apply list_elem_of_omap. exists (ObjectT o).
    split; [by eapply list_elem_of_lookup_2|].
    cbn. unfold isEntity. rewrite Hjoin, Hes.
    by rewrite bool_decide_eq_true_2 by by eexists.
Qed.

(** C3: for an object type whose first [join__type] directive has no
    argument named [key], [addFederationDirectives] appends to the
    directive usages of the type one usage named [shareable] that has no
    [arguments], and the name of the type is not among the recorded entity
    names. *)
Theorem shareable_directive_emitted (schema : GraphQLSchema) (h : Store)
    (i : nat) (o : GraphQLObjectType) (ds : list DirectiveNode)
    (joinTypeDirective : DirectiveNode) :
  closed h schema = true →
  argumentsDefined h (typeMap schema) = true →
  NoDup (type_name <$> typeMap schema) →
  typeMap schema !! i = Some (ObjectT o) →
  directivesOf h o = Some ds →
  List.find (λ d, bool_decide (dir_name d = "join__type")) ds
  = Some joinTypeDirective →
  ¬ hasArgument "key" joinTypeDirective →
  ∃ schema' entityNames h' o',
    addFederationDirectives schema h = inr ((schema', entityNames), h')
    ∧ typeMap schema' !! i = Some (ObjectT o')
    ∧ ot_name o' = ot_name o
    ∧ ot_fields o' = ot_fields o
    ∧ directivesOf h' o' =
        Some (ds ++ [ {| dir_name := "shareable";
                         dir_arguments := None |} ])%list
    ∧ ot_name o ∉ entityNames.
Proof.
  intros Hclosed Hdef Hnodup Hi Hds Hfind Hkey.
  pose proof (findJoinDirective_first h o ds _ Hds Hfind) as Hjoin.
  destruct (addFederationDirectives_object schema h i o _
              Hclosed Hdef Hi Hjoin)
    as (schema' & h' & es & o' & Hrun & Hes & Hi' & Hname & Hfields & Hds').
  assert (newMap es !! "key" = None) as Hnone.
  { destruct (newMap es !! "key") eqn:Hk; [|done].
    exfalso. apply Hkey, (newMap_hasArgument _ es "key" Hes). by eexists. }
  exists schema', (entityNamesOf h (typeMap schema)), h', o'.
  split_and!; try done.
  - rewrite Hds', Hds. cbn. do 3 f_equal.
    unfold generateFederationDirective.
    rewrite bool_decide_eq_false_2; [done|]. rewrite Hnone. by intros [? ?].
  - intros (t & [j Hj]%list_elem_of_lookup & Hentity)%list_elem_of_omap.
    destruct t as [o2| | | | |]; try done. cbn in Hentity.
    destruct (isEntity h o2) eqn:Hent; [|done]. injection Hentity as Hname2.
    assert (j = i) as ->.
    { eapply NoDup_lookup; [exact Hnodup| |].
      - by rewrite list_lookup_fmap, Hj.
      - rewrite list_lookup_fmap, Hi. cbn. by rewrite Hname2. }
    assert (o2 = o) as -> by congruence.
    unfold isEntity in Hent. rewrite Hjoin, Hes, Hnone in Hent.
    rewrite bool_decide_eq_false_2 in Hent; [done|]. by intros [? ?].
Qed.

(** ** The members of the [_Entity] union *)

Lemma isEntity_keyFound h o :
  joinArgumentsDefined h (ObjectT o) = true →
  isEntity h o = true ↔ keyFound h o.
Proof.
  unfold joinArgumentsDefined, isEntity, keyFound.
  destruct (findJoinDirective h o) as [jd|]; [|intros _; split; [done|]].
  2:{ by intros (? & ? & _). }
  intros Hall.
  assert (Forall is_Some (default [] (dir_arguments jd))) as Hdef.
  { apply Forall_forall. intros a Ha%list_elem_of_In.
    rewrite forallb_forall in Hall. apply Hall in Ha.
    by apply bool_decide_eq_true in Ha. }
  apply argumentEntries_defined in Hdef as [es Hes]. rewrite Hes.
  rewrite bool_decide_eq_true, (newMap_hasArgument jd es "key" Hes).
  split; [by exists jd|]. by intros (? & [= <-] & ?).
Qed.

Lemma closedTypes_weaken h h' tm :
  h ⊆ h' → closedTypes h tm = true → closedTypes h' tm = true.
Proof.
  unfold closedTypes. rewrite !forallb_forall. intros Hsub Hall t Ht.
  specialize (Hall t Ht). destruct (astNode t) as [l|]; [|done]. cbn in *.
  apply bool_decide_eq_true in Hall as [n Hn].
  apply bool_decide_eq_true. exists n. by eapply lookup_weaken.
Qed.

Lemma setFederationSchemaDirective_spec schema h :
  ∃ l h',
    setFederationSchemaDirective schema h
    = inr ({| schema_astNode := Some l;
              queryType := queryType schema;
              mutationType := mutationType schema;
              subscriptionType := subscriptionType schema;
              directives := directives schema;
              typeMap := typeMap schema |}, h')
    ∧ h ⊆ h'
    ∧ h !! l = None
    ∧ getNode h' (Some l) ≫= node_directives = Some [linkDirective].
Proof.
  unfold setFederationSchemaDirective. unfold_M.
  destruct (alloc_fresh
              (spreadNode (getNode h (astNode schema)) (Some [linkDirective]))
              h) as (l & -> & Hl).
  eexists l, _. split_and!; [done|by apply insert_subseteq|done|].
  cbn. by rewrite lookup_insert_eq.
Qed.

Lemma hasObject_classified h h' tm tm' name :
  Forall2 (classified h h') tm tm' → hasObject tm name → hasObject tm' name.
Proof.
  intros Hall (o & [i Hi]%list_elem_of_lookup & Hname).
  destruct (Forall2_lookup_l _ _ _ _ _ Hall Hi) as (t' & Hi' & Hcl).
  unfold classified in Hcl.
  destruct (findJoinDirective h o).
  - destruct Hcl as (es & l & _ & -> & _).
    eexists. split; [by eapply list_elem_of_lookup_2|done].
  - subst t'. exists o. split; [by eapply list_elem_of_lookup_2|done].
Qed.

Lemma hasObject_sanitized schema h' tm tm' name :
  Forall2 (sanitized schema h') tm tm' → hasObject tm name → hasObject tm' name.
Proof.
  intros Hall (o & [i Hi]%list_elem_of_lookup & Hname).
  destruct (Forall2_lookup_l _ _ _ _ _ Hall Hi) as (t' & Hi' & Hs).
  unfold sanitized in Hs.
  destruct (isRootObject schema (ObjectT o)).
  - destruct Hs as (o' & n & -> & Hname' & _).
    exists o'. split; [by eapply list_elem_of_lookup_2|].
    cbn in Hname'. congruence.
  - subst t'. exists o. split; [by eapply list_elem_of_lookup_2|done].
Qed.

Lemma hasObject_withoutJoinTypes tm name :
  hasObject tm name → hasObject (withoutJoinTypes tm) name.
Proof.
  intros (o & Ho & Hname). exists o. split; [|done].
  by apply elem_of_filter_list.
Qed.

Lemma lookupType_hasObject tm name :
  hasObject tm name → type_name <$> lookupType tm name = Some name.
Proof.
  intros (o & Ho & Hname). unfold lookupType.
  destruct (List.find _ tm) as [t|] eqn:Hfind.
  - apply find_some in Hfind as [_ Ht].
    apply bool_decide_eq_true in Ht. cbn. by rewrite Ht.
  - apply list_elem_of_In in Ho.
    pose proof (find_none _ _ Hfind _ Ho) as Hno. cbn in Hno.
    by rewrite bool_decide_eq_true_2 in Hno.
Qed.

Lemma entityNamesOf_weaken h h' tm :
  h ⊆ h' → closedTypes h tm = true →
  entityNamesOf h' tm = entityNamesOf h tm
  ∧ argumentsDefined h' tm = argumentsDefined h tm.
Proof.
  intros Hsub. unfold closedTypes, entityNamesOf, argumentsDefined.
  induction tm as [|t tm IH]; [done|].
  cbn. intros [Ht Htm]%andb_true_iff. destruct (IH Htm) as [-> ->].
  assert (entityName h' t = entityName h t
          ∧ joinArgumentsDefined h' t = joinArgumentsDefined h t) as [-> ->];
    [|done].
  destruct t as [o| | | | |]; try done. cbn. unfold isEntity.
  by rewrite (findJoinDirective_weaken h h').
Qed.

Lemma entityNamesOf_hasObject h tm name :
  name ∈ entityNamesOf h tm → hasObject tm name.
Proof.
  intros (t & Ht & Hname)%list_elem_of_omap.
  destruct t as [o| | | | |]; try done. cbn in Hname.
  destruct (isEntity h o); [|done]. injection Hname as <-. by exists o.
Qed.

Lemma objectUnder_Forall2 (R : relation GraphQLNamedType) tm tm' name :
  (∀ t t', R t t' →
     type_name t' = type_name t ∧ isObjectType t' = isObjectType t) →
  Forall2 R tm tm' → objectUnder tm name → objectUnder tm' name.
Proof.
  intros HR Hall. unfold objectUnder, lookupType.
  induction Hall as [|t t' tm tm' Ht _ IH]; [done|].
  destruct (HR _ _ Ht) as [Hname Hobj]. cbn. rewrite Hname.
  case_bool_decide; [|done].
  intros [o [= ->]]. destruct t'; try done. by eexists.
Qed.

Lemma classified_shape h h' t t' :
  classified h h' t t' →
  type_name t' = type_name t ∧ isObjectType t' = isObjectType t.
Proof.
  unfold classified. destruct t as [o| | | | |]; try by intros ->.
  destruct (findJoinDirective h o); [|by intros ->].
  by intros (es & l & _ & -> & _).
Qed.

Lemma sanitized_shape schema h' t t' :
  sanitized schema h' t t' →
  type_name t' = type_name t ∧ isObjectType t' = isObjectType t.
Proof.
  unfold sanitized. destruct (isRootObject schema t) eqn:Hroot;
    [|by intros ->].
  intros (o' & n & -> & Hname & _). split; [done|].
  by destruct t.
Qed.

Lemma objectUnder_withoutJoinTypes tm name :
  objectUnder tm name → objectUnder (withoutJoinTypes tm) name.
Proof.
  unfold objectUnder, lookupType, withoutJoinTypes.
  induction tm as [|t tm IH]; [done|]. cbn.
  case_bool_decide as Hname.
  - intros [o [= ->]]. cbn. rewrite bool_decide_eq_true_2 by done. by eexists.
  - intros Hrest. destruct (negb (isJoinLeaf t)); [|by apply IH].
    cbn. rewrite bool_decide_eq_false_2 by done. by apply IH.
Qed.

Lemma getObjectTypeFromTypeMap_objectUnder tm name :
  objectUnder tm name → getObjectTypeFromTypeMap tm (Some name) = Some name.
Proof. intros [o Ho]. cbn. by rewrite Ho. Qed.

Lemma getObjectTypeFromTypeMap_under tm root name :
  getObjectTypeFromTypeMap tm root = Some name → objectUnder tm name.
Proof.
  destruct root as [r|]; [|done]. cbn. unfold objectUnder.
  destruct (lookupType tm r) as [[o| | | | |]|] eqn:Hr; try done.
  intros [= <-]. by exists o.
Qed.

Lemma lookupType_assignField_root rootName field tm :
  objectUnder tm rootName → objectUnder (assignField rootName field tm) rootName.
Proof.
  unfold objectUnder, lookupType. induction tm as [|t tm IH]; [done|].
  cbn. case_bool_decide as Hname.
  - intros [o [= ->]]. cbn. rewrite bool_decide_eq_true_2 by done.
    by eexists.
  - cbn. by rewrite bool_decide_eq_false_2.
Qed.

(** The stages of a run of [normalizeSchema] on a document whose AST
    nodes are in the store: what a run that returns has established, and
    when a run returns. *)
Lemma normalizeSchema_stages schema h :
  closed h schema = true →
  match normalizeSchema schema h with
  | inr (result, h') =>
      argumentsDefined h (typeMap schema) = true
      ∧ ∃ rootName tm5 union,
          queryType schema = Some rootName
          ∧ queryType result = Some rootName
          ∧ objectUnder tm5 rootName
          ∧ ut_name union = "_Entity"
          ∧ ut_types union = Some <$> entityNamesOf h (typeMap schema)
          ∧ typeMap result =
              assignField rootName (entitiesField union anyScalar)
                (assignFederationTypes tm5 union)
  | inl _ =>
      argumentsDefined h (typeMap schema) = false
      ∨ ¬ (∃ rootName, queryType schema = Some rootName
                       ∧ objectUnder (typeMap schema) rootName)
  end.
Proof.
  intros Hclosed.
  unfold normalizeSchema. unfold mbind at 1, M_bind at 1.
  destruct (setFederationSchemaDirective_spec schema h)
    as (l & h1 & -> & Hsub1 & _ & _).
  set (s1 := {| schema_astNode := Some l |}).
  assert (closed h1 s1 = true) as Hclosed1.
  { unfold closed in *. cbn. by eapply closedTypes_weaken. }
  pose proof (addFederationDirectives_spec s1 h1 Hclosed1) as Hspec.
  destruct (entityNamesOf_weaken h h1 (typeMap schema) Hsub1 Hclosed)
    as [Hnames Hdefs].
  cbn [typeMap s1] in Hspec. rewrite Hnames, Hdefs in Hspec.
  unfold mbind at 1, M_bind at 1.
  destruct (addFederationDirectives s1 h1) as [e|[[s2 names] h2]];
    [by left|].
  destruct Hspec as (Hdef & -> & Hsub2 & tm2 & -> & Hall2).
  unfold mbind at 1, M_bind at 1.
  rewrite removeJoinDirectivesUsages_eq.
  cbn [typeMap directives rewireRoots].
  set (s3 := rewireRoots (rewireRoots s1 tm2 _) tm2 _).
  destruct (removeFederationDirectivesFromRootObjects_spec s3
              (stripAll (visitedNodes tm2) h2))
    as (tm4 & h4 & H4 & _ & Hall4).
  unfold mbind at 1, M_bind at 1. rewrite H4.
  unfold mbind at 1, M_bind at 1. rewrite removeJoinTypes_eq.
  cbn [typeMap directives rewireRoots s3].
  set (s5 := rewireRoots (rewireRoots s3 tm4 _) (withoutJoinTypes tm4) _).
  assert (∀ name, objectUnder (typeMap schema) name →
            objectUnder (withoutJoinTypes tm4) name) as Hunder.
  { intros name Hname. apply objectUnder_withoutJoinTypes.
    eapply objectUnder_Forall2; [apply sanitized_shape|exact Hall4|].
    eapply objectUnder_Forall2; [apply classified_shape|exact Hall2|done]. }
  set (names := entityNamesOf h (typeMap schema)).
  assert (ut_types (entityUnion s5 names) = Some <$> names) as Hmembers.
  { unfold entityUnion. cbn [ut_types].
    apply list_eq. intros j. rewrite !list_lookup_fmap.
    destruct (names !! j) as [name|] eqn:Hj; [|done]. cbn. f_equal.
    apply lookupType_hasObject. subst s5. cbn [typeMap rewireRoots].
    apply hasObject_withoutJoinTypes.
    apply (hasObject_sanitized _ _ _ _ _ Hall4).
    apply (hasObject_classified _ _ _ _ _ Hall2).
    apply (entityNamesOf_hasObject h).
    by eapply list_elem_of_lookup_2. }
  unfold addEntitiesQueryToSchema. cbn [queryType setTypeMap typeMap].
  destruct (queryType s5) as [rootName|] eqn:Hroot; unfold_M.
  - split; [done|].
    exists rootName, (withoutJoinTypes tm4), (entityUnion s5 names).
    subst s5. cbn [queryType rewireRoots] in Hroot.
    pose proof Hroot as Hroot5.
    pose proof (getObjectTypeFromTypeMap_under _ _ _ Hroot) as Hunder5.
    apply getObjectTypeFromTypeMap_Some in Hroot.
    subst s3. cbn [queryType rewireRoots] in Hroot.
    do 3 apply getObjectTypeFromTypeMap_Some in Hroot.
    split_and!; try done.
  - right. intros (rootName & Hquery & Hobj).
    pose proof (objectUnder_Forall2 _ _ _ rootName
                  (classified_shape h1 h2) Hall2 Hobj) as Hobj2.
    pose proof (objectUnder_Forall2 _ _ _ rootName
                  (sanitized_shape s3 h4) Hall4 Hobj2) as Hobj4.
    pose proof (objectUnder_withoutJoinTypes _ _ Hobj4) as Hobj5.
    subst s5 s3 s1. cbn [queryType rewireRoots] in Hroot.
    rewrite Hquery in Hroot.
    rewrite !(getObjectTypeFromTypeMap_objectUnder tm2) in Hroot by done.
    rewrite (getObjectTypeFromTypeMap_objectUnder tm4) in Hroot by done.
    by rewrite getObjectTypeFromTypeMap_objectUnder in Hroot.
Qed.

Lemma getQueryType_under schema query :
  getQueryType schema = Some query →
  queryType schema = Some (ot_name query)
  ∧ objectUnder (typeMap schema) (ot_name query).
Proof.
  unfold getQueryType, getType, objectUnder.
  destruct (queryType schema) as [name|]; [|done]. cbn.
  destruct (lookupType (typeMap schema) name) as [[o| | | | |]|] eqn:Hname;
    try done.
  intros [= <-].
  assert (ot_name o = name) as <-.
  { unfold lookupType in Hname. apply find_some in Hname as [_ Ho].
    by apply bool_decide_eq_true in Ho. }
  split; [done|]. by exists o.
Qed.

(** A document whose AST nodes are in the store, whose [join__type]
    arguments are all defined and which has a query type is normalized
    without a throw. *)
Lemma normalizeSchema_returns schema h query :
  closed h schema = true →
  argumentsDefined h (typeMap schema) = true →
  getQueryType schema = Some query →
  ∃ result h', normalizeSchema schema h = inr (result, h').
Proof.
  intros Hclosed Hdef [Hroot Hunder]%getQueryType_under.
  pose proof (normalizeSchema_stages schema h Hclosed) as Hstages.
  destruct (normalizeSchema schema h) as [e|[result h']]; [|by eexists _, _].
  destruct Hstages as [Hundef|Hnoroot]; [congruence|].
  destruct Hnoroot. by eexists.
Qed.

(** C1: a document whose AST nodes are in the store, whose [join__type]
    arguments are all defined and which has a query type is normalized,
    and in the schema that [normalizeSchema] returns the entry [_Entity]
    of the type map is a union whose members are exactly the object types
    of the input document whose first [join__type] directive has an
    argument named [key]: every such type is a member, under its name,
    and the union has no other member. *)
Theorem entity_union_members (schema : GraphQLSchema) (h : Store)
    (query : GraphQLObjectType) :
  closed h schema = true →
  argumentsDefined h (typeMap schema) = true →
  getQueryType schema = Some query →
  ∃ result h' union,
    normalizeSchema schema h = inr (result, h')
    ∧ getType result "_Entity" = Some (UnionT union)
    ∧ ∀ member,
        member ∈ ut_types union ↔
        ∃ o, ObjectT o ∈ typeMap schema
             ∧ member = Some (ot_name o)
             ∧ keyFound h o.
Proof.
  intros Hclosed Hdef Hquery.
  destruct (normalizeSchema_returns schema h query Hclosed Hdef Hquery)
    as (result & h' & Hrun).
  pose proof (normalizeSchema_stages schema h Hclosed) as Hstages.
  rewrite Hrun in Hstages.
  destruct Hstages
    as (_ & rootName & tm5 & union & _ & _ & _ & Hname & Hmembers & Htm).
  exists result, h', union. split; [done|]. split.
  { unfold getType. rewrite Htm.
    apply lookupType_assignField_other; [done|].
    by apply lookupType_assignFederationTypes. }
  intros member. rewrite Hmembers. unfold entityNamesOf.
  rewrite list_elem_of_fmap. setoid_rewrite list_elem_of_omap.
  unfold argumentsDefined in Hdef. rewrite forallb_forall in Hdef.
  split.
  - intros (name & -> & t & Ht & Hentity).
    destruct t as [o| | | | |]; try done. cbn in Hentity.
    destruct (isEntity h o) eqn:Hent; [|done]. injection Hentity as <-.
    exists o. split_and!; try done.
    apply isEntity_keyFound; [|done]. by apply Hdef, list_elem_of_In.
  - intros (o & Ho & -> & Hkey).
    exists (ot_name o). split; [done|]. exists (ObjectT o). split; [done|].
    cbn. apply isEntity_keyFound in Hkey as ->; [done|].
    by apply Hdef, list_elem_of_In.
Qed.

(** C7: a document whose AST nodes are in the store, whose [join__type]
    arguments are all defined and whose query type is not named [_Any],
    [FieldSet] or [_Entity] is normalized, and in the schema that
    [normalizeSchema] returns the field [_entities] of the query type has
    the type [[_Entity]!] and exactly one argument, [representations] of
    type [[_Any!]!]; [_Entity] and [_Any] are the union and the scalar of
    that schema. *)
Theorem entities_field_shape (schema : GraphQLSchema) (h : Store)
    (query : GraphQLObjectType) :
  closed h schema = true →
  argumentsDefined h (typeMap schema) = true →
  getQueryType schema = Some query →
  ot_name query ≠ "_Any" →
  ot_name query ≠ "FieldSet" →
  ot_name query ≠ "_Entity" →
  ∃ result h' query' field argument union,
    normalizeSchema schema h = inr (result, h')
    ∧ getQueryType result = Some query'
    ∧ List.find (λ f, bool_decide (f_name f = "_entities")) (ot_fields query')
      = Some field
    ∧ f_type field = GraphQLNonNull (GraphQLList (NamedRef "_Entity"))
    ∧ f_args field = [argument]
    ∧ a_name argument = "representations"
    ∧ a_type argument =
        GraphQLNonNull (GraphQLList (GraphQLNonNull (NamedRef "_Any")))
    ∧ getType result "_Entity" = Some (UnionT union)
    ∧ getType result "_Any" = Some (ScalarT anyScalar).
Proof.
  intros Hclosed Hdef Hquery Hany HfieldSet Hentity.
  destruct (normalizeSchema_returns schema h query Hclosed Hdef Hquery)
    as (result & h' & Hrun).
  pose proof (normalizeSchema_stages schema h Hclosed) as Hstages.
  rewrite Hrun in Hstages.
  destruct Hstages
    as (_ & rootName & tm5 & union & Hroot & Hroot' & Hunder & Hname
        & _ & Htm).
  apply getQueryType_under in Hquery as [Hquery _].
  assert (rootName = ot_name query) as -> by congruence.
  destruct (lookupType_assignFederationTypes tm5 union Hname)
    as (Hlany & _ & Hlunion & Hother).
  assert (objectUnder (typeMap result) (ot_name query)) as [query' Hquery'].
  { rewrite Htm. apply lookupType_assignField_root.
    unfold objectUnder. by rewrite Hother. }
  exists result, h', query'.
  eexists _, _, union. split; [done|].
  split.
  { unfold getQueryType, getType. rewrite Hroot'. cbn. by rewrite Hquery'. }
  rewrite Htm in Hquery'. apply lookupType_assignField_object in Hquery'.
  split; [exact Hquery'|].
  unfold getType, entitiesField. cbn [f_type f_args a_name a_type].
  rewrite Htm, Hname. split_and!; try done.
  - by apply lookupType_assignField_other.
  - by apply lookupType_assignField_other.
Qed.

(** ** The assignments into the type map, in a run *)

Lemma lookupType_assignField_ne rootName field tm name :
  name ≠ rootName →
  lookupType (assignField rootName field tm) name = lookupType tm name.
Proof.
  intros Hne. unfold lookupType. induction tm as [|t tm IH]; [done|]. cbn.
  case_bool_decide as Hroot.
  - assert (bool_decide (type_name t = name) = false) as Hname.
    { apply bool_decide_eq_false_2. congruence. }
    destruct t; cbn in *; by rewrite Hname.
  - cbn. by rewrite IH.
Qed.

Lemma assignField_lookup rootName field tm i t :
  tm !! i = Some t →
  ∃ t', assignField rootName field tm !! i = Some t'
        ∧ type_name t' = type_name t
        ∧ (type_name t ≠ rootName → t' = t).
Proof.
  revert i. induction tm as [|t0 tm IH]; intros i Hi; [done|]. cbn.
  case_bool_decide as Hroot.
  - destruct i as [|i]; cbn in Hi.
    + injection Hi as ->. destruct t; cbn; eexists; split_and!; done.
    + destruct t0; cbn; exists t; by split_and!.
  - destruct i as [|i]; cbn in Hi |- *.
    + injection Hi as ->. by exists t.
    + by apply IH.
Qed.

(** C10: a document whose AST nodes are in the store, whose [join__type]
    arguments are all defined and which has a query type is normalized
    without an error, also when it has types named [_Any], [FieldSet] or
    [_Entity].  [resultSchema] being the document that the first five
    stages of [normalizeSchema] return and that the three assignments
    find, in the schema that [normalizeSchema] returns the entries under
    [_Any], [FieldSet] and [_Entity] are the two new scalars and the new
    union, whatever [resultSchema] held under these names.  Every entry of
    [resultSchema] stays where it was under the name it had; an entry
    under another name is unchanged, the query type apart, which
    [addEntitiesQueryToSchema] gives the field [_entities]. *)
Theorem federation_types_replaced (schema : GraphQLSchema) (h : Store)
    (query : GraphQLObjectType) :
  closed h schema = true →
  argumentsDefined h (typeMap schema) = true →
  getQueryType schema = Some query →
  ∃ resultSchema entityNames result h',
    (schema ← setFederationSchemaDirective schema;
     '(schemaWithFederationDirectives, entityNames) ←
       addFederationDirectives schema;
     schemaWithoutJoinDirectives ←
       removeJoinDirectivesUsages schemaWithFederationDirectives;
     schemaWithoutRootFedDirectives ←
       removeFederationDirectivesFromRootObjects schemaWithoutJoinDirectives;
     resultSchema ← removeJoinTypes schemaWithoutRootFedDirectives;
     mret (resultSchema, entityNames)) h
    = inr ((resultSchema, entityNames), h')
    ∧ normalizeSchema schema h = inr (result, h')
    ∧ getType result "_Any" = Some (ScalarT anyScalar)
    ∧ getType result "FieldSet" = Some (ScalarT fieldSetScalar)
    ∧ getType result "_Entity"
      = Some (UnionT (entityUnion resultSchema entityNames))
    ∧ (∀ name, name ≠ "_Any" → name ≠ "FieldSet" → name ≠ "_Entity" →
         queryType result ≠ Some name →
         getType result name = getType resultSchema name)
    ∧ (∀ i t, typeMap resultSchema !! i = Some t →
         ∃ t', typeMap result !! i = Some t'
               ∧ type_name t' = type_name t
               ∧ (type_name t ≠ "_Any" → type_name t ≠ "FieldSet" →
                  type_name t ≠ "_Entity" →
                  queryType result ≠ Some (type_name t) → t' = t)).
Proof.
  intros Hclosed Hdefined Hquery.
  destruct (normalizeSchema_returns schema h query Hclosed Hdefined Hquery)
    as (result & h' & Hrun).
  pose proof Hrun as Hstages. unfold normalizeSchema in Hstages.
  unfold mbind at 1, M_bind at 1. unfold mbind at 1, M_bind at 1 in Hstages.
  destruct (setFederationSchemaDirective schema h) as [e|[schema1 h1]];
    [done|].
  unfold mbind at 1, M_bind at 1. unfold mbind at 1, M_bind at 1 in Hstages.
  destruct (addFederationDirectives schema1 h1)
    as [e|[[schema2 entityNames] h2]]; [done|].
  unfold mbind at 1, M_bind at 1. unfold mbind at 1, M_bind at 1 in Hstages.
  destruct (removeJoinDirectivesUsages schema2 h2) as [e|[schema3 h3]];
    [done|].
  unfold mbind at 1, M_bind at 1. unfold mbind at 1, M_bind at 1 in Hstages.
  destruct (removeFederationDirectivesFromRootObjects schema3 h3)
    as [e|[schema4 h4]]; [done|].
  unfold mbind at 1, M_bind at 1. unfold mbind at 1, M_bind at 1 in Hstages.
  destruct (removeJoinTypes schema4 h4) as [e|[resultSchema h5]]; [done|].
  unfold addEntitiesQueryToSchema in Hstages.
  cbn [queryType setTypeMap typeMap] in Hstages.
  destruct (queryType resultSchema) as [rootName|] eqn:Hroot;
    unfold_M; [|done].
  injection Hstages as <- <-.
  exists resultSchema, entityNames. eexists _, h5.
  split; [done|]. split; [done|].
  unfold getType.
  cbn [typeMap queryType addFederationDirectivesToSchema setTypeMap].
  set (union := entityUnion resultSchema entityNames).
  destruct (lookupType_assignFederationTypes (typeMap resultSchema) union
              eq_refl) as (Hany & HfieldSet & Hentity & Hother).
  split_and!.
  - by apply lookupType_assignField_other.
  - by apply lookupType_assignField_other.
  - by apply lookupType_assignField_other.
  - intros name Hname1 Hname2 Hname3 Hname4.
    rewrite lookupType_assignField_ne by congruence. by apply Hother.
  - intros i t Hi.
    destruct (assignFederationTypes_entries resultSchema entityNames)
      as (_ & _ & _ & _ & Hplaces).
    destruct (Hplaces i t Hi) as (t1 & Hi1 & Hname1 & Hsame1).
    destruct (assignField_lookup rootName (entitiesField union anyScalar)
                _ i t1 Hi1) as (t' & Hi' & Hname' & Hsame').
    exists t'. split; [done|]. split; [congruence|].
    intros Hne1 Hne2 Hne3 Hne4.
    rewrite Hsame', Hsame1; try done. congruence.
Qed.

(** ** Which stages assign to existing AST nodes *)

Lemma mapEntries_extends {S A} (R : relation S)
    (f : A → M S (Mapped A)) (l : list A) :
  Reflexive R → Transitive R →
  (∀ x s r s', f x s = inr (r, s') → R s s') →
  ∀ s l' s', mapEntries f l s = inr (l', s') → R s s'.
Proof.
  intros Hrefl Htrans Hf. induction l as [|x l IH]; intros s l' s'; cbn.
  { unfold_M. by intros [= _ <-]. }
  unfold mbind at 1, M_bind at 1.
  destruct (f x s) as [|[r s1]] eqn:Hx; [done|].
  unfold mbind at 1, M_bind at 1.
  destruct (mapEntries f l s1) as [|[l1 s2]] eqn:Hl; [done|].
  unfold_M. intros [= _ <-].
  transitivity s1; [by eapply Hf|by eapply IH].
Qed.

Lemma addFederationDirective_extends o s r s' :
  addFederationDirective o s = inr (r, s') → s.1 ⊆ s'.1.
Proof.
  unfold addFederationDirective. unfold_M.
  destruct (findJoinDirective s.1 o); [|by intros [= _ <-]].
  destruct (argumentEntries _) as [|es]; [done|].
  set (node := spreadNode _ _).
  assert (∀ s0 : Store * list string, s0.1 = s.1 →
            ∀ l s1, onNodes (alloc node) s0 = inr (l, s1) → s.1 ⊆ s1.1)
    as Halloc.
  { intros s0 Hs0 l s1. unfold onNodes, onStore.
    destruct (alloc_fresh node s0.1) as (l0 & -> & Hl0).
    intros [= _ <-]. cbn. rewrite <- Hs0. by apply insert_subseteq. }
  case_bool_decide; unfold pushName; cbn [fst snd].
  - destruct (onNodes _ _) as [|[l s1]] eqn:Hal; [done|].
    intros [= _ <-].
    by apply (Halloc (s.1, (s.2 ++ [ot_name o])%list) eq_refl _ _ Hal).
  - destruct (onNodes _ _) as [|[l s1]] eqn:Hal; [done|].
    intros [= _ <-]. by apply (Halloc (s.1, s.2) eq_refl _ _ Hal).
Qed.

Lemma addFederationDirectives_extends schema h schema' entityNames h' :
  addFederationDirectives schema h = inr ((schema', entityNames), h') →
  h ⊆ h'.
Proof.
  unfold addFederationDirectives, mapSchema.
  unfold mbind at 1, M_bind at 1.
  rewrite mapTypes_no_mapper by (intros t _ Hleaf; by destruct t).
  unfold mbind at 1, M_bind at 1. unfold mapEnumValues.
  cbn [ENUM_VALUE classifierMapper].
  unfold mret at 1, M_ret at 1.
  unfold mbind at 1, M_bind at 1.
  destruct (mapTypes _ _ _ _ _) as [|[tm' [h1 names1]]] eqn:Hpass; [done|].
  unfold_M. cbn. intros [= _ _ <-].
  unfold mapTypes in Hpass.
  apply (mapEntries_extends (λ s s' : Store * list string, s.1 ⊆ s'.1))
    in Hpass; [done|by intros ?|by intros ? ? ? ? ?; etrans|].
  intros t s r s'.
  destruct (negb (isLeafType t)); [|by intros [= _ <-]].
  destruct t as [o| | | | |]; try by intros [= _ <-].
  assert (getTypeMapper schema classifierMapper (ObjectT o)
          = Some (addFederationDirective o)) as ->.
  { cbn. by destruct (isRootName schema (ot_name o)). }
  apply addFederationDirective_extends.
Qed.

(** C9 (amended): [removeJoinDirectivesUsages] is the stage that assigns
    to the [directives] property of existing AST nodes: every node that a
    type or an enum value of the document refers to is overwritten, at its
    location, by the node without its [join__] usages.  The other stages
    leave every existing AST node as it was:
    [removeFederationDirectivesFromRootObjects],
    [setFederationSchemaDirective] and [addFederationDirectives] only add
    new nodes to the store, and [removeJoinTypes] and
    [addEntitiesQueryToSchema] do not touch it. *)
Theorem stages_and_existing_nodes :
  (∀ schema h, ∃ schema' h',
     removeJoinDirectivesUsages schema h = inr (schema', h')
     ∧ ∀ l n, h !! l = Some n →
         h' !! l =
           Some (if bool_decide (Some l ∈ visitedNodes (typeMap schema))
                 then stripNode n else n))
  ∧ (∀ schema h, ∃ schema' h',
       removeFederationDirectivesFromRootObjects schema h = inr (schema', h')
       ∧ h ⊆ h')
  ∧ (∀ schema h, ∃ schema' h',
       setFederationSchemaDirective schema h = inr (schema', h') ∧ h ⊆ h')
  ∧ (∀ schema h,
       match addFederationDirectives schema h with
       | inr (_, h') => h ⊆ h'
       | inl _ => True
       end)
  ∧ (∀ schema h, ∃ schema', removeJoinTypes schema h = inr (schema', h))
  ∧ (∀ resultSchema entityUnion anyScalar (h : Store),
       match addEntitiesQueryToSchema resultSchema entityUnion anyScalar h with
       | inr (_, h') => h' = h
       | inl _ => True
       end).
Proof.
  split_and!.
  - intros schema h. eexists _, _.
    split; [apply removeJoinDirectivesUsages_eq|].
    intros l n Hl. rewrite lookup_stripAll, Hl. by case_bool_decide.
  - intros schema h.
    destruct (removeFederationDirectivesFromRootObjects_spec schema h)
      as (tm' & h' & Hrun & Hsub & _).
    by eexists _, _.
  - intros schema h.
    destruct (setFederationSchemaDirective_spec schema h)
      as (l & h' & Hrun & Hsub & _).
    by eexists _, _.
  - intros schema h.
    destruct (addFederationDirectives schema h) as [|[[schema' names] h']]
      eqn:Hrun; [done|].
    by eapply addFederationDirectives_extends.
  - intros schema h. eexists. apply removeJoinTypes_eq.
  - intros resultSchema entityUnion anyScalar h.
    unfold addEntitiesQueryToSchema. by destruct (queryType resultSchema).
Qed.

(** ** The action *)

Section failure.
Context {DocumentNode Supergraph : Type}.
Context (getInput : string → string).
Context (readFileSync : string → Thrown + string).
Context (parse : string → Thrown + DocumentNode).
Context (composeServices : DocumentNode → Thrown + CompositionResult Supergraph).
Context (toGraphQLJSSchema : Supergraph → Thrown + GraphQLSchema * Store).
Context (printSchemaWithDirectives : GraphQLSchema → Store → Thrown + string).
Context (writeFileSync : string → string → Thrown + unit).

Local Abbreviation loadSchema :=
  (loadSchema readFileSync parse composeServices toGraphQLJSSchema).
Local Abbreviation tryBlock :=
  (tryBlock getInput readFileSync parse composeServices toGraphQLJSSchema
     printSchemaWithDirectives writeFileSync).
Local Abbreviation run :=
  (run getInput readFileSync parse composeServices toGraphQLJSSchema
     printSchemaWithDirectives writeFileSync).

(** C8: when the [try] block of [run] throws an [Error], the run
    reports the failure with the message of that error and does nothing
    else.  When the composition fails, [loadSchema] throws an [Error]
    whose message is the messages of all composition errors, in order,
    joined by line feeds; the run reports that message, and whatever
    follows [loadSchema] in the [try] block, [normalizeSchema] first, is
    not run. *)
Theorem failure_reported :
  (∀ message, tryBlock = inl (ErrorObject message) →
     run = [SetFailed message])
  ∧ (∀ text document errors,
       readFileSync (getInput "schema") = inr text →
       parse text = inr document →
       composeServices document = inr (CompositionFailure errors) →
       let message := String.concat newline (error_message <$> errors) in
       loadSchema (getInput "schema") = inl (ErrorObject message)
       ∧ run = [SetFailed message]
       ∧ ∀ (A : Type) (rest : GraphQLSchema * Store → Thrown + A),
           loadSchema (getInput "schema") ≫= rest
           = inl (ErrorObject message)).
Proof.
  split.
  - intros message Hthrown. unfold run. by rewrite Hthrown.
  - intros text document errors Hread Hparse Hcompose message.
    assert (loadSchema (getInput "schema") = inl (ErrorObject message))
      as Hload.
    { unfold loadSchema. rewrite Hread. cbn. rewrite Hparse. cbn.
      by rewrite Hcompose. }
    split; [done|]. split.
    + unfold run, tryBlock. by rewrite Hload.
    + intros A rest. by rewrite Hload.
Qed.
End failure.

(** ** The run of [normalizeSchema], stage by stage *)

(** The nodes that [removeFederationDirectivesFromRootObjects] adds have an
    empty [directives] array. *)
Lemma rootMapper_new_nodes schema tm h tm' h' :
  mapTypes tm schema rootMapper (λ t, negb (isLeafType t)) h = inr (tm', h') →
  ∀ l n, h' !! l = Some n → h !! l = Some n ∨ node_directives n = Some [].
Proof.
  unfold mapTypes.
  apply (mapEntries_extends
           (λ h h' : Store, ∀ l n, h' !! l = Some n →
              h !! l = Some n ∨ node_directives n = Some [])).
  - intros s l n. by left.
  - intros s1 s2 s3 H12 H23 l n Hn.
    destruct (H23 l n Hn) as [H2|]; [by apply H12|by right].
  - intros t s r s'.
    destruct (negb (isLeafType t)); [|unfold_M; by intros [= _ <-] l n; left].
    destruct t as [o| | | | |]; cbn;
      try (unfold_M; intros [= _ <-] l n; by left).
    destruct (isRootName schema (ot_name o)); cbn;
      [|unfold_M; intros [= _ <-] l n; by left].
    unfold_M.
    destruct (alloc_fresh (spreadNode (getNode s (astNode o)) (Some [])) s)
      as (l0 & -> & Hl0).
    intros [= _ <-] l n. destruct (decide (l = l0)) as [->|Hne].
    + rewrite lookup_insert_eq. intros [= <-]. by right.
    + rewrite lookup_insert_ne by done. by left.
Qed.

Lemma removeFederationDirectivesFromRootObjects_run schema h :
  ∃ tm' h',
    removeFederationDirectivesFromRootObjects schema h
    = inr (rewireRoots schema tm' (directives schema), h')
    ∧ h ⊆ h'
    ∧ Forall2 (sanitized schema h') (typeMap schema) tm'
    ∧ ∀ l n, h' !! l = Some n → h !! l = Some n ∨ node_directives n = Some [].
Proof.
  destruct (removeFederationDirectivesFromRootObjects_spec schema h)
    as (tm' & h' & Hrun & Hsub & Hall).
  exists tm', h'. split_and!; try done.
  revert Hrun. unfold removeFederationDirectivesFromRootObjects, mapSchema.
  unfold mbind at 1, M_bind at 1.
  rewrite mapTypes_no_mapper by (intros t _ Hleaf; by destruct t).
  unfold mbind at 1, M_bind at 1. unfold mapEnumValues.
  cbn [ENUM_VALUE rootMapper].
  unfold mret at 1, M_ret at 1.
  unfold mbind at 1, M_bind at 1.
  destruct (mapTypes (typeMap schema) schema rootMapper _ h)
    as [e|[tm'' h'']] eqn:Hpass; [done|].
  unfold mapDirectives. cbn [DIRECTIVE rootMapper]. unfold_M. intros Heq.
  assert (h'' = h') as <- by congruence.
  by eapply rootMapper_new_nodes.
Qed.

Lemma classified_rebase h h1 h2 t t' :
  h ⊆ h1 → nodeInStore h (astNode t) = true →
  classified h1 h2 t t' → classified h h2 t t'.
Proof.
  intros Hsub Hnode. unfold classified.
  destruct t as [o| | | | |]; try done.
  change (astNode (ObjectT o)) with (astNode o) in Hnode.
  rewrite (findJoinDirective_weaken h h1 o Hsub Hnode).
  destruct (findJoinDirective h o) as [jd|]; [|done].
  intros (entries & l & Hentries & -> & Hl & Hl2).
  exists entries, l. split_and!; try done.
  - by eapply lookup_weaken_None.
  - by rewrite (getNode_weaken h h1 _ Hsub Hnode),
      (directivesOf_weaken h h1 o Hsub Hnode) in Hl2.
Qed.

Lemma Forall2_classified_rebase h h1 h2 tm tm' :
  h ⊆ h1 → closedTypes h tm = true →
  Forall2 (classified h1 h2) tm tm' → Forall2 (classified h h2) tm tm'.
Proof.
  intros Hsub Hclosed Hall. unfold closedTypes in Hclosed.
  induction Hall as [|t t' tm tm' Ht _ IH]; [done|].
  cbn in Hclosed. apply andb_true_iff in Hclosed as [Hnode Hclosed].
  constructor; [by eapply classified_rebase|by apply IH].
Qed.

Lemma getQueryType_name schema :
  ot_name <$> getQueryType schema
  = getObjectTypeFromTypeMap (typeMap schema) (queryType schema).
Proof.
  unfold getQueryType, getObjectTypeFromTypeMap, getType.
  destruct (queryType schema) as [name|]; [|done]. cbn.
  destruct (lookupType (typeMap schema) name) as [[o| | | | |]|] eqn:Hname;
    try done.
  cbn. f_equal. unfold lookupType in Hname.
  apply find_some in Hname as [_ Ho]. by apply bool_decide_eq_true in Ho.
Qed.

(** The run of [normalizeSchema] on a document whose AST nodes are in the
    store and whose [join__type] arguments are defined, stage by stage. *)
Lemma normalizeSchema_run schema h :
  closed h schema = true →
  argumentsDefined h (typeMap schema) = true →
  ∃ l tm2 h2 tm4 h4,
    let h1 :=
      <[l := spreadNode (getNode h (astNode schema)) (Some [linkDirective])]> h in
    let s1 :=
      {| schema_astNode := Some l;
         queryType := queryType schema;
         mutationType := mutationType schema;
         subscriptionType := subscriptionType schema;
         directives := directives schema;
         typeMap := typeMap schema |} in
    let s3 :=
      rewireRoots (rewireRoots s1 tm2 (directives schema)) tm2
        (directives schema) in
    let s5 :=
      rewireRoots (rewireRoots s3 tm4 (directives schema))
        (withoutJoinTypes tm4) (withoutJoinDefinitions (directives schema)) in
    let union := entityUnion s5 (entityNamesOf h (typeMap schema)) in
    h !! l = None
    ∧ h1 ⊆ h2
    ∧ Forall2 (classified h h2) (typeMap schema) tm2
    ∧ stripAll (visitedNodes tm2) h2 ⊆ h4
    ∧ Forall2 (sanitized s3 h4) tm2 tm4
    ∧ (∀ l n, h4 !! l = Some n →
         stripAll (visitedNodes tm2) h2 !! l = Some n
         ∨ node_directives n = Some [])
    ∧ ut_types union = Some <$> entityNamesOf h (typeMap schema)
    ∧ queryType s5 = ot_name <$> getQueryType schema
    ∧ normalizeSchema schema h =
        match queryType s5 with
        | None => inl (TypeError_undefined "getFields")
        | Some rootName =>
            inr (addFederationDirectivesToSchema
                   (setTypeMap s5
                      (assignField rootName (entitiesField union anyScalar)
                         (assignFederationTypes (withoutJoinTypes tm4) union)))
                   fieldSetScalar, h4)
        end.
Proof.
  intros Hclosed Hdefined.
  unfold normalizeSchema. unfold mbind at 1, M_bind at 1.
  unfold setFederationSchemaDirective. unfold mbind at 1, M_bind at 1.
  unfold get at 1. unfold mbind at 1, M_bind at 1.
  destruct (alloc_fresh
              (spreadNode (getNode h (astNode schema)) (Some [linkDirective]))
              h) as (l & -> & Hl).
  unfold mret at 1, M_ret at 1.
  set (h1 := <[l := _]> h).
  set (s1 := {| schema_astNode := Some l |}).
  assert (h ⊆ h1) as Hsub1 by by apply insert_subseteq.
  assert (closed h1 s1 = true) as Hclosed1.
  { unfold closed in *. cbn. by eapply closedTypes_weaken. }
  pose proof (addFederationDirectives_spec s1 h1 Hclosed1) as Hspec.
  destruct (entityNamesOf_weaken h h1 (typeMap schema) Hsub1 Hclosed)
    as [Hnames Hdefs].
  cbn [typeMap s1] in Hspec. rewrite Hnames, Hdefs in Hspec.
  unfold mbind at 1, M_bind at 1.
  destruct (addFederationDirectives s1 h1) as [e|[[s2 names] h2]];
    [congruence|].
  destruct Hspec as (_ & -> & Hsub2 & tm2 & -> & Hall2).
  unfold mbind at 1, M_bind at 1.
  rewrite removeJoinDirectivesUsages_eq.
  cbn [typeMap directives rewireRoots].
  set (s3 := rewireRoots (rewireRoots s1 tm2 _) tm2 _).
  destruct (removeFederationDirectivesFromRootObjects_run s3
              (stripAll (visitedNodes tm2) h2))
    as (tm4 & h4 & H4 & Hsub4 & Hall4 & Hnew4).
  unfold mbind at 1, M_bind at 1. rewrite H4.
  unfold mbind at 1, M_bind at 1. rewrite removeJoinTypes_eq.
  cbn [typeMap directives rewireRoots s3].
  set (s5 := rewireRoots (rewireRoots s3 tm4 _) (withoutJoinTypes tm4) _).
  set (names := entityNamesOf h (typeMap schema)).
  assert (ut_types (entityUnion s5 names) = Some <$> names) as Hmembers.
  { unfold entityUnion. cbn [ut_types].
    apply list_eq. intros j. rewrite !list_lookup_fmap.
    destruct (names !! j) as [name|] eqn:Hj; [|done]. cbn. f_equal.
    apply lookupType_hasObject. subst s5. cbn [typeMap rewireRoots].
    apply hasObject_withoutJoinTypes.
    apply (hasObject_sanitized _ _ _ _ _ Hall4).
    apply (hasObject_classified _ _ _ _ _ Hall2).
    apply (entityNamesOf_hasObject h).
    by eapply list_elem_of_lookup_2. }
  assert (queryType s5 = ot_name <$> getQueryType schema) as Hquery.
  { rewrite getQueryType_name.
    destruct (getObjectTypeFromTypeMap (typeMap schema) (queryType schema))
      as [name|] eqn:Hname.
    - pose proof (getObjectTypeFromTypeMap_Some _ _ _ Hname) as Hroot.
      apply getObjectTypeFromTypeMap_under in Hname.
      pose proof (objectUnder_Forall2 _ _ _ name
                    (classified_shape h1 h2) Hall2 Hname) as Hname2.
      pose proof (objectUnder_Forall2 _ _ _ name
                    (sanitized_shape s3 h4) Hall4 Hname2) as Hname4.
      pose proof (objectUnder_withoutJoinTypes _ _ Hname4) as Hname5.
      subst s5 s3 s1. cbn [queryType rewireRoots]. rewrite Hroot.
      rewrite !(getObjectTypeFromTypeMap_objectUnder tm2) by done.
      rewrite (getObjectTypeFromTypeMap_objectUnder tm4) by done.
      by rewrite getObjectTypeFromTypeMap_objectUnder.
    - destruct (queryType s5) as [name|] eqn:Hname5; [|done].
      subst s5. cbn [queryType rewireRoots] in Hname5.
      do 2 apply getObjectTypeFromTypeMap_Some in Hname5.
      subst s3. cbn [queryType rewireRoots] in Hname5.
      pose proof (getObjectTypeFromTypeMap_under _ _ _ Hname5) as Hname2.
      do 2 apply getObjectTypeFromTypeMap_Some in Hname5.
      subst s1. cbn [queryType] in Hname5.
      apply Forall2_flip in Hall2.
      assert (objectUnder (typeMap schema) name) as Hunder.
      { eapply objectUnder_Forall2; [|exact Hall2|exact Hname2].
        intros t t' Hcl. destruct (classified_shape _ _ _ _ Hcl). done. }
      rewrite Hname5 in Hname.
      by rewrite getObjectTypeFromTypeMap_objectUnder in Hname. }
  exists l, tm2, h2, tm4, h4. cbn zeta.
  split_and!; try done.
  { eapply Forall2_classified_rebase; [exact Hsub1|exact Hclosed|exact Hall2]. }
  unfold addEntitiesQueryToSchema.
  subst names s5 s3 s1. cbn [queryType setTypeMap typeMap rewireRoots directives].
  by destruct (getObjectTypeFromTypeMap (withoutJoinTypes tm4) _).
Qed.

(** ** What the assignments keep *)

Section assigned.
Context {A : Type} (key : A → string).

Lemma elem_of_assign k x l y :
  y ∈ assign key k x l → y = x ∨ y ∈ l.
Proof.
  induction l as [|z l IH]; cbn.
  - intros ->%list_elem_of_singleton. by left.
  - case_bool_decide.
    + intros [->|Hy]%elem_of_cons; [by left|right; by right].
    + intros [->|Hy]%elem_of_cons; [right; by left|].
      destruct (IH Hy) as [->|Hl]; [by left|right; by right].
Qed.

Lemma elem_of_assign_ne k x l y :
  y ∈ l → key y ≠ k → y ∈ assign key k x l.
Proof.
  intros Hy Hne. induction l as [|z l IH]; [by apply elem_of_nil in Hy|].
  cbn. case_bool_decide as Hz.
  - apply elem_of_cons in Hy as [->|Hy]; [done|by right].
  - apply elem_of_cons in Hy as [->|Hy]; [by left|right; by apply IH].
Qed.

Lemma fmap_assign k x l :
  key x = k → k ∉ key <$> l →
  key <$> assign key k x l = ((key <$> l) ++ [k])%list.
Proof.
  intros Hx. induction l as [|z l IH]; cbn; [by rewrite Hx|].
  intros [Hz Hl]%not_elem_of_cons.
  rewrite bool_decide_eq_false_2 by done. cbn. by rewrite IH.
Qed.

Lemma assign_absent k x l :
  k ∉ key <$> l → assign key k x l = (l ++ [x])%list.
Proof.
  induction l as [|z l IH]; cbn; [done|].
  intros [Hz Hl]%not_elem_of_cons.
  rewrite bool_decide_eq_false_2 by done. by rewrite IH.
Qed.
End assigned.

Lemma elem_of_assignFederationTypes tm union t :
  t ∈ assignFederationTypes tm union →
  t ∈ tm ∨ t = ScalarT anyScalar ∨ t = ScalarT fieldSetScalar
  ∨ t = UnionT union.
Proof.
  unfold assignFederationTypes.
  intros [->|[->|[->|Ht]%elem_of_assign]%elem_of_assign]%elem_of_assign; auto.
Qed.

Lemma elem_of_assignFederationTypes_ne tm union t :
  t ∈ tm → type_name t ≠ "_Any" → type_name t ≠ "FieldSet" →
  type_name t ≠ "_Entity" → t ∈ assignFederationTypes tm union.
Proof.
  intros Ht Hany HfieldSet Hentity. unfold assignFederationTypes.
  by do 3 (apply elem_of_assign_ne; [|done]).
Qed.

Lemma fmap_assignField rootName field tm :
  type_name <$> assignField rootName field tm = type_name <$> tm.
Proof.
  induction tm as [|t tm IH]; [done|]. cbn.
  case_bool_decide; [by destruct t|]. cbn. by rewrite IH.
Qed.

Lemma elem_of_assignField rootName field tm t :
  t ∈ assignField rootName field tm →
  t ∈ tm
  ∨ ∃ o, ObjectT o ∈ tm ∧ ot_name o = rootName
         ∧ t = ObjectT {| ot_name := ot_name o;
                          ot_astNode := ot_astNode o;
                          ot_fields :=
                            assign f_name (f_name field) field (ot_fields o) |}.
Proof.
  induction tm as [|t0 tm IH]; [by intros ?%elem_of_nil|]. cbn.
  case_bool_decide as Hname.
  - destruct t0 as [o| | | | |]; try by left.
    intros [->|Ht]%elem_of_cons; [|left; by right].
    right. exists o. split; [by left|done].
  - intros [->|Ht]%elem_of_cons; [left; by left|].
    destruct (IH Ht) as [Hin|(o & Ho & Hrest)]; [left; by right|].
    right. exists o. split; [by right|done].
Qed.

Lemma elem_of_assignField_ne rootName field tm t :
  t ∈ tm → type_name t ≠ rootName → t ∈ assignField rootName field tm.
Proof.
  intros Ht Hne. induction tm as [|t0 tm IH]; [by apply elem_of_nil in Ht|].
  cbn. case_bool_decide as Hname.
  - apply elem_of_cons in Ht as [->|Ht]; [done|].
    destruct t0; by right.
  - apply elem_of_cons in Ht as [->|Ht]; [by left|right; by apply IH].
Qed.

Lemma elem_of_assignField_other rootName field tm t :
  t ∈ tm → isObjectType t = false → t ∈ assignField rootName field tm.
Proof.
  intros Ht Hobj. induction tm as [|t0 tm IH]; [by apply elem_of_nil in Ht|].
  cbn. case_bool_decide as Hname.
  - apply elem_of_cons in Ht as [->|Ht]; [destruct t0; by try left|].
    destruct t0; by right.
  - apply elem_of_cons in Ht as [->|Ht]; [by left|right; by apply IH].
Qed.

(** The relations of the stages keep the names and the kinds. *)
Lemma fmap_withoutJoinTypes (R : relation GraphQLNamedType) tm tm' :
  (∀ t t', R t t' →
     type_name t' = type_name t ∧ isObjectType t' = isObjectType t
     ∧ (isObjectType t = false → t' = t)) →
  Forall2 R tm tm' →
  type_name <$> withoutJoinTypes tm' = type_name <$> withoutJoinTypes tm.
Proof.
  intros HR Hall. unfold withoutJoinTypes.
  induction Hall as [|t t' tm tm' Ht _ IH]; [done|].
  destruct (HR _ _ Ht) as (Hname & Hobj & Hsame). cbn.
  assert (isJoinLeaf t' = isJoinLeaf t) as ->.
  { destruct t as [o| | | | |]; try (by rewrite Hsame).
    by destruct t'. }
  destruct (negb (isJoinLeaf t)); cbn; by rewrite ?Hname, IH.
Qed.

Lemma classified_other h h' t t' :
  classified h h' t t' → isObjectType t = false → t' = t.
Proof. unfold classified. by destruct t. Qed.

Lemma sanitized_other schema h' t t' :
  sanitized schema h' t t' → isObjectType t = false → t' = t.
Proof. unfold sanitized. by destruct t. Qed.

Lemma assignFederationTypes_absent tm union :
  ut_name union = "_Entity" →
  "_Any" ∉ type_name <$> tm →
  "FieldSet" ∉ type_name <$> tm →
  "_Entity" ∉ type_name <$> tm →
  assignFederationTypes tm union
  = (tm ++ [ScalarT anyScalar; ScalarT fieldSetScalar; UnionT union])%list.
Proof.
  intros Hname Hany HfieldSet Hentity. unfold assignFederationTypes.
  rewrite (assign_absent type_name "_Any") by done.
  rewrite (assign_absent type_name "FieldSet").
  2:{ rewrite fmap_app, elem_of_app. cbn. rewrite list_elem_of_singleton.
      by intros [?|?]. }
  rewrite (assign_absent type_name "_Entity").
  2:{ rewrite !fmap_app, !elem_of_app. cbn. rewrite !list_elem_of_singleton.
      by intros [[?|?]|?]. }
  by rewrite <- !(assoc_L (++)).
Qed.

(** ** The AST nodes after the stages *)

(** A node that [removeJoinDirectivesUsages] visited, read after
    [removeFederationDirectivesFromRootObjects]. *)
Lemma visited_usages ps (h2 h4 : Store) (p : option loc) ds :
  (∀ l n, h4 !! l = Some n →
     stripAll ps h2 !! l = Some n ∨ node_directives n = Some []) →
  p ∈ ps →
  getNode h4 p ≫= node_directives = Some ds →
  Forall (λ d, startsWith (dir_name d) "join__" = false) ds.
Proof.
  intros Hnew Hp. destruct p as [l|]; [|done]. cbn.
  destruct (h4 !! l) as [n|] eqn:Hn; [|done]. cbn. intros Hds.
  destruct (Hnew l n Hn) as [Hn3|Hempty]; [|by assert (ds = []) as -> by congruence].
  rewrite lookup_stripAll, bool_decide_eq_true_2 in Hn3 by done.
  destruct (h2 !! l) as [n2|]; [|done]. injection Hn3 as <-.
  cbn in Hds. destruct (node_directives n2) as [ds2|]; [|done].
  injection Hds as <-. apply withoutJoin_Forall.
Qed.

Lemma visited_node ps (h2 h4 : Store) (l : loc) (n : AstNode) :
  stripAll ps h2 ⊆ h4 → Some l ∈ ps → h2 !! l = Some n →
  h4 !! l = Some (stripNode n).
Proof.
  intros Hsub Hl Hn. eapply lookup_weaken; [|exact Hsub].
  by rewrite lookup_stripAll, bool_decide_eq_true_2, Hn.
Qed.

Lemma withoutJoin_app ds ds' :
  withoutJoin (ds ++ ds') = (withoutJoin ds ++ withoutJoin ds')%list.
Proof. unfold withoutJoin. apply List.filter_app. Qed.

Lemma isRootName_same (schema schema' : GraphQLSchema) name :
  queryType schema' = queryType schema →
  mutationType schema' = mutationType schema →
  subscriptionType schema' = subscriptionType schema →
  isRootName schema' name = isRootName schema name.
Proof. unfold isRootName. by intros -> -> ->. Qed.

(** ** The type under a name, stage by stage *)

Lemma lookupType_Forall2 (R : relation GraphQLNamedType) tm tm' name t :
  (∀ t t', R t t' → type_name t' = type_name t) →
  Forall2 R tm tm' → lookupType tm name = Some t →
  ∃ t', lookupType tm' name = Some t' ∧ R t t'.
Proof.
  intros HR Hall. unfold lookupType.
  induction Hall as [|t0 t0' tm tm' Ht _ IH]; [done|].
  cbn. rewrite (HR _ _ Ht). case_bool_decide; [|done].
  intros [= <-]. by exists t0'.
Qed.

Lemma lookupType_withoutJoinTypes tm name t :
  lookupType tm name = Some t → isJoinLeaf t = false →
  lookupType (withoutJoinTypes tm) name = Some t.
Proof.
  unfold lookupType, withoutJoinTypes. intros Hfind Hleaf.
  induction tm as [|t0 tm IH]; [done|]. cbn in Hfind |- *.
  case_bool_decide as Hname.
  - injection Hfind as ->. rewrite Hleaf. cbn.
    by rewrite bool_decide_eq_true_2.
  - destruct (negb (isJoinLeaf t0)); [|by apply IH].
    cbn. rewrite bool_decide_eq_false_2 by done. by apply IH.
Qed.

Lemma lookupType_assignField rootName field tm o :
  lookupType tm rootName = Some (ObjectT o) →
  lookupType (assignField rootName field tm) rootName
  = Some (ObjectT {| ot_name := ot_name o;
                     ot_astNode := ot_astNode o;
                     ot_fields :=
                       assign f_name (f_name field) field (ot_fields o) |}).
Proof.
  unfold lookupType. induction tm as [|t tm IH]; [done|]. cbn.
  case_bool_decide as Hname.
  - intros [= ->]. cbn. cbn in Hname. by rewrite bool_decide_eq_true_2.
  - intros Hfind. cbn. rewrite bool_decide_eq_false_2 by done. by apply IH.
Qed.

Lemma filter_assign {A} (key : A → string) k x l :
  key x = k →
  List.filter (λ y, negb (bool_decide (key y = k))) (assign key k x l)
  = List.filter (λ y, negb (bool_decide (key y = k))) l.
Proof.
  intros Hx. induction l as [|z l IH]; cbn.
  - by rewrite bool_decide_eq_true_2.
  - case_bool_decide as Hz; cbn.
    + by rewrite bool_decide_eq_true_2.
    + rewrite bool_decide_eq_false_2 by done. cbn. by rewrite IH.
Qed.

(** ** The normalized schema *)

(** X1: a document whose AST nodes are in the store, whose [join__type]
    arguments are all defined and which has a query type is normalized,
    and the schema that [normalizeSchema] returns has an AST node that did
    not exist before the run, whose directive usages are exactly the
    [@link] usage of [setFederationSchemaDirective]: the usages that the
    schema carried before are not kept.  The other properties of the node
    are those of the node the schema had, and none if it had no node. *)
Theorem schema_node_linked (schema : GraphQLSchema) (h : Store)
    (query : GraphQLObjectType) :
  closed h schema = true →
  argumentsDefined h (typeMap schema) = true →
  getQueryType schema = Some query →
  ∃ result h' l n,
    normalizeSchema schema h = inr (result, h')
    ∧ astNode result = Some l
    ∧ h !! l = None
    ∧ h' !! l = Some n
    ∧ node_directives n = Some [linkDirective]
    ∧ node_kind n = getNode h (astNode schema) ≫= node_kind
    ∧ node_description n = getNode h (astNode schema) ≫= node_description.
Proof.
  intros Hclosed Hdefined Hquery.
  destruct (normalizeSchema_run schema h Hclosed Hdefined)
    as (l & tm2 & h2 & tm4 & h4 & Hl & Hsub2 & _ & Hsub4 & _ & _ & _ & Hroot
        & Hrun).
  rewrite Hquery in Hroot. cbn [fmap option_fmap option_map] in Hroot.
  rewrite Hroot in Hrun.
  set (n := spreadNode (getNode h (astNode schema)) (Some [linkDirective])).
  assert (h2 !! l = Some n) as Hn2.
  { eapply lookup_weaken; [|exact Hsub2]. by rewrite lookup_insert_eq. }
  assert (∃ n', stripAll (visitedNodes tm2) h2 !! l = Some n'
                ∧ node_directives n' = Some [linkDirective]
                ∧ node_kind n' = node_kind n
                ∧ node_description n' = node_description n)
    as (n' & Hn3 & Hds & Hkind & Hdescription).
  { rewrite lookup_stripAll, Hn2. case_bool_decide; eexists; split; done. }
  eexists _, h4, l, n'. split; [exact Hrun|].
  split_and!; try done.
  by eapply lookup_weaken.
Qed.

(** X2: the directive definitions of the schema that [normalizeSchema]
    returns are, by name and in their order, the definitions of the input
    whose name does not start with [join__], followed by the definition of
    [key] and the definition of [shareable] that
    [addFederationDirectivesToSchema] pushes.  A definition of the input
    that has one of these two names stays as well.  Of the definitions
    that are kept the statement gives the names: the library drops the
    arguments of a kept definition whose type was deleted. *)
Theorem directive_definitions_normalized (schema : GraphQLSchema) (h : Store)
    (query : GraphQLObjectType) :
  closed h schema = true →
  argumentsDefined h (typeMap schema) = true →
  getQueryType schema = Some query →
  ∃ result h' kept,
    normalizeSchema schema h = inr (result, h')
    ∧ directives result =
        (kept ++ [keyDirective fieldSetScalar; shareableDirective])%list
    ∧ gd_name <$> kept =
        List.filter (λ name, negb (startsWith name "join__"))
          (gd_name <$> directives schema).
Proof.
  intros Hclosed Hdefined Hquery.
  destruct (normalizeSchema_run schema h Hclosed Hdefined)
    as (l & tm2 & h2 & tm4 & h4 & _ & _ & _ & _ & _ & _ & _ & Hroot & Hrun).
  rewrite Hquery in Hroot. cbn [fmap option_fmap option_map] in Hroot.
  rewrite Hroot in Hrun.
  eexists _, h4, _. split; [exact Hrun|]. split; [done|].
  apply (fmap_filter_name gd_name (λ name, negb (startsWith name "join__"))).
Qed.

(** X3: for a document that has no type named [_Any], [FieldSet] or
    [_Entity], the type map of the schema that [normalizeSchema] returns
    lists the types of the input without the enum and scalar types whose
    name starts with [join__], in their order and under their names,
    followed by [_Any], [FieldSet] and [_Entity]. *)
Theorem type_names_normalized (schema : GraphQLSchema) (h : Store)
    (query : GraphQLObjectType) :
  closed h schema = true →
  argumentsDefined h (typeMap schema) = true →
  getQueryType schema = Some query →
  "_Any" ∉ type_name <$> typeMap schema →
  "FieldSet" ∉ type_name <$> typeMap schema →
  "_Entity" ∉ type_name <$> typeMap schema →
  ∃ result h',
    normalizeSchema schema h = inr (result, h')
    ∧ type_name <$> typeMap result =
        ((type_name <$> withoutJoinTypes (typeMap schema))
         ++ ["_Any"; "FieldSet"; "_Entity"])%list.
Proof.
  intros Hclosed Hdefined Hquery Hany HfieldSet Hentity.
  destruct (normalizeSchema_run schema h Hclosed Hdefined)
    as (l & tm2 & h2 & tm4 & h4 & _ & _ & Hall2 & _ & Hall4 & _ & _ & Hroot
        & Hrun).
  rewrite Hquery in Hroot. cbn [fmap option_fmap option_map] in Hroot.
  rewrite Hroot in Hrun.
  eexists _, h4. split; [exact Hrun|].
  cbn [typeMap addFederationDirectivesToSchema setTypeMap].
  rewrite fmap_assignField.
  assert (type_name <$> withoutJoinTypes tm4
          = type_name <$> withoutJoinTypes (typeMap schema)) as Hnames.
  { etrans.
    - eapply fmap_withoutJoinTypes; [|exact Hall4].
      intros t t' Hs. destruct (sanitized_shape _ _ _ _ Hs).
      split_and!; try done. by eapply sanitized_other.
    - eapply fmap_withoutJoinTypes; [|exact Hall2].
      intros t t' Hc. destruct (classified_shape _ _ _ _ Hc).
      split_and!; try done. by eapply classified_other. }
  assert (∀ name, name ∉ type_name <$> typeMap schema →
            name ∉ type_name <$> withoutJoinTypes tm4) as Hnot.
  { intros name Hname. rewrite Hnames. contradict Hname.
    apply list_elem_of_fmap in Hname as (t & -> & Ht).
    apply elem_of_filter_list in Ht as [Ht _].
    by apply list_elem_of_fmap_2. }
  rewrite assignFederationTypes_absent by (done || by apply Hnot).
  rewrite fmap_app. by rewrite Hnames.
Qed.

(** X4: in the schema that [normalizeSchema] returns every object type
    that is the query, mutation or subscription root carries no directive
    usage at all: neither the usages it had, nor the [key] or [shareable]
    usage that [addFederationDirectives] gave it two stages earlier. *)
Theorem root_types_bare (schema : GraphQLSchema) (h : Store)
    (query : GraphQLObjectType) :
  closed h schema = true →
  argumentsDefined h (typeMap schema) = true →
  getQueryType schema = Some query →
  ∃ result h',
    normalizeSchema schema h = inr (result, h')
    ∧ ∀ o' : GraphQLObjectType,
        ObjectT o' ∈ typeMap result →
        isRootName result (ot_name o') = true →
        directivesOf h' o' = Some [].
Proof.
  intros Hclosed Hdefined Hquery.
  destruct (normalizeSchema_run schema h Hclosed Hdefined)
    as (l & tm2 & h2 & tm4 & h4 & _ & _ & _ & _ & Hall4 & _ & _ & Hroot
        & Hrun).
  rewrite Hquery in Hroot. cbn [fmap option_fmap option_map] in Hroot.
  rewrite Hroot in Hrun.
  eexists _, h4. split; [exact Hrun|].
  cbn [typeMap addFederationDirectivesToSchema setTypeMap].
  intros o' Ho' Hname.
  rewrite (isRootName_same
             (rewireRoots _ (withoutJoinTypes tm4)
                (withoutJoinDefinitions (directives schema)))) in Hname
    by done.
  do 2 apply isRootName_rewireRoots in Hname.
  assert (∃ o0, ObjectT o0 ∈ tm4 ∧ ot_name o0 = ot_name o'
                ∧ ot_astNode o0 = ot_astNode o') as (o0 & Ho0 & Hname0 & Hnode).
  { apply elem_of_assignField in Ho' as [Ho'|(o0 & Ho0 & _ & [= ->])].
    - apply elem_of_assignFederationTypes in Ho' as [Ho'|[?|[?|?]]]; try done.
      apply elem_of_filter_list in Ho' as [Ho' _]. by exists o'.
    - apply elem_of_assignFederationTypes in Ho0 as [Ho0|[?|[?|?]]]; try done.
      apply elem_of_filter_list in Ho0 as [Ho0 _]. by exists o0. }
  apply list_elem_of_lookup in Ho0 as [i Hi].
  destruct (Forall2_lookup_r _ _ _ _ _ Hall4 Hi) as (t2 & _ & Hs).
  unfold sanitized in Hs.
  destruct (isRootObject _ t2) eqn:Ht2.
  - destruct Hs as (o'' & n & [= <-] & _ & _ & Hn & Hds).
    unfold directivesOf.
    change (astNode o') with (ot_astNode o'). rewrite <- Hnode.
    change (ot_astNode o0) with (astNode o0). by rewrite Hn.
  - subst t2. cbn in Ht2. congruence.
Qed.

(** X5: an object type of the input that is not a root and that has a
    [join__type] usage is, in the schema that [normalizeSchema] returns,
    an object type of the same name.  Its directive usages are the usages
    it had whose name does not start with [join__], in their order,
    followed by one federation usage: a usage named [key] when the first
    [join__type] usage has an argument named [key], and the [shareable]
    usage without arguments when it has none. *)
Theorem marked_object_usages (schema : GraphQLSchema) (h : Store)
    (query o : GraphQLObjectType) (ds : list DirectiveNode)
    (joinTypeDirective : DirectiveNode) :
  closed h schema = true →
  argumentsDefined h (typeMap schema) = true →
  getQueryType schema = Some query →
  ObjectT o ∈ typeMap schema →
  directivesOf h o = Some ds →
  List.find (λ d, bool_decide (dir_name d = "join__type")) ds
  = Some joinTypeDirective →
  isRootName schema (ot_name o) = false →
  ot_name o ≠ "_Any" → ot_name o ≠ "FieldSet" → ot_name o ≠ "_Entity" →
  ∃ result h' o' federationDirective,
    normalizeSchema schema h = inr (result, h')
    ∧ ObjectT o' ∈ typeMap result
    ∧ ot_name o' = ot_name o
    ∧ directivesOf h' o' = Some (withoutJoin ds ++ [federationDirective])%list
    ∧ (hasArgument "key" joinTypeDirective
       ∧ dir_name federationDirective = "key"
       ∨ ¬ hasArgument "key" joinTypeDirective
         ∧ federationDirective
           = {| dir_name := "shareable"; dir_arguments := None |}).
Proof.
  intros Hclosed Hdefined Hquery Ho Hds Hfind Hnoroot Hany HfieldSet Hentity.
  destruct (normalizeSchema_run schema h Hclosed Hdefined)
    as (l & tm2 & h2 & tm4 & h4 & _ & _ & Hall2 & Hsub4 & Hall4 & _ & _
        & Hroot & Hrun).
  rewrite Hquery in Hroot. cbn [fmap option_fmap option_map] in Hroot.
  rewrite Hroot in Hrun.
  apply list_elem_of_lookup in Ho as [i Hi].
  destruct (Forall2_lookup_l _ _ _ _ _ Hall2 Hi) as (t2 & Hi2 & Hc).
  unfold classified in Hc.
  rewrite (findJoinDirective_first h o ds joinTypeDirective Hds Hfind) in Hc.
  destruct Hc as (entries & l2 & Hentries & -> & _ & Hl2).
  rewrite Hds in Hl2. cbn [default] in Hl2.
  set (o' := {| ot_name := ot_name o; ot_astNode := Some l2 |}) in *.
  set (fd := generateFederationDirective (newMap entries)) in *.
  destruct (Forall2_lookup_l _ _ _ _ _ Hall4 Hi2) as (t4 & Hi4 & Hs).
  unfold sanitized in Hs.
  assert (isRootObject
            (rewireRoots
               (rewireRoots
                  {| schema_astNode := Some l;
                     queryType := queryType schema;
                     mutationType := mutationType schema;
                     subscriptionType := subscriptionType schema;
                     directives := directives schema;
                     typeMap := typeMap schema |} tm2 (directives schema))
               tm2 (directives schema)) (ObjectT o') = false) as Hnoroot'.
  { cbn. apply not_true_is_false. intros Hname.
    do 2 apply isRootName_rewireRoots in Hname.
    rewrite (isRootName_same schema) in Hname by done. congruence. }
  rewrite Hnoroot' in Hs. subst t4.
  assert (withoutJoin [fd] = [fd]) as Hfd.
  { unfold fd, generateFederationDirective. by case_bool_decide. }
  eexists _, h4, o', fd.
  split; [exact Hrun|].
  cbn [typeMap addFederationDirectivesToSchema setTypeMap].
  split_and!; try done.
  - apply elem_of_assignField_ne.
    + apply elem_of_assignFederationTypes_ne; try done.
      apply elem_of_filter_list. split; [|done].
      by eapply list_elem_of_lookup_2.
    + cbn. intros Hname. apply getQueryType_under in Hquery as [Hquery _].
      unfold isRootName in Hnoroot. rewrite Hquery, Hname in Hnoroot.
      by rewrite bool_decide_eq_true_2 in Hnoroot.
  - unfold directivesOf. cbn.
    erewrite visited_node; [|exact Hsub4| |exact Hl2].
    + cbn. by rewrite withoutJoin_app, Hfd.
    + destruct (visitedNodes_type tm2 (ObjectT o')) as [Hin|?]; [|done..].
      by eapply list_elem_of_lookup_2.
  - destruct (newMap_hasArgument joinTypeDirective entries "key" Hentries)
      as [Hkey1 Hkey2].
    unfold fd, generateFederationDirective.
    case_bool_decide as Hkey; [left|right]; split; try done.
    + by apply Hkey1.
    + intros Harg. by apply Hkey, Hkey2.
Qed.

(** X6: for a type of the input that is no enum or scalar type with a
    name that starts with [join__] and that, when it is an object type, is
    not a root and has no [join__type] usage, the schema that
    [normalizeSchema] returns has a type of the same name whose directive
    usages are the usages the type had whose name does not start with
    [join__]: nothing is added.  An interface type is such a type whatever
    usages it has, a [join__type] usage with a [key] argument included.
    The statement is by name and usages; it does not compare the fields
    and does not say that the AST node is the same object. *)
Theorem unmarked_types_pass (schema : GraphQLSchema) (h : Store)
    (query : GraphQLObjectType) (t : GraphQLNamedType) :
  closed h schema = true →
  argumentsDefined h (typeMap schema) = true →
  getQueryType schema = Some query →
  t ∈ typeMap schema →
  (∀ o, t = ObjectT o →
     findJoinDirective h o = None ∧ isRootName schema (ot_name o) = false) →
  isJoinLeaf t = false →
  type_name t ≠ "_Any" → type_name t ≠ "FieldSet" → type_name t ≠ "_Entity" →
  ∃ result h' (t' : GraphQLNamedType),
    normalizeSchema schema h = inr (result, h')
    ∧ t' ∈ typeMap result
    ∧ type_name t' = type_name t
    ∧ directivesOf h' t' = withoutJoin <$> directivesOf h t.
Proof.
  intros Hclosed Hdefined Hquery Ht Hobject Hleaf Hany HfieldSet Hentity.
  destruct (normalizeSchema_run schema h Hclosed Hdefined)
    as (l & tm2 & h2 & tm4 & h4 & Hl & Hsub2 & Hall2 & Hsub4 & Hall4 & _ & _
        & Hroot & Hrun).
  rewrite Hquery in Hroot. cbn [fmap option_fmap option_map] in Hroot.
  rewrite Hroot in Hrun.
  pose proof Ht as [i Hi]%list_elem_of_lookup.
  destruct (Forall2_lookup_l _ _ _ _ _ Hall2 Hi) as (t2 & Hi2 & Hc).
  assert (t2 = t) as ->.
  { unfold classified in Hc. destruct t as [o| | | | |]; try done.
    destruct (Hobject o eq_refl) as [Hnone _]. by rewrite Hnone in Hc. }
  destruct (Forall2_lookup_l _ _ _ _ _ Hall4 Hi2) as (t4 & Hi4 & Hs).
  assert (t4 = t) as ->.
  { unfold sanitized in Hs.
    destruct (isRootObject _ t) eqn:Hrootness; [|done].
    destruct t as [o| | | | |]; try done. cbn in Hrootness.
    destruct (Hobject o eq_refl) as [_ Hnoroot].
    do 2 apply isRootName_rewireRoots in Hrootness.
    rewrite (isRootName_same schema) in Hrootness by done. congruence. }
  eexists _, h4, t. split; [exact Hrun|].
  cbn [typeMap addFederationDirectivesToSchema setTypeMap].
  split; [|split; [done|]].
  - assert (t ∈ assignFederationTypes (withoutJoinTypes tm4)
                  (entityUnion
                     (rewireRoots
                        (rewireRoots
                           (rewireRoots
                              (rewireRoots
                                 {| schema_astNode := Some l;
                                    queryType := queryType schema;
                                    mutationType := mutationType schema;
                                    subscriptionType :=
                                      subscriptionType schema;
                                    directives := directives schema;
                                    typeMap := typeMap schema |}
                                 tm2 (directives schema))
                              tm2 (directives schema))
                           tm4 (directives schema))
                        (withoutJoinTypes tm4)
                        (withoutJoinDefinitions (directives schema)))
                     (entityNamesOf h (typeMap schema)))) as Hin.
    { apply elem_of_assignFederationTypes_ne; try done.
      apply elem_of_filter_list. split; [by eapply list_elem_of_lookup_2|].
      by rewrite Hleaf. }
    destruct (isObjectType t) eqn:Hobj;
      [|by apply elem_of_assignField_other].
    destruct t as [o| | | | |]; try done.
    apply elem_of_assignField_ne; [done|].
    cbn. intros Hname. destruct (Hobject o eq_refl) as [_ Hnoroot].
    apply getQueryType_under in Hquery as [Hquery _].
    unfold isRootName in Hnoroot. rewrite Hquery, Hname in Hnoroot.
    by rewrite bool_decide_eq_true_2 in Hnoroot.
  - unfold closed, closedTypes in Hclosed. rewrite forallb_forall in Hclosed.
    apply list_elem_of_In, Hclosed in Ht. unfold directivesOf.
    destruct (astNode t) as [lt|] eqn:Hnode; [|done]. cbn in Ht |- *.
    apply bool_decide_eq_true in Ht as [n Hn]. rewrite Hn.
    erewrite visited_node; [done|exact Hsub4| |].
    + destruct (visitedNodes_type tm2 t) as [Hin|?]; [|congruence..].
      by eapply list_elem_of_lookup_2.
    + eapply lookup_weaken; [|exact Hsub2].
      eapply lookup_weaken; [exact Hn|]. by apply insert_subseteq.
Qed.

(** X7: in the schema that [normalizeSchema] returns no type and no enum
    value carries a directive usage whose name starts with [join__].  The
    usages on fields and arguments are not in the statement: no stage
    visits them. *)
Theorem join_usages_gone (schema : GraphQLSchema) (h : Store)
    (query : GraphQLObjectType) :
  closed h schema = true →
  argumentsDefined h (typeMap schema) = true →
  getQueryType schema = Some query →
  ∃ result h',
    normalizeSchema schema h = inr (result, h')
    ∧ (∀ (t : GraphQLNamedType) ds, t ∈ typeMap result →
         directivesOf h' t = Some ds →
         Forall (λ d, startsWith (dir_name d) "join__" = false) ds)
    ∧ (∀ e (v : GraphQLEnumValueConfig) ds,
         EnumT e ∈ typeMap result → v ∈ et_values e →
         directivesOf h' v = Some ds →
         Forall (λ d, startsWith (dir_name d) "join__" = false) ds).
Proof.
  intros Hclosed Hdefined Hquery.
  destruct (normalizeSchema_run schema h Hclosed Hdefined)
    as (l & tm2 & h2 & tm4 & h4 & _ & _ & _ & _ & Hall4 & Hnew4 & _ & Hroot
        & Hrun).
  rewrite Hquery in Hroot. cbn [fmap option_fmap option_map] in Hroot.
  rewrite Hroot in Hrun.
  eexists _, h4. split; [exact Hrun|].
  cbn [typeMap addFederationDirectivesToSchema setTypeMap].
  split.
  - intros t ds Ht Hds.
    assert (∃ t4 : GraphQLNamedType, t4 ∈ tm4 ∧ astNode t4 = astNode t)
      as (t4 & Ht4 & Hnode).
    { apply elem_of_assignField in Ht as [Ht|(o0 & Ho0 & _ & Heq)].
      - apply elem_of_assignFederationTypes in Ht as [Ht|[Heq|[Heq|Heq]]];
          try (by subst t).
        apply elem_of_filter_list in Ht as [Ht _]. by exists t.
      - subst t. apply elem_of_assignFederationTypes in Ho0 as [Ho0|[?|[?|?]]];
          try done.
        apply elem_of_filter_list in Ho0 as [Ho0 _]. by exists (ObjectT o0). }
    unfold directivesOf in Hds. rewrite <- Hnode in Hds.
    apply list_elem_of_lookup in Ht4 as [i Hi].
    destruct (Forall2_lookup_r _ _ _ _ _ Hall4 Hi) as (t2 & Hi2 & Hs).
    unfold sanitized in Hs. destruct (isRootObject _ t2).
    + destruct Hs as (o' & n & -> & _ & _ & Hn & Hempty).
      change (astNode (ObjectT o')) with (astNode o') in Hds.
      rewrite Hn in Hds. cbn in Hds.
      by assert (ds = []) as -> by congruence.
    + subst t4. eapply visited_usages; [exact Hnew4| |exact Hds].
      destruct (visitedNodes_type tm2 t2) as [Hin|Hnone];
        [by eapply list_elem_of_lookup_2|done|by rewrite Hnone in Hds].
  - intros e v ds He Hv Hds.
    assert (EnumT e ∈ tm4) as [i Hi]%list_elem_of_lookup.
    { apply elem_of_assignField in He as [He|(o0 & _ & _ & ?)]; [|done].
      apply elem_of_assignFederationTypes in He as [He|[?|[?|?]]]; try done.
      by apply elem_of_filter_list in He as [He _]. }
    destruct (Forall2_lookup_r _ _ _ _ _ Hall4 Hi) as (t2 & Hi2 & Hs).
    unfold sanitized in Hs. destruct (isRootObject _ t2).
    { by destruct Hs as (o' & n & ? & _). }
    subst t2. eapply visited_usages; [exact Hnew4| |exact Hds].
    eapply visitedNodes_value; [|done]. by eapply list_elem_of_lookup_2.
Qed.

(** X8: the members of the union [_Entity] of the schema that
    [normalizeSchema] returns are the recorded entity names, each resolved
    to a type, in the order in which [addFederationDirectives] met the
    object types: the order of the type map of the input. *)
Theorem entity_union_order (schema : GraphQLSchema) (h : Store)
    (query : GraphQLObjectType) :
  closed h schema = true →
  argumentsDefined h (typeMap schema) = true →
  getQueryType schema = Some query →
  ∃ result h' union,
    normalizeSchema schema h = inr (result, h')
    ∧ getType result "_Entity" = Some (UnionT union)
    ∧ ut_types union = Some <$> entityNamesOf h (typeMap schema)
    ∧ entityNamesOf h (typeMap schema) `sublist_of` type_name <$> typeMap schema.
Proof.
  intros Hclosed Hdefined Hquery.
  destruct (normalizeSchema_run schema h Hclosed Hdefined)
    as (l & tm2 & h2 & tm4 & h4 & _ & _ & _ & _ & _ & _ & Hmembers & Hroot
        & Hrun).
  rewrite Hquery in Hroot. cbn [fmap option_fmap option_map] in Hroot.
  rewrite Hroot in Hrun.
  eexists _, h4, _. split; [exact Hrun|].
  split; [|split; [exact Hmembers|]].
  - unfold getType.
    cbn [typeMap addFederationDirectivesToSchema setTypeMap].
    apply lookupType_assignField_other; [done|].
    by apply lookupType_assignFederationTypes.
  - unfold entityNamesOf. generalize (typeMap schema). intros tm.
    induction tm as [|t tm IH]; [done|]. cbn.
    destruct (entityName h t) as [name|] eqn:Hname.
    + assert (name = type_name t) as ->.
      { destruct t as [o| | | | |]; try done. cbn in Hname.
        destruct (isEntity h o); [|done]. by injection Hname as <-. }
      by apply sublist_skip.
    + by apply sublist_cons.
Qed.

(** X9: for a document whose query type is not named [_Any], [FieldSet]
    or [_Entity] and has no field of a type whose name starts with
    [join__], the query type of the schema that [normalizeSchema] returns
    has the name of the query type of the input and, in the same order
    and with the same types, its fields other than [_entities].  When the
    input has no field named [_entities], the new field comes last.  The
    hypothesis on the types of the fields is the library's: it drops a
    field whose type was deleted, which the model of [mapSchema] leaves
    out.  The arguments of the fields are not compared. *)
Theorem query_fields_kept (schema : GraphQLSchema) (h : Store)
    (query : GraphQLObjectType) :
  closed h schema = true →
  argumentsDefined h (typeMap schema) = true →
  getQueryType schema = Some query →
  ot_name query ≠ "_Any" →
  ot_name query ≠ "FieldSet" →
  ot_name query ≠ "_Entity" →
  Forall (λ f, startsWith (namedType (f_type f)) "join__" = false)
    (ot_fields query) →
  ∃ result h' query',
    normalizeSchema schema h = inr (result, h')
    ∧ getQueryType result = Some query'
    ∧ ot_name query' = ot_name query
    ∧ (λ f, (f_name f, f_type f))
        <$> List.filter (λ f, negb (bool_decide (f_name f = "_entities")))
              (ot_fields query')
      = (λ f, (f_name f, f_type f))
          <$> List.filter (λ f, negb (bool_decide (f_name f = "_entities")))
                (ot_fields query)
    ∧ ("_entities" ∉ f_name <$> ot_fields query →
       f_name <$> ot_fields query'
       = ((f_name <$> ot_fields query) ++ ["_entities"])%list).
Proof.
  intros Hclosed Hdefined Hquery Hany HfieldSet Hentity _.
  destruct (normalizeSchema_run schema h Hclosed Hdefined)
    as (l & tm2 & h2 & tm4 & h4 & _ & _ & Hall2 & _ & Hall4 & _ & _ & Hroot
        & Hrun).
  rewrite Hquery in Hroot. cbn [fmap option_fmap option_map] in Hroot.
  rewrite Hroot in Hrun.
  assert (lookupType (typeMap schema) (ot_name query) = Some (ObjectT query))
    as Hlookup.
  { pose proof (getQueryType_under _ _ Hquery) as [Hname _].
    unfold getQueryType, getType in Hquery. rewrite Hname in Hquery.
    cbn in Hquery.
    destruct (lookupType (typeMap schema) (ot_name query))
      as [[o| | | | |]|]; try done. by injection Hquery as ->. }
  destruct (lookupType_Forall2 _ _ _ _ _
              (λ t t' Hc, proj1 (classified_shape _ _ t t' Hc)) Hall2 Hlookup)
    as (t2 & Hlookup2 & Hc).
  destruct (lookupType_Forall2 _ _ _ _ _
              (λ t t' Hs, proj1 (sanitized_shape _ _ t t' Hs)) Hall4 Hlookup2)
    as (t4 & Hlookup4 & Hs).
  assert (∃ q4, t4 = ObjectT q4 ∧ ot_name q4 = ot_name query
                ∧ ot_fields q4 = ot_fields query) as (q4 & -> & Hname4 & Hfields4).
  { assert (∃ q2, t2 = ObjectT q2 ∧ ot_name q2 = ot_name query
                  ∧ ot_fields q2 = ot_fields query) as (q2 & -> & Hname2 & Hfields2).
    { unfold classified in Hc. destruct (findJoinDirective h query).
      - destruct Hc as (? & ? & _ & -> & _). by eexists.
      - subst t2. by eexists. }
    unfold sanitized in Hs. destruct (isRootObject _ (ObjectT q2)).
    - destruct Hs as (o' & n & -> & Hname' & Hfields' & _).
      exists o'. split; [done|]. cbn in Hname'.
      rewrite (Hfields' q2 eq_refl). split; congruence.
    - subst t4. by exists q2. }
  apply lookupType_withoutJoinTypes in Hlookup4; [|done].
  eexists _, h4, _. split; [exact Hrun|].
  assert (∀ union, ut_name union = "_Entity" →
            lookupType
              (assignField (ot_name query) (entitiesField union anyScalar)
                 (assignFederationTypes (withoutJoinTypes tm4) union))
              (ot_name query)
            = Some (ObjectT
                      {| ot_name := ot_name q4;
                         ot_astNode := ot_astNode q4;
                         ot_fields :=
                           assign f_name "_entities"
                             (entitiesField union anyScalar) (ot_fields q4) |}))
    as Hresult.
  { intros union Hunion.
    apply (lookupType_assignField _ (entitiesField union anyScalar)).
    unfold assignFederationTypes, lookupType in *.
    rewrite !(find_assign_ne type_name) by done. exact Hlookup4. }
  split.
  { unfold getQueryType, getType.
    cbn [queryType typeMap addFederationDirectivesToSchema setTypeMap
         rewireRoots] in Hroot |- *.
    rewrite Hroot. cbn [mbind option_bind]. by rewrite Hresult. }
  clear Hresult.
  cbn [ot_name ot_fields]. split; [done|]. rewrite Hfields4. split.
  - by rewrite filter_assign.
  - intros Habsent. rewrite assign_absent by done. by rewrite fmap_app.
Qed.

(** X10: on a document whose AST nodes are in the store and whose
    [join__type] arguments are all defined, [normalizeSchema] throws the
    [TypeError] of the call of [getFields] on [undefined] exactly when
    the document has no query type: the throw comes from
    [addEntitiesQueryToSchema], after every other stage has run. *)
Theorem query_type_required (schema : GraphQLSchema) (h : Store) :
  closed h schema = true →
  argumentsDefined h (typeMap schema) = true →
  normalizeSchema schema h = inl (TypeError_undefined "getFields")
  ↔ getQueryType schema = None.
Proof.
  intros Hclosed Hdefined.
  destruct (normalizeSchema_run schema h Hclosed Hdefined)
    as (l & tm2 & h2 & tm4 & h4 & _ & _ & _ & _ & _ & _ & _ & Hroot & Hrun).
  rewrite Hroot in Hrun. rewrite Hrun.
  by destruct (getQueryType schema).
Qed.

(** ** The AST nodes of the input after the run *)



(** ** The stages on their own *)

(** X11: on a document whose AST nodes are in the store and whose
    [join__type] arguments are all defined, [addFederationDirectives]
    returns a schema with the directive definitions of the input and a
    type map of the same length.  Every type that is not an object type,
    and every object type without a [join__type] usage, is at its place
    the type it was.  Every recorded entity name is the name of an
    object type of the input that has a [join__type] usage: the name of
    an interface type is never recorded. *)
Theorem unmarked_types_kept (schema : GraphQLSchema) (h : Store) :
  closed h schema = true →
  argumentsDefined h (typeMap schema) = true →
  ∃ schema' entityNames h',
    addFederationDirectives schema h = inr ((schema', entityNames), h')
    ∧ directives schema' = directives schema
    ∧ length (typeMap schema') = length (typeMap schema)
    ∧ (∀ i t, typeMap schema !! i = Some t →
         (∀ o, t = ObjectT o → findJoinDirective h o = None) →
         typeMap schema' !! i = Some t)
    ∧ (∀ name, name ∈ entityNames →
         ∃ o, ObjectT o ∈ typeMap schema ∧ ot_name o = name
              ∧ is_Some (findJoinDirective h o)).
Proof.
  intros Hclosed Hdefined.
  pose proof (addFederationDirectives_spec schema h Hclosed) as Hspec.
  destruct (addFederationDirectives schema h) as [e|[[schema' names] h']];
    [congruence|].
  destruct Hspec as (_ & -> & _ & tm' & -> & Hall).
  eexists _, _, h'. split; [done|]. cbn [directives typeMap rewireRoots].
  split; [done|]. split; [symmetry; by eapply Forall2_length|]. split.
  - intros i t Hi Hunmarked.
    destruct (Forall2_lookup_l _ _ _ _ _ Hall Hi) as (t' & Hi' & Hc).
    unfold classified in Hc. destruct t as [o| | | | |]; try by subst.
    rewrite (Hunmarked o eq_refl) in Hc. by subst.
  - intros name (t & Ht & Hname)%list_elem_of_omap.
    destruct t as [o| | | | |]; try done. cbn in Hname.
    destruct (isEntity h o) eqn:Hentity; [|done]. injection Hname as <-.
    exists o. split_and!; try done. unfold isEntity in Hentity.
    by destruct (findJoinDirective h o).
Qed.

(** X12: [findJoinDirective] returns the first of the directive usages of
    the type that is named [join__type]: the usages before it have other
    names, another [join__] name included.  It returns [undefined] exactly
    when the type has no AST node, when the node has no [directives], or
    when no usage has that name. *)
Theorem first_join_type_usage (h : Store) (type : GraphQLObjectType) :
  match findJoinDirective h type with
  | Some joinTypeDirective =>
      ∃ before after,
        directivesOf h type = Some (before ++ joinTypeDirective :: after)%list
        ∧ dir_name joinTypeDirective = "join__type"
        ∧ Forall (λ d, dir_name d ≠ "join__type") before
  | None =>
      ∀ ds, directivesOf h type = Some ds →
        Forall (λ d, dir_name d ≠ "join__type") ds
  end.
Proof.
  unfold findJoinDirective.
  destruct (directivesOf h type) as [ds|]; [|done].
  induction ds as [|d ds IH]; cbn.
  - intros ? [= <-]. constructor.
  - case_bool_decide as Hname.
    + exists [], ds. by split_and!.
    + destruct (find _ ds) as [jd|].
      * destruct IH as (before & after & [= ->] & Hjd & Hbefore).
        exists (d :: before), after. split_and!; try done. by constructor.
      * intros ? [= <-]. constructor; [done|]. by apply IH.
Qed.

(** X13: the [key] usage that [generateFederationDirective] builds from a
    [join__type] usage with an argument named [key] passes that argument
    under the name it has, [key].  The definition of [key] that
    [addFederationDirectivesToSchema] adds declares no argument of that
    name: it declares [fields], of the non-null type [FieldSet] and
    without a default value, and no argument of the usage is named
    [fields]. *)
Theorem key_usage_arguments (joinTypeDirective : DirectiveNode)
    (entries : list (string * ArgumentNode)) :
  argumentEntries (default [] (dir_arguments joinTypeDirective)) = inr entries →
  hasArgument "key" joinTypeDirective →
  let usage := generateFederationDirective (newMap entries) in
  let definition := keyDirective fieldSetScalar in
  dir_name usage = gd_name definition
  ∧ (∃ a, Some a ∈ default [] (dir_arguments usage)
          ∧ arg_name a = "key"
          ∧ arg_name a ∉ a_name <$> gd_args definition)
  ∧ (∃ d, d ∈ gd_args definition
          ∧ a_name d = "fields"
          ∧ a_type d = GraphQLNonNull (NamedRef "FieldSet")
          ∧ a_defaultValue d = None
          ∧ ∀ a, Some a ∈ default [] (dir_arguments usage) →
              arg_name a ≠ a_name d).
Proof.
  intros Hentries Hkey. cbn zeta.
  pose proof (newMap_slot joinTypeDirective entries "key" Hentries) as Hslot.
  pose proof (newMap_slot joinTypeDirective entries "resolvable" Hentries)
    as Hslot'.
  apply (newMap_hasArgument joinTypeDirective entries "key" Hentries) in Hkey.
  unfold generateFederationDirective.
  rewrite bool_decide_eq_true_2 by done. cbn [dir_name dir_arguments default].
  destruct Hkey as [a Ha]. rewrite Ha in Hslot |- *.
  destruct Hslot as [_ Hname].
  split; [done|]. split.
  - exists a. split; [by left|]. split; [done|]. rewrite Hname. cbn.
    rewrite !elem_of_cons. intros [?|[?|?%elem_of_nil]]; done.
  - eexists. split; [by left|]. split_and!; try done. cbn.
    intros b [[= <-]|Hb%list_elem_of_singleton]%elem_of_cons;
      [by rewrite Hname|].
    rewrite <- Hb in Hslot'. destruct Hslot' as [_ ->]. done.
Qed.

(** X14: [removeJoinTypes] returns for every schema and leaves the AST
    nodes that exist alone.  The types of the schema it returns are, by
    name and in the same order, the types of the input without the enum
    and scalar types whose name starts with [join__], each with the
    directive usages and the enum values it had; an object, interface,
    union or input object type stays whatever its name.  The directive
    definitions are, by name and in order, those whose name does not start
    with [join__].  The schema keeps its AST node, and its query root when
    that is an object type of the type map.  The statement is by name and
    usages: it does not compare the fields and arguments, of which the
    library drops those whose type was deleted. *)
Theorem join_types_removed (schema : GraphQLSchema) (h : Store) :
  ∃ schema',
    removeJoinTypes schema h = inr (schema', h)
    ∧ Forall2 (sameUsages h h)
        (List.filter
           (λ t, negb (isLeafType t && startsWith (type_name t) "join__"))
           (typeMap schema))
        (typeMap schema')
    ∧ gd_name <$> directives schema' =
        List.filter (λ name, negb (startsWith name "join__"))
          (gd_name <$> directives schema)
    ∧ astNode schema' = astNode schema
    ∧ (∀ t, t ∈ typeMap schema → isLeafType t = false →
         type_name t ∈ type_name <$> typeMap schema')
    ∧ (∀ name o, queryType schema = Some name →
         lookupType (typeMap schema) name = Some (ObjectT o) →
         queryType schema' = Some name).
Proof.
  eexists. split; [apply removeJoinTypes_eq|].
  cbn [typeMap directives rewireRoots].
  assert (∀ t, isJoinLeaf t = isLeafType t && startsWith (type_name t) "join__")
    as Hleaf by by intros [].
  assert (withoutJoinTypes (typeMap schema)
          = List.filter
              (λ t, negb (isLeafType t && startsWith (type_name t) "join__"))
              (typeMap schema)) as Hfilter.
  { unfold withoutJoinTypes. apply filter_ext. intros t. by rewrite Hleaf. }
  split_and!; try done.
  - rewrite Hfilter. apply sameUsages_refl.
  - unfold withoutJoinDefinitions.
    apply (fmap_filter_name gd_name (λ name, negb (startsWith name "join__"))).
  - intros t Ht Ht'. apply list_elem_of_fmap_2.
    apply elem_of_filter_list. split; [done|]. by rewrite Hleaf, Ht'.
  - intros name o Hname Ho. cbn [queryType rewireRoots]. rewrite Hname.
    apply getObjectTypeFromTypeMap_objectUnder.
    apply objectUnder_withoutJoinTypes. by exists o.
Qed.

(** ** The order of the stages *)

Lemma find_withoutJoin ds :
  List.find (λ d, bool_decide (dir_name d = "join__type")) (withoutJoin ds)
  = None.
Proof.
  unfold withoutJoin. induction ds as [|d ds IH]; [done|]. cbn.
  destruct (startsWith (dir_name d) "join__") eqn:Hprefix; [done|]. cbn.
  case_bool_decide as Hname; [|done].
  rewrite Hname in Hprefix. by vm_compute in Hprefix.
Qed.

Lemma addFederationDirective_unmarked (o : GraphQLObjectType) s :
  findJoinDirective s.1 o = None →
  addFederationDirective o s = inr (Undefined, s).
Proof.
  intros Hnone. unfold addFederationDirective. unfold_M. by rewrite Hnone.
Qed.

Lemma mapEntries_keep_at {S A} (f : A → M S (Mapped A)) (l : list A) (s : S) :
  (∀ x, x ∈ l → f x s = inr (Undefined, s)) →
  mapEntries f l s = inr (l, s).
Proof.
  induction l as [|x l IH]; [done|]. intros Hkeep.
  cbn [mapEntries]. unfold mbind at 1, M_bind at 1.
  rewrite Hkeep by by left. unfold mbind at 1, M_bind at 1.
  rewrite IH; [done|]. intros y Hy. apply Hkeep. by right.
Qed.

(** X17: the stages do not commute.  [removeJoinDirectivesUsages] returns
    for every document, and in its result no object type has a
    [join__type] usage left; [addFederationDirectives] run on that result
    returns the type map as it is, records no entity name and adds no AST
    node.  The classification has to come before the removal of the
    usages, which is the order of [normalizeSchema]. *)
Theorem strip_before_classify (schema : GraphQLSchema) (h : Store) :
  ∃ schema' h',
    removeJoinDirectivesUsages schema h = inr (schema', h')
    ∧ (∀ o, ObjectT o ∈ typeMap schema' → findJoinDirective h' o = None)
    ∧ ∃ schema'',
        addFederationDirectives schema' h' = inr ((schema'', []), h')
        ∧ typeMap schema'' = typeMap schema'.
Proof.
  eexists _, _. split; [apply removeJoinDirectivesUsages_eq|].
  cbn [typeMap rewireRoots].
  assert (∀ o, ObjectT o ∈ typeMap schema →
            findJoinDirective (stripAll (visitedNodes (typeMap schema)) h) o
            = None) as Hnone.
  { intros o Ho. unfold findJoinDirective, directivesOf.
    rewrite (directives_stripAll _ h (astNode o)).
    - destruct (getNode h (astNode o) ≫= node_directives) as [ds|]; [|done].
      cbn. apply find_withoutJoin.
    - destruct (visitedNodes_type _ _ Ho); auto. }
  split; [done|].
  unfold addFederationDirectives, mapSchema.
  unfold mbind at 1, M_bind at 1.
  rewrite mapTypes_no_mapper by (intros t _ Hleaf; by destruct t).
  unfold mbind at 1, M_bind at 1. unfold mapEnumValues.
  cbn [ENUM_VALUE classifierMapper]. unfold mret at 1, M_ret at 1.
  unfold mbind at 1, M_bind at 1. unfold mapTypes.
  rewrite mapEntries_keep_at.
  - unfold mapDirectives. cbn [DIRECTIVE classifierMapper]. unfold_M.
    by eexists.
  - intros t Ht. destruct (negb (isLeafType t)); [|done].
    destruct t as [o| | | | |]; try done.
    cbn. destruct (isRootName _ (ot_name o)); cbn;
      by apply addFederationDirective_unmarked, Hnone.
Qed.

(** ** A run that writes the target *)

Section written.
Context {DocumentNode Supergraph : Type}.
Context (getInput : string → string).
Context (readFileSync : string → Thrown + string).
Context (parse : string → Thrown + DocumentNode).
Context (composeServices : DocumentNode → Thrown + CompositionResult Supergraph).
Context (toGraphQLJSSchema : Supergraph → Thrown + GraphQLSchema * Store).
Context (printSchemaWithDirectives : GraphQLSchema → Store → Thrown + string).
Context (writeFileSync : string → string → Thrown + unit).

Local Abbreviation loadSchema :=
  (loadSchema readFileSync parse composeServices toGraphQLJSSchema).
Local Abbreviation tryBlock :=
  (tryBlock getInput readFileSync parse composeServices toGraphQLJSSchema
     printSchemaWithDirectives writeFileSync).
Local Abbreviation run :=
  (run getInput readFileSync parse composeServices toGraphQLJSSchema
     printSchemaWithDirectives writeFileSync).

(** X16: when the schema file is read, parsed and composed without
    errors into a document whose AST nodes are in the store, whose
    [join__type] arguments are all defined and which has a query type,
    [normalizeSchema] returns, and the run does exactly one thing: when
    the printer and [writeFileSync] return, it writes the printed schema
    to the file that the input [target] names and reports no failure;
    when either throws an [Error], it reports the message of that error
    instead. *)
Theorem target_written (text : string) (document : DocumentNode)
    (supergraph : Supergraph) (schema : GraphQLSchema) (h : Store)
    (query : GraphQLObjectType) :
  readFileSync (getInput "schema") = inr text →
  parse text = inr document →
  composeServices document = inr (CompositionSuccess supergraph) →
  toGraphQLJSSchema supergraph = inr (schema, h) →
  closed h schema = true →
  argumentsDefined h (typeMap schema) = true →
  getQueryType schema = Some query →
  ∃ result h',
    normalizeSchema schema h = inr (result, h')
    ∧ (∀ printed,
         printSchemaWithDirectives result h' = inr printed →
         writeFileSync (getInput "target") printed = inr tt →
         run = [WriteFile (getInput "target") printed])
    ∧ (∀ message,
         printSchemaWithDirectives result h' = inl (ErrorObject message) →
         run = [SetFailed message])
    ∧ (∀ printed message,
         printSchemaWithDirectives result h' = inr printed →
         writeFileSync (getInput "target") printed
         = inl (ErrorObject message) →
         run = [SetFailed message]).
Proof.
  intros Hread Hparse Hcompose Hschema Hclosed Hdefined Hquery.
  destruct (normalizeSchema_returns schema h query Hclosed Hdefined Hquery)
    as (result & h' & Hrun).
  exists result, h'. split; [done|].
  unfold run, tryBlock, loadSchema.
  rewrite Hread. cbn. rewrite Hparse. cbn. rewrite Hcompose. cbn.
  rewrite Hschema. cbn. rewrite Hrun. cbn.
  split_and!.
  - intros printed -> Hwrite. cbn. by rewrite Hwrite.
  - by intros message ->.
  - intros printed message -> Hwrite. cbn. by rewrite Hwrite.
Qed.
(** X19: when the schema file is read, parsed and composed without errors
    into a document whose AST nodes are in the store and whose
    [join__type] arguments are all defined, but which has no query type,
    the run reports the message of the [TypeError] that
    [addEntitiesQueryToSchema] throws and writes no file: the printer and
    [writeFileSync] are not reached. *)
Theorem missing_query_type_reported (text : string) (document : DocumentNode)
    (supergraph : Supergraph) (schema : GraphQLSchema) (h : Store) :
  readFileSync (getInput "schema") = inr text →
  parse text = inr document →
  composeServices document = inr (CompositionSuccess supergraph) →
  toGraphQLJSSchema supergraph = inr (schema, h) →
  closed h schema = true →
  argumentsDefined h (typeMap schema) = true →
  getQueryType schema = None →
  run =
    [SetFailed "Cannot read properties of undefined (reading 'getFields')"].
Proof.
  intros Hread Hparse Hcompose Hschema Hclosed Hdefined Hquery.
  destruct (normalizeSchema_run schema h Hclosed Hdefined)
    as (l & tm2 & h2 & tm4 & h4 & _ & _ & _ & _ & _ & _ & _ & Hroot & Hrun).
  rewrite Hquery in Hroot. cbn [fmap option_fmap option_map] in Hroot.
  rewrite Hroot in Hrun.
  unfold run, tryBlock, loadSchema.
  rewrite Hread. cbn. rewrite Hparse. cbn. rewrite Hcompose. cbn.
  rewrite Hschema. cbn. by rewrite Hrun.
Qed.
End written.

(** The document is normalized without a throw. *)
Example normalizeSchema_example :
  normalizeSchema Example.schema Example.store = inr Example.normalized.
Proof. vm_compute. reflexivity. Qed.

Example normalized_types :
  type_name <$> typeMap Example.normalized.1
  = ["Query"; "Product"; "Money"; "ID"; "Int"; "_Any"; "FieldSet"; "_Entity"].
Proof. vm_compute. reflexivity. Qed.

Example normalized_Product :
  (t ← getType Example.normalized.1 "Product";
   directivesOf Example.normalized.2 t)
  = Some [Example.tag;
          {| dir_name := "key";
             dir_arguments := Some [Some Example.keyArgument; None] |}].
Proof. vm_compute. reflexivity. Qed.

Example normalized_Money :
  (t ← getType Example.normalized.1 "Money";
   directivesOf Example.normalized.2 t)
  = Some [ {| dir_name := "shareable"; dir_arguments := None |} ].
Proof. vm_compute. reflexivity. Qed.

Example normalized_Entity :
  getType Example.normalized.1 "_Entity"
  = Some (UnionT {| ut_name := "_Entity"; ut_astNode := None;
                    ut_types := [Some "Product"] |}).
Proof. vm_compute. reflexivity. Qed.

(** * The theorems at the example document *)

Lemma entity_union_members_witness :
  ∃ result h' union,
    normalizeSchema Example.schema Example.store = inr (result, h')
    ∧ getType result "_Entity" = Some (UnionT union)
    ∧ ∀ member,
        member ∈ ut_types union ↔
        ∃ o, ObjectT o ∈ typeMap Example.schema
             ∧ member = Some (ot_name o)
             ∧ keyFound Example.store o.
Proof.
  apply (entity_union_members Example.schema Example.store Example.Query).
  - reflexivity.
  - reflexivity.
  - reflexivity.
Defined.

Lemma federation_types_replaced_witness :
  ∃ resultSchema entityNames result h',
    (schema ← setFederationSchemaDirective Taken.schema;
     '(schemaWithFederationDirectives, entityNames) ←
       addFederationDirectives schema;
     schemaWithoutJoinDirectives ←
       removeJoinDirectivesUsages schemaWithFederationDirectives;
     schemaWithoutRootFedDirectives ←
       removeFederationDirectivesFromRootObjects schemaWithoutJoinDirectives;
     resultSchema ← removeJoinTypes schemaWithoutRootFedDirectives;
     mret (resultSchema, entityNames)) Example.store
    = inr ((resultSchema, entityNames), h')
    ∧ normalizeSchema Taken.schema Example.store = inr (result, h')
    ∧ getType result "_Any" = Some (ScalarT anyScalar)
    ∧ getType result "FieldSet" = Some (ScalarT fieldSetScalar)
    ∧ getType result "_Entity"
      = Some (UnionT (entityUnion resultSchema entityNames))
    ∧ (∀ name, name ≠ "_Any" → name ≠ "FieldSet" → name ≠ "_Entity" →
         queryType result ≠ Some name →
         getType result name = getType resultSchema name)
    ∧ (∀ i t, typeMap resultSchema !! i = Some t →
         ∃ t', typeMap result !! i = Some t'
               ∧ type_name t' = type_name t
               ∧ (type_name t ≠ "_Any" → type_name t ≠ "FieldSet" →
                  type_name t ≠ "_Entity" →
                  queryType result ≠ Some (type_name t) → t' = t)).
Proof.
  apply (federation_types_replaced Taken.schema Example.store Example.Query).
  - reflexivity.
  - reflexivity.
  - reflexivity.
Defined.

Lemma key_directive_emitted_witness :
  ∃ schema' entityNames h' o' keyArgument resolvable,
    addFederationDirectives Example.schema Example.store
    = inr ((schema', entityNames), h')
    ∧ typeMap schema' !! 1 = Some (ObjectT o')
    ∧ ot_name o' = "Product"
    ∧ ot_fields o' = ot_fields Example.Product
    ∧ directivesOf h' o' =
        Some ([Example.joinType [Example.graphArgument; Example.keyArgument];
               Example.tag]
              ++ [ {| dir_name := "key";
                      dir_arguments :=
                        Some [Some keyArgument; resolvable] |} ])%list
    ∧ Some keyArgument
        ∈ default []
            (dir_arguments
               (Example.joinType
                  [Example.graphArgument; Example.keyArgument]))
    ∧ arg_name keyArgument = "key"
    ∧ match resolvable with
      | Some a =>
          Some a
            ∈ default []
                (dir_arguments
                   (Example.joinType
                      [Example.graphArgument; Example.keyArgument]))
          ∧ arg_name a = "resolvable"
      | None =>
          ¬ hasArgument "resolvable"
              (Example.joinType [Example.graphArgument; Example.keyArgument])
      end
    ∧ "Product" ∈ entityNames.
Proof.
  apply (key_directive_emitted Example.schema Example.store 1 Example.Product
           [Example.joinType [Example.graphArgument; Example.keyArgument];
            Example.tag]
           (Example.joinType [Example.graphArgument; Example.keyArgument])).
  - reflexivity.
  - reflexivity.
  - reflexivity.
  - reflexivity.
  - reflexivity.
  - exists Example.keyArgument. split; [|reflexivity]. cbn. right. left.
Defined.

Lemma shareable_directive_emitted_witness :
  ∃ schema' entityNames h' o',
    addFederationDirectives Example.schema Example.store
    = inr ((schema', entityNames), h')
    ∧ typeMap schema' !! 2 = Some (ObjectT o')
    ∧ ot_name o' = "Money"
    ∧ ot_fields o' = ot_fields Example.Money
    ∧ directivesOf h' o' =
        Some ([Example.joinType [Example.graphArgument]]
              ++ [ {| dir_name := "shareable"; dir_arguments := None |} ])%list
    ∧ "Money" ∉ entityNames.
Proof.
  apply (shareable_directive_emitted Example.schema Example.store 2
           Example.Money [Example.joinType [Example.graphArgument]]
           (Example.joinType [Example.graphArgument])).
  - reflexivity.
  - reflexivity.
  - apply (bool_decide_unpack _). vm_compute. exact I.
  - reflexivity.
  - reflexivity.
  - reflexivity.
  - intros (a & Ha & Hname). cbn in Ha.
    apply list_elem_of_singleton in Ha. injection Ha as ->. discriminate.
Defined.

Lemma entities_field_shape_witness :
  ∃ result h' query' field argument union,
    normalizeSchema Example.schema Example.store = inr (result, h')
    ∧ getQueryType result = Some query'
    ∧ List.find (λ f, bool_decide (f_name f = "_entities")) (ot_fields query')
      = Some field
    ∧ f_type field = GraphQLNonNull (GraphQLList (NamedRef "_Entity"))
    ∧ f_args field = [argument]
    ∧ a_name argument = "representations"
    ∧ a_type argument =
        GraphQLNonNull (GraphQLList (GraphQLNonNull (NamedRef "_Any")))
    ∧ getType result "_Entity" = Some (UnionT union)
    ∧ getType result "_Any" = Some (ScalarT anyScalar).
Proof.
  apply (entities_field_shape Example.schema Example.store Example.Query).
  - reflexivity.
  - reflexivity.
  - reflexivity.
  - discriminate.
  - discriminate.
  - discriminate.
Defined.

Lemma failure_reported_witness :
  loadSchema FailedComposition.readFileSync FailedComposition.parse
    FailedComposition.composeServices FailedComposition.toGraphQLJSSchema
    "supergraph.graphql"
  = inl (ErrorObject
           ("Unknown directive @unknown." +:+ newline
            +:+ "No queries found in any subgraph"))
  ∧ run FailedComposition.getInput FailedComposition.readFileSync
      FailedComposition.parse FailedComposition.composeServices
      FailedComposition.toGraphQLJSSchema
      FailedComposition.printSchemaWithDirectives
      FailedComposition.writeFileSync
    = [SetFailed
         ("Unknown directive @unknown." +:+ newline
          +:+ "No queries found in any subgraph")].
Proof.
  destruct (failure_reported FailedComposition.getInput
              FailedComposition.readFileSync FailedComposition.parse
              FailedComposition.composeServices
              FailedComposition.toGraphQLJSSchema
              FailedComposition.printSchemaWithDirectives
              FailedComposition.writeFileSync) as [Hthrown Hcomposition].
  destruct (Hcomposition "type Product { id: ID @unknown }"
              "type Product { id: ID @unknown }"
              [ {| error_message := "Unknown directive @unknown." |};
                {| error_message := "No queries found in any subgraph" |} ]
              eq_refl eq_refl eq_refl) as (Hload & Hrun & _).
  split; [exact Hload|].
  apply Hthrown. reflexivity.
Defined.

Lemma schema_node_linked_witness :
  ∃ result h' l n,
    normalizeSchema Example.schema Example.store = inr (result, h')
    ∧ astNode result = Some l
    ∧ Example.store !! l = None
    ∧ h' !! l = Some n
    ∧ node_directives n = Some [linkDirective]
    ∧ node_kind n
      = getNode Example.store (astNode Example.schema) ≫= node_kind
    ∧ node_description n
      = getNode Example.store (astNode Example.schema) ≫= node_description.
Proof.
  apply (schema_node_linked Example.schema Example.store Example.Query).
  - reflexivity.
  - reflexivity.
  - reflexivity.
Defined.

Lemma directive_definitions_normalized_witness :
  ∃ result h' kept,
    normalizeSchema Example.schema Example.store = inr (result, h')
    ∧ directives result =
        (kept ++ [keyDirective fieldSetScalar; shareableDirective])%list
    ∧ gd_name <$> kept =
        List.filter (λ name, negb (startsWith name "join__"))
          (gd_name <$> directives Example.schema).
Proof.
  apply (directive_definitions_normalized Example.schema Example.store
           Example.Query).
  - reflexivity.
  - reflexivity.
  - reflexivity.
Defined.

Lemma type_names_normalized_witness :
  ∃ result h',
    normalizeSchema Example.schema Example.store = inr (result, h')
    ∧ type_name <$> typeMap result =
        ((type_name <$> withoutJoinTypes (typeMap Example.schema))
         ++ ["_Any"; "FieldSet"; "_Entity"])%list.
Proof.
  apply (type_names_normalized Example.schema Example.store Example.Query).
  - reflexivity.
  - reflexivity.
  - reflexivity.
  - apply (bool_decide_unpack _). vm_compute. exact I.
  - apply (bool_decide_unpack _). vm_compute. exact I.
  - apply (bool_decide_unpack _). vm_compute. exact I.
Defined.

Lemma root_types_bare_witness :
  ∃ result h',
    normalizeSchema Example.schema Example.store = inr (result, h')
    ∧ ∀ o' : GraphQLObjectType,
        ObjectT o' ∈ typeMap result →
        isRootName result (ot_name o') = true →
        directivesOf h' o' = Some [].
Proof.
  apply (root_types_bare Example.schema Example.store Example.Query).
  - reflexivity.
  - reflexivity.
  - reflexivity.
Defined.

Lemma marked_object_usages_witness :
  ∃ result h' o' federationDirective,
    normalizeSchema Example.schema Example.store = inr (result, h')
    ∧ ObjectT o' ∈ typeMap result
    ∧ ot_name o' = "Product"
    ∧ directivesOf h' o' =
        Some (withoutJoin
                [Example.joinType [Example.graphArgument; Example.keyArgument];
                 Example.tag]
              ++ [federationDirective])%list
    ∧ (hasArgument "key"
         (Example.joinType [Example.graphArgument; Example.keyArgument])
       ∧ dir_name federationDirective = "key"
       ∨ ¬ hasArgument "key"
             (Example.joinType [Example.graphArgument; Example.keyArgument])
         ∧ federationDirective
           = {| dir_name := "shareable"; dir_arguments := None |}).
Proof.
  apply (marked_object_usages Example.schema Example.store Example.Query
           Example.Product
           [Example.joinType [Example.graphArgument; Example.keyArgument];
            Example.tag]
           (Example.joinType [Example.graphArgument; Example.keyArgument])).
  - reflexivity.
  - reflexivity.
  - reflexivity.
  - right. left.
  - reflexivity.
  - reflexivity.
  - reflexivity.
  - discriminate.
  - discriminate.
  - discriminate.
Defined.

Lemma unmarked_types_pass_witness :
  ∃ result h' (t' : GraphQLNamedType),
    normalizeSchema WithInterface.schema WithInterface.store
    = inr (result, h')
    ∧ t' ∈ typeMap result
    ∧ type_name t' = "Node"
    ∧ directivesOf h' t'
      = withoutJoin
          <$> directivesOf WithInterface.store (InterfaceT WithInterface.Node).
Proof.
  apply (unmarked_types_pass WithInterface.schema WithInterface.store
           Example.Query (InterfaceT WithInterface.Node)).
  - reflexivity.
  - reflexivity.
  - reflexivity.
  - do 7 right. left.
  - discriminate.
  - reflexivity.
  - discriminate.
  - discriminate.
  - discriminate.
Defined.

Lemma join_usages_gone_witness :
  ∃ result h',
    normalizeSchema Example.schema Example.store = inr (result, h')
    ∧ (∀ (t : GraphQLNamedType) ds, t ∈ typeMap result →
         directivesOf h' t = Some ds →
         Forall (λ d, startsWith (dir_name d) "join__" = false) ds)
    ∧ (∀ e (v : GraphQLEnumValueConfig) ds,
         EnumT e ∈ typeMap result → v ∈ et_values e →
         directivesOf h' v = Some ds →
         Forall (λ d, startsWith (dir_name d) "join__" = false) ds).
Proof.
  apply (join_usages_gone Example.schema Example.store Example.Query).
  - reflexivity.
  - reflexivity.
  - reflexivity.
Defined.

Lemma entity_union_order_witness :
  ∃ result h' union,
    normalizeSchema WithInterface.schema WithInterface.store
    = inr (result, h')
    ∧ getType result "_Entity" = Some (UnionT union)
    ∧ ut_types union
      = Some <$> entityNamesOf WithInterface.store
                   (typeMap WithInterface.schema)
    ∧ entityNamesOf WithInterface.store (typeMap WithInterface.schema)
      `sublist_of` type_name <$> typeMap WithInterface.schema.
Proof.
  apply (entity_union_order WithInterface.schema WithInterface.store
           Example.Query).
  - reflexivity.
  - reflexivity.
  - reflexivity.
Defined.

Lemma query_fields_kept_witness :
  ∃ result h' query',
    normalizeSchema Example.schema Example.store = inr (result, h')
    ∧ getQueryType result = Some query'
    ∧ ot_name query' = "Query"
    ∧ (λ f, (f_name f, f_type f))
        <$> List.filter (λ f, negb (bool_decide (f_name f = "_entities")))
              (ot_fields query')
      = (λ f, (f_name f, f_type f))
          <$> List.filter (λ f, negb (bool_decide (f_name f = "_entities")))
                (ot_fields Example.Query)
    ∧ ("_entities" ∉ f_name <$> ot_fields Example.Query →
       f_name <$> ot_fields query'
       = ((f_name <$> ot_fields Example.Query) ++ ["_entities"])%list).
Proof.
  apply (query_fields_kept Example.schema Example.store Example.Query).
  - reflexivity.
  - reflexivity.
  - reflexivity.
  - discriminate.
  - discriminate.
  - discriminate.
  - repeat constructor.
Defined.

Lemma query_type_required_witness :
  normalizeSchema NoQuery.schema Example.store
  = inl (TypeError_undefined "getFields").
Proof.
  apply (query_type_required NoQuery.schema Example.store).
  - reflexivity.
  - reflexivity.
  - reflexivity.
Defined.

Lemma unmarked_types_kept_witness :
  ∃ schema' entityNames h',
    addFederationDirectives WithInterface.schema WithInterface.store
    = inr ((schema', entityNames), h')
    ∧ directives schema' = directives WithInterface.schema
    ∧ length (typeMap schema') = length (typeMap WithInterface.schema)
    ∧ (∀ i t, typeMap WithInterface.schema !! i = Some t →
         (∀ o, t = ObjectT o → findJoinDirective WithInterface.store o = None) →
         typeMap schema' !! i = Some t)
    ∧ (∀ name, name ∈ entityNames →
         ∃ o, ObjectT o ∈ typeMap WithInterface.schema ∧ ot_name o = name
              ∧ is_Some (findJoinDirective WithInterface.store o)).
Proof.
  apply (unmarked_types_kept WithInterface.schema WithInterface.store).
  - reflexivity.
  - reflexivity.
Defined.

Lemma key_usage_arguments_witness :
  let usage :=
    generateFederationDirective
      (newMap [("graph", Example.graphArgument);
               ("key", Example.keyArgument)]) in
  let definition := keyDirective fieldSetScalar in
  dir_name usage = gd_name definition
  ∧ (∃ a, Some a ∈ default [] (dir_arguments usage)
          ∧ arg_name a = "key"
          ∧ arg_name a ∉ a_name <$> gd_args definition)
  ∧ (∃ d, d ∈ gd_args definition
          ∧ a_name d = "fields"
          ∧ a_type d = GraphQLNonNull (NamedRef "FieldSet")
          ∧ a_defaultValue d = None
          ∧ ∀ a, Some a ∈ default [] (dir_arguments usage) →
              arg_name a ≠ a_name d).
Proof.
  apply (key_usage_arguments
           (Example.joinType [Example.graphArgument; Example.keyArgument])
           [("graph", Example.graphArgument); ("key", Example.keyArgument)]).
  - reflexivity.
  - exists Example.keyArgument. split; [|reflexivity]. cbn. right. left.
Defined.


Lemma target_written_witness :
  ∃ result h',
    normalizeSchema Example.schema Example.store = inr (result, h')
    ∧ (∀ printed,
         Composed.printSchemaWithDirectives result h' = inr printed →
         Composed.writeFileSync (Composed.getInput "target") printed
         = inr tt →
         run Composed.getInput Composed.readFileSync Composed.parse
           Composed.composeServices Composed.toGraphQLJSSchema
           Composed.printSchemaWithDirectives Composed.writeFileSync
         = [WriteFile (Composed.getInput "target") printed])
    ∧ (∀ message,
         Composed.printSchemaWithDirectives result h'
         = inl (ErrorObject message) →
         run Composed.getInput Composed.readFileSync Composed.parse
           Composed.composeServices Composed.toGraphQLJSSchema
           Composed.printSchemaWithDirectives Composed.writeFileSync
         = [SetFailed message])
    ∧ (∀ printed message,
         Composed.printSchemaWithDirectives result h' = inr printed →
         Composed.writeFileSync (Composed.getInput "target") printed
         = inl (ErrorObject message) →
         run Composed.getInput Composed.readFileSync Composed.parse
           Composed.composeServices Composed.toGraphQLJSSchema
           Composed.printSchemaWithDirectives Composed.writeFileSync
         = [SetFailed message]).
Proof.
  apply (target_written Composed.getInput Composed.readFileSync
           Composed.parse Composed.composeServices
           Composed.toGraphQLJSSchema Composed.printSchemaWithDirectives
           Composed.writeFileSync "type Query { product: Product }"
           "type Query { product: Product }" tt Example.schema Example.store
           Example.Query).
  - reflexivity.
  - reflexivity.
  - reflexivity.
  - reflexivity.
  - reflexivity.
  - reflexivity.
  - reflexivity.
Defined.

Lemma missing_query_type_reported_witness :
  run Composed.getInput Composed.readFileSync Composed.parse
    Composed.composeServices (λ _, inr (NoQuery.schema, Example.store))
    Composed.printSchemaWithDirectives Composed.writeFileSync
  = [SetFailed "Cannot read properties of undefined (reading 'getFields')"].
Proof.
  apply (missing_query_type_reported Composed.getInput Composed.readFileSync
           Composed.parse Composed.composeServices
           (λ _, inr (NoQuery.schema, Example.store))
           Composed.printSchemaWithDirectives Composed.writeFileSync
           "type Query { product: Product }"
           "type Query { product: Product }" tt NoQuery.schema Example.store).
  - reflexivity.
  - reflexivity.
  - reflexivity.
  - reflexivity.
  - reflexivity.
  - reflexivity.
  - reflexivity.
Defined.

(** The document that has types named [_Entity], [FieldSet] and [_Any] is
    normalized: the three names stay where they were in the type map, and
    under them are now the union and the two scalars of the federation. *)
Example taken_names_replaced :
  (type_name <$> typeMap Taken.schema,
   let '(result, _) :=
     Example.returned (normalizeSchema Taken.schema Example.store)
       (Taken.schema, Example.store) in
   (type_name <$> typeMap result,
    getType result "_Entity", getType result "FieldSet",
    getType result "_Any"))
  = (["_Entity"; "Query"; "Product"; "Money"; "join__Graph";
      "join__FieldSet"; "ID"; "Int"; "FieldSet"; "_Any"],
     (["_Entity"; "Query"; "Product"; "Money"; "ID"; "Int"; "FieldSet";
       "_Any"],
      Some (UnionT {| ut_name := "_Entity"; ut_astNode := None;
                      ut_types := [Some "Product"] |}),
      Some (ScalarT fieldSetScalar), Some (ScalarT anyScalar))).
Proof. vm_compute. reflexivity. Qed.

(** The run on the example document writes the names of the types of the
    normalized schema to the target. *)
Example run_example :
  run Composed.getInput Composed.readFileSync Composed.parse
    Composed.composeServices Composed.toGraphQLJSSchema
    Composed.printSchemaWithDirectives Composed.writeFileSync
  = [WriteFile "subgraph.graphql"
       (String.concat newline
          ["Query"; "Product"; "Money"; "ID"; "Int"; "_Any"; "FieldSet";
           "_Entity"])].
Proof. vm_compute. reflexivity. Qed.

(** In the second example document the run leaves the node of the entity
    [Product] as it was and strips the node of the interface [Node] in
    place. *)
Example input_nodes_example :
  (let '(_, h') :=
     Example.returned
       (normalizeSchema WithInterface.schema WithInterface.store)
       (WithInterface.schema, WithInterface.store) in
   (h' !! 2%positive, h' !! 7%positive))
  = (WithInterface.store !! 2%positive,
     Some (Example.definition "InterfaceTypeDefinition" [Example.tag])).
Proof. vm_compute. reflexivity. Qed.

(** The interface [Node] of the second example document, which has a
    [join__type] usage with a [key] argument, ends with its [tag] usage
    alone and is no member of [_Entity]. *)
Example normalized_Node :
  (let '(result, h') :=
     Example.returned
       (normalizeSchema WithInterface.schema WithInterface.store)
       (WithInterface.schema, WithInterface.store) in
   (directivesOf h' (InterfaceT WithInterface.Node),
    t ← getType result "_Entity";
    match t with UnionT u => Some (ut_types u) | _ => None end))
  = (Some [Example.tag], Some [Some "Product"]).
Proof. vm_compute. reflexivity. Qed.

(** * Where the code differs from the claims *)

(** C2: the code differs from the claim.  [Product] has a [join__type]
    directive with a [key] argument and no [resolvable] argument, and the
    [key] usage that [addFederationDirectives] appends has two elements in
    its array of arguments, the second being [undefined]; the array is not
    the [key] argument alone.  [generateFederationDirective] stores the
    result of [Map.prototype.get] without testing it, and so returns an
    array that is no array of argument nodes, which its return type
    [ConstDirectiveNode] asks for. *)
Lemma key_directive_placeholder :
  ¬ hasArgument "resolvable"
      (Example.joinType [Example.graphArgument; Example.keyArgument])
  ∧ addFederationDirectives Example.schema Example.store
    = inr Example.classifiedSchema
  ∧ (t ← typeMap Example.classifiedSchema.1.1 !! 1;
     directivesOf Example.classifiedSchema.2 t)
    = Some [Example.joinType [Example.graphArgument; Example.keyArgument];
            Example.tag;
            {| dir_name := "key";
               dir_arguments := Some [Some Example.keyArgument; None] |}]
  ∧ [Some Example.keyArgument; None] ≠ [Some Example.keyArgument].
Proof.
  split_and!.
  - intros (a & Ha & Hname). cbn in Ha.
    apply elem_of_cons in Ha as [[= ->]|Ha]; [discriminate|].
    apply list_elem_of_singleton in Ha. injection Ha as ->. discriminate.
  - vm_compute. reflexivity.
  - vm_compute. reflexivity.
  - discriminate.
Qed.

(** C6: a [join__] usage survives a pass of [removeJoinDirectivesUsages]
    and [removeJoinTypes].  In the example document the field [price] of
    [Product] carries [@join__field]; after the pass [price] is still a
    field of [Product] and still carries that usage, while the definition
    of the directive [join__field] is gone.  [removeJoinDirectivesUsages]
    hands the types and the enum values to [removeJoinDirectives], and not
    the fields. *)
Lemma join_field_usage_survives :
  pruneJoin Example.schema Example.store = inr Example.prunedSchema
  ∧ (t ← getType Example.prunedSchema.1 "Product";
     match t with ObjectT o => Some (ot_fields o) | _ => None end)
    = Some [Example.field "id" "ID" None; Example.price]
  ∧ directivesOf Example.store Example.price = Some [Example.joinField]
  ∧ directivesOf Example.prunedSchema.2 Example.price
    = Some [Example.joinField]
  ∧ startsWith (dir_name Example.joinField) "join__" = true
  ∧ gd_name <$> directives Example.schema
    = ["join__type"; "join__field"; "join__graph"; "tag"]
  ∧ gd_name <$> directives Example.prunedSchema.1 = ["tag"].
Proof. split_and!; vm_compute; reflexivity. Qed.

(** C9 as stated fails.  On the example document
    [removeFederationDirectivesFromRootObjects] changes no AST node of its
    input: the node of [Query] keeps its directive usages and the new
    [Query] has a new node.  [removeJoinDirectivesUsages] changes AST nodes
    of its input in place: the node of [Product] and the node of the enum
    value [SERVICE] lose their [join__] usages where they are. *)
Lemma root_sanitization_rebuilds :
  (removeFederationDirectivesFromRootObjects Example.schema Example.store
   = inr Example.sanitizedSchema
   ∧ Example.store ⊆ Example.sanitizedSchema.2
   ∧ Example.sanitizedSchema.2 !! 1%positive
     = Some (Example.definition "ObjectTypeDefinition"
               [Example.joinType [Example.graphArgument]])
   ∧ (t ← getType Example.sanitizedSchema.1 "Query"; astNode t)
     = Some 7%positive
   ∧ Example.store !! 7%positive = None)
  ∧ (removeJoinDirectivesUsages Example.schema Example.store
     = inr Example.strippedSchema
     ∧ Example.store !! 2%positive
       = Some (Example.definition "ObjectTypeDefinition"
                 [Example.joinType
                    [Example.graphArgument; Example.keyArgument];
                  Example.tag])
     ∧ Example.strippedSchema.2 !! 2%positive
       = Some (Example.definition "ObjectTypeDefinition" [Example.tag])
     ∧ Example.store !! 5%positive
       = Some (Example.definition "EnumValueDefinition" [Example.joinGraph])
     ∧ Example.strippedSchema.2 !! 5%positive
       = Some (Example.definition "EnumValueDefinition" [])
     ∧ ¬ Example.store ⊆ Example.strippedSchema.2).
Proof.
  split; split_and!; try (vm_compute; reflexivity).
  - destruct (removeFederationDirectivesFromRootObjects_spec
                Example.schema Example.store)
      as (tm' & h' & Hrun & Hsub & _).
    assert (Example.sanitizedSchema.2 = h') as ->; [|done].
    unfold Example.sanitizedSchema. by rewrite Hrun.
  - intros Hsub.
    assert (Example.store !! 5%positive
            = Some (Example.definition "EnumValueDefinition"
                      [Example.joinGraph])) as H5 by reflexivity.
    apply (lookup_weaken _ _ _ _ H5) in Hsub.
    vm_compute in Hsub. discriminate.
Qed.
